(** * TWAI console utilities: frame codec, filter parser, transmit
      rendezvous and capture pipeline

    Shallow embedding of
      - [twai_utils_parser.h] / [twai_utils_parser.c] (dedicated parsers),
      - the send command with its inline [parse_frame] and
        [send_frame_sync],
      - [cmd_twai_dump.c] (dump formatter, capture start).

    Conventions.
      - A C string is the list of its characters before the terminating
        NUL; reading at the end of the list reads the terminator.
      - Machine integers are [Z]; narrowing stores are written out with
        [mod].  Return codes are the [int] values of the header.
      - A function that writes through pointer arguments takes the pointee
        and returns its new value next to the return code.
      - Pointer arguments are non-NULL: the [PARSE_INVALID_ARG] guards on
        NULL pointers have no counterpart here. *)

From Stdlib Require Import ZArith Ascii String List Lia Bool.
From stdpp Require Import base list.
Import ListNotations.

Local Open Scope char_scope.
Local Open Scope Z_scope.

(** ** Characters and C strings *)

Abbreviation cstring := (list ascii).

Definition cs (s : string) : cstring := list_ascii_of_string s.

Definition code (c : ascii) : Z := Z.of_N (N_of_ascii c).

Definition chr (n : Z) : ascii := ascii_of_N (Z.to_N n).

Definition NUL : ascii := chr 0.

(** [<ctype.h>] in the C locale. *)
Definition isxdigit (c : ascii) : bool :=
  (code "0" <=? code c) && (code c <=? code "9")
  || (code "A" <=? code c) && (code c <=? code "F")
  || (code "a" <=? code c) && (code c <=? code "f").

Definition isspace (c : ascii) : bool :=
  (code c =? 32) || (9 <=? code c) && (code c <=? 13).

(** ** Constants of [twai_utils_parser.h] *)

Definition TWAI_MAX_DATA_LEN : Z := 8.
Definition TWAI_FD_MAX_DATA_LEN : Z := 64.
Definition TWAI_STD_ID_CHAR_LEN : Z := 3.
Definition TWAI_EXT_ID_CHAR_LEN : Z := 8.

Definition PARSE_OK : Z := 0.
Definition PARSE_ERROR : Z := -1.
Definition PARSE_INVALID_ARG : Z := -2.
Definition PARSE_OUT_OF_RANGE : Z := -3.
Definition PARSE_TOO_LONG : Z := -4.

Module Parser.
(** The values the dedicated parser sees (header, lines 35-39). *)
Definition TWAI_RTR_DEFAULT_DLC : Z := 8.
Definition TWAI_FD_FLAGS_MAX_VALUE : Z := 15.
Definition TWAI_FD_BRS_FLAG_MASK : Z := 1.
Definition TWAI_FD_ESI_FLAG_MASK : Z := 2.
Definition MAX_INPUT_LEN : Z := 256.
End Parser.

(** Modelled from the spec: the driver's [hal/twai_types.h] is not among
    the files of the example.  The identifier masks are the bounds of the
    data model (they also appear, commented out, in the send command); the
    two frame maxima are the payload limits of the classic and the
    flexible-rate frame. *)
Definition TWAI_STD_ID_MASK : Z := 0x7FF.
Definition TWAI_EXT_ID_MASK : Z := 0x1FFFFFFF.
Definition TWAI_FRAME_MAX_LEN : Z := 8.
Definition TWAIFD_FRAME_MAX_LEN : Z := 64.

(** Modelled from the spec: [twaifd_len2dlc] and [twaifd_dlc2len] belong to
    the driver.  The quantization table is 0..8 one to one, then
    12, 16, 20, 24, 32, 48, 64 for the codes 9..15; a length is rounded up
    to the next entry. *)
Definition twaifd_dlc2len (dlc : Z) : Z :=
  if dlc <=? 8 then dlc
  else if dlc =? 9 then 12
  else if dlc =? 10 then 16
  else if dlc =? 11 then 20
  else if dlc =? 12 then 24
  else if dlc =? 13 then 32
  else if dlc =? 14 then 48
  else 64.

Definition twaifd_len2dlc (len : Z) : Z :=
  if len <=? 8 then len
  else if len <=? 12 then 9
  else if len <=? 16 then 10
  else if len <=? 20 then 11
  else if len <=? 24 then 12
  else if len <=? 32 then 13
  else if len <=? 48 then 14
  else 15.

(** ** The frame structure

    [twai_frame_t]: the header fields the console touches, the caller's
    byte buffer (all of it, not only the payload) and [buffer_len]. *)
Record twai_frame_header_t := mkHeader {
  id : Z;          (* uint32_t *)
  dlc : Z;         (* uint16_t *)
  ide : bool;
  rtr : bool;
  fdf : bool;
  brs : bool;
  esi : bool
}.

Record twai_frame_t := mkFrame {
  header : twai_frame_header_t;
  buffer : list Z;        (* uint8_t *buffer, the array it points to *)
  buffer_len : Z
}.

Definition header_zero : twai_frame_header_t :=
  mkHeader 0 0 false false false false false.

Definition set_id (v : Z) (h : twai_frame_header_t) :=
  mkHeader v (dlc h) (ide h) (rtr h) (fdf h) (brs h) (esi h).
Definition set_dlc (v : Z) (h : twai_frame_header_t) :=
  mkHeader (id h) v (ide h) (rtr h) (fdf h) (brs h) (esi h).
Definition set_ide (v : bool) (h : twai_frame_header_t) :=
  mkHeader (id h) (dlc h) v (rtr h) (fdf h) (brs h) (esi h).
Definition set_rtr (v : bool) (h : twai_frame_header_t) :=
  mkHeader (id h) (dlc h) (ide h) v (fdf h) (brs h) (esi h).
Definition set_fdf (v : bool) (h : twai_frame_header_t) :=
  mkHeader (id h) (dlc h) (ide h) (rtr h) v (brs h) (esi h).
Definition set_brs (v : bool) (h : twai_frame_header_t) :=
  mkHeader (id h) (dlc h) (ide h) (rtr h) (fdf h) v (esi h).
Definition set_esi (v : bool) (h : twai_frame_header_t) :=
  mkHeader (id h) (dlc h) (ide h) (rtr h) (fdf h) (brs h) v.

Definition with_header (g : twai_frame_header_t -> twai_frame_header_t)
    (f : twai_frame_t) : twai_frame_t :=
  mkFrame (g (header f)) (buffer f) (buffer_len f).
Definition with_buffer (b : list Z) (f : twai_frame_t) : twai_frame_t :=
  mkFrame (header f) b (buffer_len f).
Definition with_buffer_len (n : Z) (f : twai_frame_t) : twai_frame_t :=
  mkFrame (header f) (buffer f) n.

(** The payload of a frame: the first [buffer_len] bytes of its buffer. *)
Definition payload (f : twai_frame_t) : list Z :=
  take (Z.to_nat (buffer_len f)) (buffer f).

(** [buf[i] = v] on a byte array. *)
Definition store_byte (buf : list Z) (i v : Z) : list Z :=
  <[Z.to_nat i := v mod 256]> buf.

(** ** [twai_utils_parser.c] *)

Definition parse_nibble (c : ascii) : option Z :=
  if (code "0" <=? code c) && (code c <=? code "9") then
    Some ((code c - code "0") mod 256)
  else if (code "A" <=? code c) && (code c <=? code "F") then
    Some ((code c - code "A" + 10) mod 256)
  else if (code "a" <=? code c) && (code c <=? code "f") then
    Some ((code c - code "a" + 10) mod 256)
  else None.

(** The [for] loop of [parse_hex_segment] over [str[0 .. len-1]];
    [result] is a [uint32_t]. *)
Fixpoint parse_hex_segment_loop (str : cstring) (result : Z) : option Z :=
  match str with
  | [] => Some result
  | c :: str' =>
      match parse_nibble c with
      | None => None
      | Some nibble =>
          parse_hex_segment_loop str'
            (Z.lor ((Z.shiftl result 4) mod 2 ^ 32) nibble)
      end
  end.

(** [parse_hex_segment(str, len, &out)]: [seg] is [str[0 .. len-1]], the
    caller's [out] is passed in and handed back. *)
Definition parse_hex_segment (seg : cstring) (out : Z) : Z * Z :=
  let len := Z.of_nat (length seg) in
  if (len =? 0) || (TWAI_EXT_ID_CHAR_LEN <? len) then (PARSE_INVALID_ARG, out)
  else match parse_hex_segment_loop seg 0 with
       | None => (PARSE_ERROR, out)
       | Some result => (PARSE_OK, result)
       end.

(** The [while] loop of [parse_payload]; the result is the function's
    return value (a count or a negative code) and the buffer. *)
Fixpoint parse_payload_loop (s : cstring) (buf : list Z) (cnt max : Z)
    : Z * list Z :=
  match s with
  | [] => (cnt, buf)
  | c0 :: s1 =>
      if negb (cnt <? max) then (cnt, buf)
      else if Ascii.eqb c0 "." then parse_payload_loop s1 buf cnt max
      else if negb (isxdigit c0) then
        if cnt =? 0 then (PARSE_ERROR, buf) else (cnt, buf)
      else
        match s1 with
        | [] => (PARSE_ERROR, buf)
        | c1 :: s2 =>
            if negb (isxdigit c1) then (PARSE_ERROR, buf)
            else
              match parse_nibble c0, parse_nibble c1 with
              | Some high, Some low =>
                  parse_payload_loop s2
                    (store_byte buf cnt (Z.lor (Z.shiftl high 4) low))
                    (cnt + 1) max
              | _, _ => (PARSE_ERROR, buf)
              end
        end
  end.

Definition parse_payload (s : cstring) (buf : list Z) (max : Z)
    : Z * list Z :=
  if max <=? 0 then (PARSE_INVALID_ARG, buf)
  else parse_payload_loop s buf 0 max.

(** *** [strtoul(str, &end, 16)]

    The C library function, for base 16 and a 32-bit [unsigned long]
    (the targets of this code are ILP32): leading white space, an optional
    sign, an optional [0x]/[0X] before a hex digit, then the longest run
    of hex digits.  The result is the value and [end - str]; with no digit
    at all the value is 0 and [end = str].  A value that does not fit
    saturates at [ULONG_MAX]; a minus sign negates in the unsigned type. *)
Definition ULONG_MAX : Z := 2 ^ 32 - 1.

Definition digit_value (c : ascii) : option Z :=
  if (code "0" <=? code c) && (code c <=? code "9") then Some (code c - code "0")
  else if (code "A" <=? code c) && (code c <=? code "F") then Some (code c - code "A" + 10)
  else if (code "a" <=? code c) && (code c <=? code "f") then Some (code c - code "a" + 10)
  else None.

Fixpoint skip_space (s : cstring) (n : nat) : cstring * nat :=
  match s with
  | c :: s' => if isspace c then skip_space s' (S n) else (s, n)
  | [] => (s, n)
  end.

Fixpoint strtoul_digits (s : cstring) (acc : Z) (ovf : bool) (n : nat)
    : Z * bool * nat :=
  match s with
  | c :: s' =>
      match digit_value c with
      | Some d =>
          if ovf || (ULONG_MAX <? acc * 16 + d)
          then strtoul_digits s' ULONG_MAX true (S n)
          else strtoul_digits s' (acc * 16 + d) false (S n)
      | None => (acc, ovf, n)
      end
  | [] => (acc, ovf, n)
  end.

Definition strtoul16 (str : cstring) : Z * nat :=
  let '(s1, nsp) := skip_space str 0 in
  let '(neg, s2, nsg) :=
    match s1 with
    | c :: t => if Ascii.eqb c "-" then (true, t, 1%nat)
                else if Ascii.eqb c "+" then (false, t, 1%nat)
                else (false, s1, 0%nat)
    | [] => (false, s1, 0%nat)
    end in
  let '(s3, npre) :=
    match s2 with
    | z :: x :: h :: t =>
        if Ascii.eqb z "0" && (Ascii.eqb x "x" || Ascii.eqb x "X") && isxdigit h
        then (h :: t, 2%nat) else (s2, 0%nat)
    | _ => (s2, 0%nat)
    end in
  let '(acc, ovf, nd) := strtoul_digits s3 0 false 0 in
  if (nd =? 0)%nat then (0, 0%nat)
  else ((if ovf then ULONG_MAX else if neg then (- acc) mod 2 ^ 32 else acc),
        (nsp + nsg + npre + nd)%nat).

(** [parse_hex_id(str, len, &out, &is_ext)]: [str] is the text from the
    pointer to the end of the string (strtoul is not told [len]). *)
Definition parse_hex_id (str : cstring) (len : Z) (out : Z) (is_ext : bool)
    : Z * Z * bool :=
  if (len =? 0) || (TWAI_EXT_ID_CHAR_LEN <? len) then
    (PARSE_INVALID_ARG, out, is_ext)
  else
    let '(val, consumed) := strtoul16 str in
    if negb (Z.of_nat consumed =? len) then (PARSE_ERROR, out, is_ext)
    else
      let is_ext' := TWAI_STD_ID_CHAR_LEN <? len in
      if is_ext' && (TWAI_EXT_ID_MASK <? val) then
        (PARSE_OUT_OF_RANGE, out, is_ext')
      else if negb is_ext' && (TWAI_STD_ID_MASK <? val) then
        (PARSE_OUT_OF_RANGE, out, is_ext')
      else (PARSE_OK, val mod 2 ^ 32, is_ext').

Definition parse_twai_id (str : cstring) (len : Z) (f : twai_frame_t)
    : Z * twai_frame_t :=
  let '(res, id', is_ext) := parse_hex_id str len 0 false in
  if negb (res =? PARSE_OK) then (res, f)
  else (PARSE_OK, with_header (fun h => set_ide is_ext (set_id id' h)) f).

(** The first character of a string, the terminator when it is empty. *)
Definition peek (s : cstring) : ascii := hd NUL s.

(** The [_dlc] scan of [parse_classic_frame]: steps [p] over [dl] hex
    pairs and yields the text at the final [p]. *)
Fixpoint skip_pairs (p : cstring) (seen dl : Z) : cstring :=
  match p with
  | [] => p
  | c0 :: p1 =>
      if negb (seen <? dl) then p
      else if Ascii.eqb c0 "." then skip_pairs p1 seen dl
      else if negb (isxdigit c0) then p
      else
        match p1 with
        | [] => p
        | c1 :: p2 =>
            if negb (isxdigit c1) then p else skip_pairs p2 (seen + 1) dl
        end
  end.

Definition parse_classic_frame (body : cstring) (f : twai_frame_t)
    : Z * twai_frame_t :=
  if Ascii.eqb (peek body) "R" || Ascii.eqb (peek body) "r" then
    let f1 := with_header (set_rtr true) f in
    let body1 := tl body in
    let f2 :=
      if isxdigit (peek body1)
      then with_header (set_dlc (fst (strtoul16 body1) mod 256)) f1
      else with_header (set_dlc Parser.TWAI_RTR_DEFAULT_DLC) f1 in
    (PARSE_OK, with_buffer_len 0 f2)
  else
    let '(dl, buf) := parse_payload body (buffer f) TWAI_MAX_DATA_LEN in
    let f1 := with_buffer buf f in
    if dl <? 0 then (dl, f1)
    else
      let p := skip_pairs body 0 dl in
      let f2 :=
        if Ascii.eqb (peek p) "_" then
          match parse_nibble (peek (tl p)) with
          | Some code' =>
              if TWAI_MAX_DATA_LEN <? code'
              then with_header (set_dlc TWAI_MAX_DATA_LEN) f1
              else with_header (set_dlc (dl mod 256)) f1
          | None => with_header (set_dlc (dl mod 256)) f1
          end
        else with_header (set_dlc (dl mod 256)) f1 in
      (PARSE_OK, with_buffer_len dl f2).

(** Compiled only with [CONFIG_EXAMPLE_ENABLE_TWAI_FD]. *)
Definition parse_twaifd_frame (body : cstring) (f : twai_frame_t)
    : Z * twai_frame_t :=
  match parse_nibble (peek body) with
  | None => (PARSE_OUT_OF_RANGE, f)
  | Some flags =>
      if Parser.TWAI_FD_FLAGS_MAX_VALUE <? flags then (PARSE_OUT_OF_RANGE, f)
      else
        let f1 := with_header (set_fdf true) f in
        let f2 := with_header
          (set_brs (negb (Z.land flags Parser.TWAI_FD_BRS_FLAG_MASK =? 0))) f1 in
        let f3 := with_header
          (set_esi (negb (Z.land flags Parser.TWAI_FD_ESI_FLAG_MASK =? 0))) f2 in
        let '(dl, buf) := parse_payload (tl body) (buffer f3) TWAI_FD_MAX_DATA_LEN in
        let f4 := with_buffer buf f3 in
        if dl <? 0 then (dl, f4)
        else
          (PARSE_OK,
           with_header (set_dlc (twaifd_len2dlc (dl mod 2 ^ 16) mod 256))
             (with_buffer_len dl f4))
  end.

(** [strchr(s, c)], and [memchr] on a text of known length: the offset
    of the first [c], [None] for the NULL of "not found". *)
Fixpoint strchr (s : cstring) (c : ascii) : option nat :=
  match s with
  | [] => None
  | x :: s' => if Ascii.eqb x c then Some 0%nat
               else option_map S (strchr s' c)
  end.

(** The length of the run of [c] at the start of [s]. *)
Fixpoint count_run (s : cstring) (c : ascii) : Z :=
  match s with
  | x :: s' => if Ascii.eqb x c then 1 + count_run s' c else 0
  | [] => 0
  end.

(** [locate_hash] of the header: the offset of the first hash sign and
    the number of consecutive ones there. *)
Definition locate_hash (input : cstring) : Z * option (nat * Z) :=
  match strchr input "#" with
  | None => (PARSE_ERROR, None)
  | Some sep => (PARSE_OK, Some (sep, count_run (drop sep input) "#"))
  end.

(** ** Filter specifications

    The driver's two descriptor types, with the fields the parser sets. *)
Record twai_mask_filter_config_t := mkMask {
  mf_id : Z;
  mf_mask : Z;
  mf_is_ext : bool
}.

Record twai_range_filter_config_t := mkRange {
  range_low : Z;
  range_high : Z;
  rf_is_ext : bool
}.

(** What [parse_filters] reaches through its four pointers: the caller's
    two arrays and its two counters. *)
Record filter_out := mkOut {
  masks : list twai_mask_filter_config_t;
  mask_count : Z;
  ranges : list twai_range_filter_config_t;
  range_count : Z
}.

(** The result of running a function that stores into caller arrays and
    loops: it returns a code and the new state, or it stores outside an
    array (undefined behaviour in C), or the bound this embedding puts on
    its loop is used up. *)
Inductive outcome (A : Type) : Type :=
| Returns (ret : Z) (st : A)
| Overrun
| LoopBound.
Arguments Returns {A} ret st.
Arguments Overrun {A}.
Arguments LoopBound {A}.

(** [arr[i] = v], checked against the extent of the array. *)
Definition array_store {A : Type} (arr : list A) (i : Z) (v : A)
    : option (list A) :=
  if (0 <=? i) && (i <? Z.of_nat (length arr))
  then Some (<[Z.to_nat i := v]> arr) else None.

Section Filters.
(** The two hardware capacities come from the SoC description, which is
    not among the files of the example.  The range-capable build
    ([SOC_TWAI_SUPPORT_FD]) is the one embedded: the dump command uses
    [range_count] unconditionally. *)
Variable SOC_TWAI_MASK_FILTER_NUM : Z.
Variable SOC_TWAI_RANGE_FILTER_NUM : Z.

(** [parse_filter_token(tok, tok_len, ...)]: [tok] is the [tok_len]
    characters of the token.  The [printf] before an out-of-range return
    is not modelled. *)
Definition parse_filter_token (tok : cstring) (o : filter_out)
    : outcome filter_out :=
  match strchr tok ":" with
  | Some sep_pos =>
      let '(r1, a) := parse_hex_segment (take sep_pos tok) 0 in
      if negb (r1 =? PARSE_OK) then Returns PARSE_ERROR o
      else
        let '(r2, b) := parse_hex_segment (drop (S sep_pos) tok) 0 in
        if negb (r2 =? PARSE_OK) then Returns PARSE_ERROR o
        else if SOC_TWAI_MASK_FILTER_NUM <=? mask_count o then
          Returns PARSE_OUT_OF_RANGE o
        else
          match array_store (masks o) (mask_count o) (mkMask a b false) with
          | None => Overrun
          | Some masks' =>
              Returns PARSE_OK
                (mkOut masks' (mask_count o + 1) (ranges o) (range_count o))
          end
  | None =>
      match strchr tok "-" with
      | Some sep_pos =>
          let '(r1, a) := parse_hex_segment (take sep_pos tok) 0 in
          if negb (r1 =? PARSE_OK) then Returns PARSE_ERROR o
          else
            let '(r2, b) := parse_hex_segment (drop (S sep_pos) tok) 0 in
            if negb (r2 =? PARSE_OK) || (b <? a) then Returns PARSE_ERROR o
            else if SOC_TWAI_RANGE_FILTER_NUM <=? range_count o then
              Returns PARSE_OUT_OF_RANGE o
            else
              match array_store (ranges o) (range_count o) (mkRange a b false) with
              | None => Overrun
              | Some ranges' =>
                  Returns PARSE_OK
                    (mkOut (masks o) (mask_count o) ranges' (range_count o + 1))
              end
      | None => Returns PARSE_ERROR o
      end
  end.

(** The [while (start && *start)] loop of [parse_filters].  [start] is
    the text at the pointer, [None] the NULL it is set to after the last
    token; [bound] limits the number of iterations. *)
Fixpoint parse_filters_loop (bound : nat) (start : option cstring)
    (o : filter_out) : outcome filter_out :=
  match start with
  | None | Some [] => Returns PARSE_OK o
  | Some (c :: s') =>
      match bound with
      | O => LoopBound
      | S bound' =>
          let text := c :: s' in
          let comma := strchr text "," in
          let token_len :=
            match comma with Some k => k | None => length text end in
          let next :=
            match comma with
            | Some k => Some (drop (S k) text)
            | None => None
            end in
          if (token_len =? 0)%nat then parse_filters_loop bound' next o
          else
            match parse_filter_token (take token_len text) o with
            | Returns ret o' =>
                if negb (ret =? PARSE_OK) then Returns ret o'
                else parse_filters_loop bound' next o'
            | Overrun => Overrun
            | LoopBound => LoopBound
            end
      end
  end.

Definition parse_filters (filter_str : cstring) (o : filter_out)
    : outcome filter_out :=
  if Parser.MAX_INPUT_LEN <=? Z.of_nat (length filter_str) then
    Returns PARSE_ERROR o
  else
    let o0 := mkOut (masks o) 0 (ranges o) 0 in
    if (length filter_str =? 0)%nat then Returns PARSE_OK o0
    else parse_filters_loop (length filter_str) (Some filter_str) o0.

End Filters.

(** ** The send command: inline frame parser *)

Module Send.

Definition TWAI_STD_DELIMITER_POS : nat := 3.
Definition TWAI_EXT_DELIMITER_POS : nat := 8.
Definition TWAI_STD_DATA_START_POS : nat := 4.
Definition TWAI_EXT_DATA_START_POS : nat := 9.
Definition TWAI_MIN_FRAME_LEN : Z := 5.
Definition TWAI_RTR_DEFAULT_DLC : Z := 0.
Definition HEX_NIBBLE_MASK : Z := 0x0F.
Definition HEX_NIBBLE_SHIFT : Z := 4.
Definition TWAI_FD_FLAGS_MAX_VALUE : Z := 3.
Definition TWAI_FD_BRS_FLAG_MASK : Z := 1.
Definition TWAI_FD_ESI_FLAG_MASK : Z := 2.

Definition asc2nibble (c : ascii) : Z :=
  if (code "0" <=? code c) && (code c <=? code "9") then
    (code c - code "0") mod 256
  else if (code "A" <=? code c) && (code c <=? code "F") then
    (code c - code "A" + 10) mod 256
  else if (code "a" <=? code c) && (code c <=? code "f") then
    (code c - code "a" + 10) mod 256
  else 0xFF.

(** [parse_frame] returns a [bool]; what tells its failures apart is the
    message it logs before [return false]. *)
Inductive failure : Type :=
| InvalidFrameFormat      (* "Invalid frame format" *)
| InvalidIdCharacter      (* "Invalid ID character" *)
| ExtendedIdOutOfRange    (* "Extended ID out of range" *)
| StandardIdOutOfRange    (* "Standard ID out of range" *)
| BadFdFlags              (* "Missing or invalid FD flags" *)
| FdFlagsValue            (* "Invalid FD flags value" *)
| FdNotSupported          (* "TWAI-FD frames not supported in this build" *)
| InvalidHexCharacter     (* "Invalid hex character" *)
| DataTooLong.            (* "Data too long" *)

Inductive verdict : Type :=
| ReturnTrue
| ReturnFalse (why : failure).

Definition succeeded (v : verdict) : bool :=
  match v with ReturnTrue => true | ReturnFalse _ => false end.

Section Build.
(** The build option that enables flexible-rate frames, and the bytes
    that lie in memory behind the terminator of the argument string:
    with a length of 5 to 7 the test of [frame_str[8]] reads there. *)
Variable CONFIG_EXAMPLE_ENABLE_TWAI_FD : bool.
Variable beyond : nat -> ascii.

Definition MAX_FRAME_DATA_LEN : Z :=
  if CONFIG_EXAMPLE_ENABLE_TWAI_FD then TWAIFD_FRAME_MAX_LEN
  else TWAI_FRAME_MAX_LEN.

Definition char_at (frame_str : cstring) (i : nat) : ascii :=
  match frame_str !! i with
  | Some c => c
  | None => if (i =? length frame_str)%nat then NUL
            else beyond (i - length frame_str - 1)%nat
  end.

(** The two identifier loops: [n] digits left, [i] the loop variable,
    [last] the index of the last digit (2 or 7).  The loops or the
    digits into [header.id] as they go; [false] is the return on an
    invalid character. *)
Fixpoint parse_id_loop (frame_str : cstring) (n i : nat) (last : Z) (idv : Z)
    : bool * Z :=
  match n with
  | O => (true, idv)
  | S n' =>
      let tmp := asc2nibble (char_at frame_str i) in
      if HEX_NIBBLE_MASK <? tmp then (false, idv)
      else parse_id_loop frame_str n' (S i) last
             (Z.lor idv
                ((Z.shiftl tmp ((last - Z.of_nat i) * HEX_NIBBLE_SHIFT))
                   mod 2 ^ 32))
  end.

(** The data loop; [rest] is the text from [idx] to the end, so
    [idx < len] reads "[rest] is not empty".  Result: a failure if the
    loop returned false, the text at the final [idx], the buffer and
    [dlen]. *)
Fixpoint data_loop (rest : cstring) (buf : list Z) (dlen max_data_len : Z)
    : option failure * cstring * list Z * Z :=
  match rest with
  | [] => (None, rest, buf, dlen)
  | c0 :: r1 =>
      if negb (dlen <? max_data_len) then (None, rest, buf, dlen)
      else if Ascii.eqb c0 "." then data_loop r1 buf dlen max_data_len
      else
        match r1 with
        | [] => (None, rest, buf, dlen)
        | c1 :: r2 =>
            let hi := asc2nibble c0 in
            if 0x0F <? hi then (Some InvalidHexCharacter, rest, buf, dlen)
            else
              let buf1 := store_byte buf dlen (Z.shiftl hi 4) in
              let lo := asc2nibble c1 in
              if 0x0F <? lo then (Some InvalidHexCharacter, r1, buf1, dlen)
              else
                let buf2 :=
                  store_byte buf1 dlen
                    (Z.lor (nth (Z.to_nat dlen) buf1 0) lo) in
                data_loop r2 buf2 (dlen + 1) max_data_len
        end
  end.

(** The count of the remaining hex characters after the data loop. *)
Definition remaining_chars (rest : cstring) : Z :=
  Z.of_nat (length (List.filter
    (fun c => negb (Ascii.eqb c ".") && negb (Ascii.eqb c "_") && isxdigit c)
    rest)).

Definition parse_frame (frame_str : cstring) (frame : twai_frame_t)
    : verdict * twai_frame_t :=
  let len := Z.of_nat (length frame_str) in
  if len <? TWAI_MIN_FRAME_LEN then (ReturnFalse InvalidFrameFormat, frame)
  else
    let frame0 := with_header (fun _ => header_zero) frame in
    (* Parse CAN ID *)
    let id_stage : option failure * nat * twai_frame_t :=
      if Ascii.eqb (char_at frame_str TWAI_STD_DELIMITER_POS) "#" then
        let '(ok, v) := parse_id_loop frame_str 3 0 2 0 in
        let frame1 := with_header (set_id v) frame0 in
        if ok then
          (None, TWAI_STD_DATA_START_POS, with_header (set_ide false) frame1)
        else (Some InvalidIdCharacter, TWAI_STD_DATA_START_POS, frame1)
      else if Ascii.eqb (char_at frame_str TWAI_EXT_DELIMITER_POS) "#" then
        let '(ok, v) := parse_id_loop frame_str 8 0 7 0 in
        let frame1 := with_header (set_id v) frame0 in
        if ok then
          let frame2 := with_header (set_ide true) frame1 in
          if TWAI_EXT_ID_MASK <? v
          then (Some ExtendedIdOutOfRange, TWAI_EXT_DATA_START_POS, frame2)
          else (None, TWAI_EXT_DATA_START_POS, frame2)
        else (Some InvalidIdCharacter, TWAI_EXT_DATA_START_POS, frame1)
      else (Some InvalidFrameFormat, 0%nat, frame0) in
    match id_stage with
    | (Some why, _, frame1) => (ReturnFalse why, frame1)
    | (None, idx, frame1) =>
        if negb (ide (header frame1)) && (TWAI_STD_ID_MASK <? id (header frame1))
        then (ReturnFalse StandardIdOutOfRange, frame1)
        else
          let rest := drop idx frame_str in
          (* Handle RTR frames *)
          if Ascii.eqb (peek rest) "R" || Ascii.eqb (peek rest) "r" then
            let frame2 := with_header (set_rtr true) frame1 in
            let c := peek (tl rest) in
            let frame3 :=
              if negb (Ascii.eqb c NUL) && (asc2nibble c <=? TWAI_FRAME_MAX_LEN)
              then with_header (set_dlc (asc2nibble c)) frame2
              else with_header (set_dlc TWAI_RTR_DEFAULT_DLC) frame2 in
            (ReturnTrue, with_buffer_len 0 frame3)
          else
            (* Handle TWAI-FD frames *)
            let fd_stage : failure + (bool * cstring * twai_frame_t) :=
              if Ascii.eqb (peek rest) "#" then
                if CONFIG_EXAMPLE_ENABLE_TWAI_FD then
                  let c := peek (tl rest) in
                  let tmp := asc2nibble c in
                  if Ascii.eqb c NUL || (HEX_NIBBLE_MASK <? tmp) then inl BadFdFlags
                  else if TWAI_FD_FLAGS_MAX_VALUE <? tmp then inl FdFlagsValue
                  else
                    inr (true, tl (tl rest),
                         with_header
                           (fun h =>
                              set_esi (negb (Z.land tmp TWAI_FD_ESI_FLAG_MASK =? 0))
                                (set_brs (negb (Z.land tmp TWAI_FD_BRS_FLAG_MASK =? 0))
                                   (set_fdf true h)))
                           frame1)
                else inl FdNotSupported
              else inr (false, rest, frame1) in
            match fd_stage with
            | inl why => (ReturnFalse why, frame1)
            | inr (is_fd_frame, rest1, frame2) =>
                let max_data_len :=
                  if is_fd_frame then MAX_FRAME_DATA_LEN else TWAI_FRAME_MAX_LEN in
                let '(err, rest2, buf, dlen) :=
                  data_loop rest1 (buffer frame2) 0 max_data_len in
                let frame3 := with_buffer buf frame2 in
                match err with
                | Some why => (ReturnFalse why, frame3)
                | None =>
                    if negb (Nat.eqb (length rest2) 0)
                       && negb (Ascii.eqb (peek rest2) "_")
                       && (0 <? remaining_chars rest2)
                    then (ReturnFalse DataTooLong, frame3)
                    else
                      let frame4 :=
                        if (max_data_len =? TWAI_FRAME_MAX_LEN)
                           && (dlen =? TWAI_FRAME_MAX_LEN)
                           && negb (Nat.eqb (length rest2) 0)
                           && Ascii.eqb (peek rest2) "_"
                        then
                          let rest3 := tl rest2 in
                          let tmp := asc2nibble (peek rest3) in
                          if negb (Nat.eqb (length rest3) 0)
                             && (tmp <=? TWAIFD_FRAME_MAX_LEN)
                          then
                            if (TWAI_FRAME_MAX_LEN <? tmp)
                               && (tmp <=? TWAIFD_FRAME_MAX_LEN)
                            then with_header (set_dlc TWAI_FRAME_MAX_LEN) frame3
                            else with_header (set_dlc dlen) frame3
                          else with_header (set_dlc dlen) frame3
                        else with_header (set_dlc dlen) frame3 in
                      (ReturnTrue, with_buffer_len dlen frame4)
                end
            end
    end.

End Build.

(** [twai_send_handler]: [twai_frame_t frame = {0}] over a zeroed
    [data_buffer[TWAI_FRAME_BUFFER_SIZE]]. *)
Definition fresh_frame (size : Z) : twai_frame_t :=
  mkFrame header_zero (replicate (Z.to_nat size) 0) 0.

End Send.

(** ** Controller state

    [esp_err_t] with the codes these commands return by name; any other
    code a driver call may hand back keeps its number. *)
Inductive esp_err_t : Type :=
| ESP_OK
| ESP_FAIL
| ESP_ERR_NO_MEM
| ESP_ERR_INVALID_ARG
| ESP_ERR_INVALID_STATE
| ESP_ERR_TIMEOUT
| ESP_ERR_DRIVER (code : Z).

Definition is_ok (e : esp_err_t) : bool :=
  match e with ESP_OK => true | _ => false end.

(** Handles of the kernel objects (queue, task); NULL is [None]. *)
Definition handle : Type := Z.

Inductive timestamp_mode_t : Type :=
| TIMESTAMP_MODE_ABSOLUTE     (* 'a' *)
| TIMESTAMP_MODE_DELTA        (* 'd' *)
| TIMESTAMP_MODE_ZERO         (* 'z' *)
| TIMESTAMP_MODE_NONE.        (* 'n' *)

Record twai_send_ctx_t := mkSendCtx {
  is_tx_pending : bool;          (* atomic_bool *)
  tx_done_sem : bool             (* binary semaphore: a give is stored *)
}.

Record twai_dump_ctx_t := mkDumpCtx {
  is_running : bool;             (* atomic_bool *)
  rx_queue : option handle;
  dump_task_handle : option handle;
  timestamp_mode : timestamp_mode_t;
  start_time_us : Z;             (* int64_t *)
  last_frame_time_us : Z;        (* int64_t *)
  mask_filter_configs : list twai_mask_filter_config_t;
  range_filter_configs : list twai_range_filter_config_t
}.

Record twai_controller_ctx_t := mkController {
  is_initialized : bool;         (* core_ctx.is_initialized *)
  send_ctx : twai_send_ctx_t;
  dump_ctx : twai_dump_ctx_t
}.

Definition set_tx_pending (b : bool) (c : twai_controller_ctx_t) :=
  mkController (is_initialized c)
    (mkSendCtx b (tx_done_sem (send_ctx c))) (dump_ctx c).
Definition set_tx_done_sem (b : bool) (c : twai_controller_ctx_t) :=
  mkController (is_initialized c)
    (mkSendCtx (is_tx_pending (send_ctx c)) b) (dump_ctx c).
Definition set_dump_ctx (d : twai_dump_ctx_t) (c : twai_controller_ctx_t) :=
  mkController (is_initialized c) (send_ctx c) d.

Definition set_running (b : bool) (d : twai_dump_ctx_t) :=
  mkDumpCtx b (rx_queue d) (dump_task_handle d) (timestamp_mode d)
    (start_time_us d) (last_frame_time_us d)
    (mask_filter_configs d) (range_filter_configs d).
Definition set_rx_queue (q : option handle) (d : twai_dump_ctx_t) :=
  mkDumpCtx (is_running d) q (dump_task_handle d) (timestamp_mode d)
    (start_time_us d) (last_frame_time_us d)
    (mask_filter_configs d) (range_filter_configs d).
Definition set_task_handle (t : option handle) (d : twai_dump_ctx_t) :=
  mkDumpCtx (is_running d) (rx_queue d) t (timestamp_mode d)
    (start_time_us d) (last_frame_time_us d)
    (mask_filter_configs d) (range_filter_configs d).
Definition set_timestamp_mode (m : timestamp_mode_t) (d : twai_dump_ctx_t) :=
  mkDumpCtx (is_running d) (rx_queue d) (dump_task_handle d) m
    (start_time_us d) (last_frame_time_us d)
    (mask_filter_configs d) (range_filter_configs d).
Definition set_start_time (t : Z) (d : twai_dump_ctx_t) :=
  mkDumpCtx (is_running d) (rx_queue d) (dump_task_handle d) (timestamp_mode d)
    t (last_frame_time_us d)
    (mask_filter_configs d) (range_filter_configs d).
Definition set_last_frame_time (t : Z) (d : twai_dump_ctx_t) :=
  mkDumpCtx (is_running d) (rx_queue d) (dump_task_handle d) (timestamp_mode d)
    (start_time_us d) t
    (mask_filter_configs d) (range_filter_configs d).
Definition set_filter_configs (ms : list twai_mask_filter_config_t)
    (rs : list twai_range_filter_config_t) (d : twai_dump_ctx_t) :=
  mkDumpCtx (is_running d) (rx_queue d) (dump_task_handle d) (timestamp_mode d)
    (start_time_us d) (last_frame_time_us d) ms rs.

(** ** The send command: transmit rendezvous *)

Module Rendezvous.

(** [twai_send_tx_done_cb]: runs in interrupt context.  [waiter] tells
    whether a task is blocked on the semaphore, which is what
    [xHigherPriorityTaskWoken] reports after the give. *)
Definition twai_send_tx_done_cb (waiter : bool) (c : twai_controller_ctx_t)
    : bool * twai_controller_ctx_t :=
  if is_tx_pending (send_ctx c) then
    (waiter, set_tx_done_sem true (set_tx_pending false c))
  else (false, c).

(** [n] transmit-done notifications, one after the other. *)
Fixpoint notify (n : nat) (waiter : bool) (c : twai_controller_ctx_t)
    : twai_controller_ctx_t :=
  match n with
  | O => c
  | S n' => notify n' waiter (snd (twai_send_tx_done_cb waiter c))
  end.

(** What the rest of the system does during one call of
    [send_frame_sync]: the code [twai_node_transmit] returns, and the
    number of transmit-done notifications that arrive while the driver
    call runs, while the task waits on the semaphore, and between the
    expiry of that wait and the clearing of the flag. *)
Record run := mkRun {
  transmit_ret : esp_err_t;
  done_in_transmit : nat;
  done_in_wait : nat;
  done_after_expiry : nat
}.

(** [send_frame_sync(controller, frame, timeout_ms)]. *)
Definition send_frame_sync (r : run) (c : twai_controller_ctx_t)
    : esp_err_t * twai_controller_ctx_t :=
  if negb (is_initialized c) then (ESP_ERR_INVALID_STATE, c)
  else
    (* Mark TX as pending *)
    let c1 := set_tx_pending true c in
    (* Transmit the frame *)
    let c2 := notify (done_in_transmit r) false c1 in
    if negb (is_ok (transmit_ret r)) then
      (transmit_ret r, set_tx_pending false c2)
    else
      (* Wait for TX completion or timeout *)
      if tx_done_sem (send_ctx c2) then (ESP_OK, set_tx_done_sem false c2)
      else
        let c3 := notify (done_in_wait r) true c2 in
        if tx_done_sem (send_ctx c3) then (ESP_OK, set_tx_done_sem false c3)
        else
          let c4 := notify (done_after_expiry r) false c3 in
          (ESP_ERR_TIMEOUT, set_tx_pending false c4).

(** A run in which the driver accepts the frame and no transmit-done
    notification arrives. *)
Definition silent : run := mkRun ESP_OK 0 0 0.

(** A run in which the driver accepts the frame and the notification
    arrives while the task waits. *)
Definition completing : run := mkRun ESP_OK 0 1 0.

End Rendezvous.

(** ** [printf] directives *)

Definition digit_char (d : Z) : ascii :=
  if d <? 10 then chr (code "0" + d) else chr (code "A" + (d - 10)).

(** The digits of [n >= 0] in [base], most significant first; [k] bounds
    their number (20 is enough for every 64-bit value in base 10). *)
Fixpoint digits_of (base : Z) (k : nat) (n : Z) : cstring :=
  match k with
  | O => []
  | S k' =>
      if n <? base then [digit_char n]
      else digits_of base k' (n / base) ++ [digit_char (n mod base)]
  end.

Definition zero_pad (w : nat) (s : cstring) : cstring :=
  replicate (w - length s)%nat "0" ++ s.

(** ["%d"], ["%lld"]. *)
Definition fmt_d (v : Z) : cstring :=
  if v <? 0 then "-" :: digits_of 10 20 (- v) else digits_of 10 20 v.

(** ["%0<w>lld"]: the zeros go between the sign and the digits. *)
Definition fmt_0d (w : nat) (v : Z) : cstring :=
  if v <? 0 then "-" :: zero_pad (w - 1) (digits_of 10 20 (- v))
  else zero_pad w (digits_of 10 20 v).

(** ["%0<w>X"] of an unsigned value. *)
Definition fmt_0X (w : nat) (v : Z) : cstring :=
  zero_pad w (digits_of 16 20 v).

(** [pos += snprintf(out + pos, max_len - pos, "...")]: the text is cut to
    the room left, the return value is its full length.  ([pos] stays
    below [max_len] in every call below.) *)
Definition snprintf_at (out : cstring) (pos max_len : Z) (text : cstring)
    : cstring * Z :=
  (take (Z.to_nat pos) out ++ take (Z.to_nat (max_len - pos - 1)) text,
   pos + Z.of_nat (length text)).

(** Wrap-around of a 64-bit signed result. *)
Definition int64 (z : Z) : Z := (z + 2 ^ 63) mod 2 ^ 64 - 2 ^ 63.

(** ** [cmd_twai_dump.c] *)

Module Dump.

Definition DUMP_OUTPUT_LINE_SIZE : Z := 512.

Record rx_queue_item_t := mkItem {
  item_header : twai_frame_header_t;
  data : list Z;               (* uint8_t data[TWAI_FRAME_BUFFER_SIZE] *)
  data_len : Z;
  timestamp_us : Z             (* int64_t *)
}.

(** The text ["(%lld.%06lld) "] of a time in microseconds, in the
    64-byte [timestamp_str]. *)
Definition timestamp_text (t_us : Z) : cstring :=
  take 63 (cs "(" ++ fmt_d (Z.quot t_us 1000000) ++ cs "."
             ++ fmt_0d 6 (Z.rem t_us 1000000) ++ cs ") ").

(** [format_timestamp]: the string left in [timestamp_str] and the
    context after the call. *)
Definition format_timestamp (dump_ctx : twai_dump_ctx_t) (frame_timestamp : Z)
    : cstring * twai_dump_ctx_t :=
  match timestamp_mode dump_ctx with
  | TIMESTAMP_MODE_NONE => ([], dump_ctx)
  | TIMESTAMP_MODE_ABSOLUTE => (timestamp_text frame_timestamp, dump_ctx)
  | TIMESTAMP_MODE_DELTA =>
      (timestamp_text (int64 (frame_timestamp - last_frame_time_us dump_ctx)),
       set_last_frame_time frame_timestamp dump_ctx)
  | TIMESTAMP_MODE_ZERO =>
      (timestamp_text (int64 (frame_timestamp - start_time_us dump_ctx)),
       dump_ctx)
  end.

Section Build.
Variable CONFIG_EXAMPLE_ENABLE_TWAI_FD : bool.

(** The three fields of a dump line that carry the frame. *)
Definition id_field (item : rx_queue_item_t) : cstring :=
  if ide (item_header item) then fmt_0X 8 (id (item_header item))
  else fmt_0X 3 (id (item_header item)).

Definition actual_len (item : rx_queue_item_t) : Z :=
  if CONFIG_EXAMPLE_ENABLE_TWAI_FD && fdf (item_header item)
  then twaifd_dlc2len (dlc (item_header item))
  else dlc (item_header item).

Definition length_field (item : rx_queue_item_t) : cstring :=
  if rtr (item_header item)
  then cs "[R" ++ fmt_d (dlc (item_header item)) ++ cs "]"
  else cs "[" ++ fmt_d (actual_len item) ++ cs "]".

Definition byte_field (item : rx_queue_item_t) (i : Z) : cstring :=
  fmt_0X 2 (nth (Z.to_nat i) (data item) 0).

(** The [for] loop over the data bytes: [n] iterations left. *)
Fixpoint bytes_loop (item : rx_queue_item_t) (n : nat) (i : Z)
    (out : cstring) (pos max_len : Z) : cstring * Z :=
  match n with
  | O => (out, pos)
  | S n' =>
      if pos <? max_len - 4 then
        let '(out', pos') :=
          snprintf_at out pos max_len (cs "  " ++ byte_field item i) in
        bytes_loop item n' (i + 1) out' pos' max_len
      else (out, pos)
  end.

(** [format_twaidump_frame]: the line left in [output_line] and the
    context after the call. *)
Definition format_twaidump_frame (dump_ctx : twai_dump_ctx_t)
    (item : rx_queue_item_t) (controller_id : Z) (max_len : Z)
    : cstring * twai_dump_ctx_t :=
  let '(timestamp_str, dump_ctx') :=
    format_timestamp dump_ctx (timestamp_us item) in
  let '(out, pos) :=
    if (0 <? length timestamp_str)%nat
    then snprintf_at [] 0 max_len timestamp_str else ([], 0) in
  let '(out, pos) :=
    snprintf_at out pos max_len (cs "twai" ++ fmt_d controller_id ++ cs "  ") in
  let '(out, pos) :=
    snprintf_at out pos max_len (id_field item ++ cs "  ") in
  let '(out, pos) :=
    if rtr (item_header item) then
      snprintf_at out pos max_len (length_field item)
    else
      let '(out, pos) := snprintf_at out pos max_len (length_field item) in
      bytes_loop item (Z.to_nat (actual_len item)) 0 out pos max_len in
  let '(out, pos) :=
    if pos <? max_len - 1
    then snprintf_at out pos max_len [chr 10] else (out, pos) in
  (out, dump_ctx').

End Build.

(** *** Starting the capture pipeline

    The effects of [twai_dump_start_controller] on the world outside the
    context, in program order. *)
Inductive action : Type :=
| XQueueCreate
| StoreIsRunning (b : bool)
| XTaskCreate
| VQueueDelete.

(** Computations over the dump context that log their actions. *)
Definition M (A : Type) : Type :=
  twai_dump_ctx_t -> A * twai_dump_ctx_t * list action.

Definition ret {A} (a : A) : M A := fun d => (a, d, []).
Definition bind {A B} (m : M A) (k : A -> M B) : M B :=
  fun d => let '(a, d1, t1) := m d in
           let '(b, d2, t2) := k a d1 in (b, d2, t1 ++ t2).
Definition get {A} (proj : twai_dump_ctx_t -> A) : M A :=
  fun d => (proj d, d, []).
Definition modify (g : twai_dump_ctx_t -> twai_dump_ctx_t) : M unit :=
  fun d => (tt, g d, []).
Definition emit (a : action) : M unit := fun d => (tt, d, [a]).

Notation "'do' x <- m ; k" := (bind m (fun x => k))
  (at level 10, x name, m at level 100, k at level 200, only parsing).
Notation "'exec' m ; k" := (bind m (fun _ => k))
  (at level 10, m at level 100, k at level 200, only parsing).

Section Kernel.
(** What the kernel answers: the queue handle of [xQueueCreate] and the
    task handle of [xTaskCreate], [None] when the allocation fails. *)
Variable queue_alloc : option handle.
Variable task_alloc : option handle.

Definition twai_dump_start_controller : M esp_err_t :=
  do running <- get is_running ;
  if running then ret ESP_OK
  else
    (* Create frame queue *)
    exec emit XQueueCreate ;
    exec modify (set_rx_queue queue_alloc) ;
    match queue_alloc with
    | None => ret ESP_ERR_NO_MEM
    | Some _ =>
        (* Set running flag before creating task *)
        exec emit (StoreIsRunning true) ;
        exec modify (set_running true) ;
        (* Create dump task *)
        exec emit XTaskCreate ;
        match task_alloc with
        | Some t =>
            exec modify (set_task_handle (Some t)) ;
            ret ESP_OK
        | None =>
            exec emit (StoreIsRunning false) ;
            exec modify (set_running false) ;
            exec emit VQueueDelete ;
            exec modify (set_rx_queue None) ;
            ret ESP_ERR_NO_MEM
        end
    end.
End Kernel.

(** [twai_dump_init_controller]: the state the module starts in. *)
Definition twai_dump_init_controller (d : twai_dump_ctx_t) : twai_dump_ctx_t :=
  set_task_handle None (set_rx_queue None (set_running false d)).

(** *** The start branch of [twai_dump_handler]

    From the clearing of the filter configurations on: the argument
    table has been parsed, [--stop] is absent and the controller has
    been found.  [filter_str] is the text behind the controller name,
    [timestamp_arg] the first character of the [-t] option if given. *)
Inductive driver_call : Type :=
| TwaiNodeDisable
| TwaiNodeConfigMaskFilter (slot : Z) (cfg : twai_mask_filter_config_t)
| TwaiNodeConfigRangeFilter (slot : Z) (cfg : twai_range_filter_config_t)
| TwaiNodeEnable.

(** The handler returns parser codes and [esp_err_t] codes through the
    same [int]; [NoReturn] stands for a filter parse that did not
    return. *)
Inductive handler_ret : Type :=
| ReturnParse (code : Z)
| ReturnEsp (e : esp_err_t)
| NoReturn.

Section Handler.
Variable SOC_TWAI_MASK_FILTER_NUM : Z.
Variable SOC_TWAI_RANGE_FILTER_NUM : Z.
(** The answers of the driver, of the kernel and of the timer. *)
Variable driver : driver_call -> esp_err_t.
Variable queue_alloc : option handle.
Variable task_alloc : option handle.
Variable current_time : Z.

Definition zero_mask : twai_mask_filter_config_t := mkMask 0 0 false.
Definition zero_range : twai_range_filter_config_t := mkRange 0 0 false.

(** [for (i = 0; i < mask_count; i++)]: the failing code if a call
    fails, and the calls made. *)
Fixpoint config_mask_filters (cfgs : list twai_mask_filter_config_t)
    (n : nat) (i : Z) : option esp_err_t * list driver_call :=
  match n with
  | O => (None, [])
  | S n' =>
      let call := TwaiNodeConfigMaskFilter i (nth (Z.to_nat i) cfgs zero_mask) in
      if negb (is_ok (driver call)) then (Some (driver call), [call])
      else
        let '(e, calls) := config_mask_filters cfgs n' (i + 1) in
        (e, call :: calls)
  end.

Fixpoint config_range_filters (cfgs : list twai_range_filter_config_t)
    (mask_count : Z) (n : nat) (i : Z) : option esp_err_t * list driver_call :=
  match n with
  | O => (None, [])
  | S n' =>
      let call := TwaiNodeConfigRangeFilter i (nth (Z.to_nat i) cfgs zero_range) in
      if negb (is_ok (driver call)) then (Some (driver call), [call])
      else if mask_count =? 0 then
        let dflt :=
          TwaiNodeConfigMaskFilter 0 (mkMask 0xFFFFFFFF 0xFFFFFFFF false) in
        if negb (is_ok (driver dflt)) then (Some (driver dflt), [call; dflt])
        else
          let '(e, calls) := config_range_filters cfgs mask_count n' (i + 1) in
          (e, call :: dflt :: calls)
      else
        let '(e, calls) := config_range_filters cfgs mask_count n' (i + 1) in
        (e, call :: calls)
  end.

(** The block under [if (mask_count > 0 || range_count > 0)]. *)
Definition configure_filters (d : twai_dump_ctx_t) (mask_count range_count : Z)
    : option esp_err_t * list driver_call :=
  if (0 <? mask_count) || (0 <? range_count) then
    if negb (is_ok (driver TwaiNodeDisable))
    then (Some (driver TwaiNodeDisable), [TwaiNodeDisable])
    else
      let '(e1, t1) :=
        config_mask_filters (mask_filter_configs d) (Z.to_nat mask_count) 0 in
      match e1 with
      | Some e => (Some e, TwaiNodeDisable :: t1)
      | None =>
          let '(e2, t2) :=
            config_range_filters (range_filter_configs d) mask_count
              (Z.to_nat range_count) 0 in
          match e2 with
          | Some e => (Some e, TwaiNodeDisable :: t1 ++ t2)
          | None =>
              if negb (is_ok (driver TwaiNodeEnable))
              then (Some (driver TwaiNodeEnable),
                    TwaiNodeDisable :: t1 ++ t2 ++ [TwaiNodeEnable])
              else (None, TwaiNodeDisable :: t1 ++ t2 ++ [TwaiNodeEnable])
          end
      end
  else (None, []).

Definition parse_timestamp_mode (c : ascii) : option timestamp_mode_t :=
  if Ascii.eqb c "a" then Some TIMESTAMP_MODE_ABSOLUTE
  else if Ascii.eqb c "d" then Some TIMESTAMP_MODE_DELTA
  else if Ascii.eqb c "z" then Some TIMESTAMP_MODE_ZERO
  else if Ascii.eqb c "n" then Some TIMESTAMP_MODE_NONE
  else None.

Definition twai_dump_handler (filter_str : cstring)
    (timestamp_arg : option ascii) (c : twai_controller_ctx_t)
    : handler_ret * twai_controller_ctx_t * list driver_call * list action :=
  let d0 := dump_ctx c in
  (* Clear filter configs first *)
  let zm := map (fun _ => zero_mask) (mask_filter_configs d0) in
  let zr := map (fun _ => zero_range) (range_filter_configs d0) in
  (* Parse twai's filters *)
  match parse_filters SOC_TWAI_MASK_FILTER_NUM SOC_TWAI_RANGE_FILTER_NUM
          filter_str (mkOut zm 0 zr 0) with
  | Overrun | LoopBound => (NoReturn, c, [], [])
  | Returns ret o =>
      let d1 := set_filter_configs (masks o) (ranges o) d0 in
      if negb (ret =? PARSE_OK) then (ReturnParse ret, set_dump_ctx d1 c, [], [])
      else if negb (is_initialized c) then
        (ReturnEsp ESP_ERR_INVALID_STATE, set_dump_ctx d1 c, [], [])
      else
        (* Configure filters *)
        let '(e, calls) := configure_filters d1 (mask_count o) (range_count o) in
        match e with
        | Some err => (ReturnEsp err, set_dump_ctx d1 c, calls, [])
        | None =>
            (* Parse timestamp mode *)
            let d2 := set_timestamp_mode TIMESTAMP_MODE_NONE d1 in
            let mode :=
              match timestamp_arg with
              | None => Some TIMESTAMP_MODE_NONE
              | Some ch => parse_timestamp_mode ch
              end in
            match mode with
            | None => (ReturnEsp ESP_ERR_INVALID_ARG, set_dump_ctx d2 c, calls, [])
            | Some m =>
                let d3 := set_timestamp_mode m d2 in
                (* Initialize timestamp base time *)
                let d4 := set_last_frame_time current_time
                            (set_start_time current_time d3) in
                (* Start dump task and create resources *)
                let '(r, d5, acts) :=
                  twai_dump_start_controller queue_alloc task_alloc d4 in
                (ReturnEsp r, set_dump_ctx d5 c, calls, acts)
            end
        end
  end.

End Handler.

End Dump.

(** ** Definitions the statements below refer to *)

(** *** Reading a dump line back

    The dump line carries a frame in three fields: the identifier digits,
    the bracket with [R] and the code or with the length, and the hex
    bytes.  In the syntax of the send command the same fields read
    [<id>#R<code>] or [<id>#<hex bytes>]. *)
Section Relay.
Variable CONFIG_EXAMPLE_ENABLE_TWAI_FD : bool.

Definition relay_body (item : Dump.rx_queue_item_t) : cstring :=
  if rtr (Dump.item_header item)
  then cs "R" ++ fmt_d (dlc (Dump.item_header item))
  else concat (map (Dump.byte_field item)
                 (seqZ 0 (Dump.actual_len CONFIG_EXAMPLE_ENABLE_TWAI_FD item))).

Definition relay_text (item : Dump.rx_queue_item_t) : cstring :=
  Dump.id_field item ++ cs "#" ++ relay_body item.

(** The dedicated decoder on the relayed fields: [parse_twai_id] on the
    identifier digits, [parse_classic_frame] on the body. *)
Definition decode_relayed (item : Dump.rx_queue_item_t) (f : twai_frame_t)
    : Z * twai_frame_t :=
  let '(res, f1) :=
    parse_twai_id (relay_text item)
      (Z.of_nat (length (Dump.id_field item))) f in
  if negb (res =? PARSE_OK) then (res, f1)
  else parse_classic_frame (relay_body item) f1.

(** The data part of a dump line as the [for] loop writes it. *)
Definition data_fields (item : Dump.rx_queue_item_t) : cstring :=
  concat (map (fun i => cs "  " ++ Dump.byte_field item i)
            (seqZ 0 (Dump.actual_len CONFIG_EXAMPLE_ENABLE_TWAI_FD item))).
End Relay.

(** The payload of a captured item. *)
Definition item_payload (item : Dump.rx_queue_item_t) : list Z :=
  take (Z.to_nat (Dump.data_len item)) (Dump.data item).

(** A frame record that keeps the invariants of the data model, with at
    most eight payload bytes and, on a data frame, the data-length code
    equal to the payload length. *)
Definition short_record (item : Dump.rx_queue_item_t) : Prop :=
  let h := Dump.item_header item in
  0 <= id h <= (if ide h then TWAI_EXT_ID_MASK else TWAI_STD_ID_MASK) /\
  0 <= Dump.data_len item <= TWAI_FRAME_MAX_LEN /\
  (rtr h = true -> Dump.data_len item = 0) /\
  (rtr h = false -> dlc h = Dump.data_len item) /\
  Dump.data_len item <= Z.of_nat (length (Dump.data item)) /\
  Forall (fun b => 0 <= b < 256) (Dump.data item).

(** A classic record under the legacy exception (code 8 over three
    bytes), as [parse_classic_frame] yields for [AABBCC_9]. *)
Definition legacy_item : Dump.rx_queue_item_t :=
  Dump.mkItem (mkHeader 0x123 8 false false false false false)
    [0xAA; 0xBB; 0xCC; 0; 0; 0; 0; 0] 3 0.

(** A flexible-rate record with twelve payload bytes (code 9). *)
Definition flexible_item : Dump.rx_queue_item_t :=
  Dump.mkItem (mkHeader 0x123 9 false false true false false)
    (seqZ 1 12 ++ replicate 52 0) 12 0.

(** A short record, here a flexible-rate one with both flags set. *)
Definition sample_item : Dump.rx_queue_item_t :=
  Dump.mkItem (mkHeader 0x123 3 false false true true true)
    [0xAA; 0xBB; 0xCC; 0; 0; 0; 0; 0] 3 1234567.

(** The value of a string of digits in a radix, [dv] giving the value
    of a digit; for hex and for decimal digits. *)
Definition radix_value (dv : ascii -> Z) (base : Z) (s : cstring) : Z :=
  fold_left (fun acc c => acc * base + dv c) s 0.

Definition hex_value (s : cstring) : Z :=
  radix_value (fun c => default 0 (digit_value c)) 16 s.

Definition is_decimal (c : ascii) : bool :=
  (code "0" <=? code c) && (code c <=? code "9").

Definition dec_value (s : cstring) : Z :=
  radix_value (fun c => code c - code "0") 10 s.


(** *** The filter grammar in the words of the specification

    Split on [,], skip empty tokens, parse the tokens in order and stop
    at the first error. *)
Fixpoint split_commas (s : cstring) : list cstring :=
  match s with
  | [] => [[]]
  | c :: s' =>
      if Ascii.eqb c "," then [] :: split_commas s'
      else match split_commas s' with
           | t :: ts => (c :: t) :: ts
           | [] => [[c]]
           end
  end.

Definition tokens (s : cstring) : list cstring :=
  List.filter (fun t => negb (length t =? 0)%nat) (split_commas s).

(** A token is a mask filter [id:mask] if it contains a colon, else a
    range filter [low-high] with low <= high if it contains a dash, else
    an error; a hex segment has one to eight hex digits. *)
Inductive filter_spec : Type :=
| MaskFilter (id_ mask_ : Z)
| RangeFilter (low_ high_ : Z).

Definition hex_segment (seg : cstring) : option Z :=
  if (1 <=? length seg)%nat && (length seg <=? 8)%nat && forallb isxdigit seg
  then Some (hex_value seg) else None.

Definition classify (tok : cstring) : option filter_spec :=
  match strchr tok ":" with
  | Some k =>
      match hex_segment (take k tok), hex_segment (drop (S k) tok) with
      | Some a, Some b => Some (MaskFilter a b)
      | _, _ => None
      end
  | None =>
      match strchr tok "-" with
      | Some k =>
          match hex_segment (take k tok), hex_segment (drop (S k) tok) with
          | Some a, Some b => if a <=? b then Some (RangeFilter a b) else None
          | _, _ => None
          end
      | None => None
      end
  end.

(** Adding a filter to its list, refused when the list is at the
    hardware capacity. *)
Definition add_filter (mask_num range_num : Z) (sp : option filter_spec)
    (o : filter_out) : Z * filter_out :=
  match sp with
  | None => (PARSE_ERROR, o)
  | Some (MaskFilter a b) =>
      if mask_num <=? mask_count o then (PARSE_OUT_OF_RANGE, o)
      else (PARSE_OK,
            mkOut (<[Z.to_nat (mask_count o) := mkMask a b false]> (masks o))
                  (mask_count o + 1) (ranges o) (range_count o))
  | Some (RangeFilter a b) =>
      if range_num <=? range_count o then (PARSE_OUT_OF_RANGE, o)
      else (PARSE_OK,
            mkOut (masks o) (mask_count o)
                  (<[Z.to_nat (range_count o) := mkRange a b false]> (ranges o))
                  (range_count o + 1))
  end.

Fixpoint run_tokens (mask_num range_num : Z) (toks : list cstring)
    (o : filter_out) : Z * filter_out :=
  match toks with
  | [] => (PARSE_OK, o)
  | t :: ts =>
      let '(ret, o') := add_filter mask_num range_num (classify t) o in
      if ret =? PARSE_OK then run_tokens mask_num range_num ts o'
      else (ret, o')
  end.

(** The parse of a whole filter text: too long a text is an error that
    leaves the outputs alone; otherwise both lists start empty. *)
Definition filters_spec (mask_num range_num : Z) (s : cstring) (o : filter_out)
    : Z * filter_out :=
  if Parser.MAX_INPUT_LEN <=? Z.of_nat (length s) then (PARSE_ERROR, o)
  else run_tokens mask_num range_num (tokens s) (mkOut (masks o) 0 (ranges o) 0).

(** The caller's side of [parse_filters] as [twai_dump_handler] sets it
    up: cleared arrays of the hardware capacities, counters at 0. *)
Definition cleared_out (mask_num range_num : Z) : filter_out :=
  mkOut (replicate (Z.to_nat mask_num) (mkMask 0 0 false)) 0
        (replicate (Z.to_nat range_num) (mkRange 0 0 false)) 0.

(** A controller after registration of the commands, started or not. *)
Definition controller_at_rest (initialized : bool) (mask_num range_num : Z)
    : twai_controller_ctx_t :=
  mkController initialized (mkSendCtx false false)
    (mkDumpCtx false None None TIMESTAMP_MODE_NONE 0 0
       (replicate (Z.to_nat mask_num) (mkMask 0 0 false))
       (replicate (Z.to_nat range_num) (mkRange 0 0 false))).

(** The pipeline is idle: not running, no queue, no task. *)
Definition idle (d : twai_dump_ctx_t) : Prop :=
  is_running d = false /\ rx_queue d = None /\ dump_task_handle d = None.

(** *** Invariants of the filter outputs *)

(** The counters are within the capacities and the arrays have room for
    the capacities. *)
Definition within (mask_num range_num : Z) (o : filter_out) : Prop :=
  0 <= mask_count o <= mask_num /\
  0 <= range_count o <= range_num /\
  mask_num <= Z.of_nat (length (masks o)) /\
  range_num <= Z.of_nat (length (ranges o)).

(** From [o] to [o']: the arrays keep their extent, the counters do not
    decrease, and only the entries from the old counter up to the new one
    may differ. *)
Definition grows (o o' : filter_out) : Prop :=
  length (masks o') = length (masks o) /\
  length (ranges o') = length (ranges o) /\
  mask_count o <= mask_count o' /\
  range_count o <= range_count o' /\
  (forall i : nat,
     (Z.of_nat i < mask_count o \/ mask_count o' <= Z.of_nat i) ->
     masks o' !! i = masks o !! i) /\
  (forall i : nat,
     (Z.of_nat i < range_count o \/ range_count o' <= Z.of_nat i) ->
     ranges o' !! i = ranges o !! i).

(** *** Proof steps used more than once *)

(** Replaces the codes of the six characters that bound the hex digits
    by their numbers. *)
Ltac char_codes :=
  change (code "0") with 48 in *; change (code "9") with 57 in *;
  change (code "A") with 65 in *; change (code "F") with 70 in *;
  change (code "a") with 97 in *; change (code "f") with 102 in *.

(** Turns boolean range tests in the hypotheses into inequalities. *)
Ltac split_tests :=
  repeat match goal with
  | H : _ && _ = true |- _ => apply andb_true_iff in H; destruct H
  | H : (_ <=? _) = true |- _ => apply Z.leb_le in H
  end.

(** ** Controller names

    [parse_controller_id] of the header, [parse_controller_string] of
    [twai_utils_parser.c] and [get_controller_by_id] of [cmd_twai.c]. *)

(** [strncmp(a, b, n) == 0]: the first [n] characters agree, or both
    strings end together before that. *)
Fixpoint strncmp_eq (a b : cstring) (n : nat) {struct n} : bool :=
  match n with
  | O => true
  | S n' =>
      match a, b with
      | [], [] => true
      | x :: a', y :: b' => Ascii.eqb x y && strncmp_eq a' b' n'
      | _, _ => false
      end
  end.

Section Controllers.
(** The number of controllers comes from the SoC description. *)
Variable SOC_TWAI_CONTROLLER_NUM : Z.

(** [parse_controller_id(controller_str, &controller_id)]: the text
    behind the controller name ([None] for the NULL return) and the
    caller's [controller_id] after the call. *)
Definition parse_controller_id (controller_str : cstring) (controller_id : Z)
    : option cstring * Z :=
  if strncmp_eq controller_str (cs "twai") 4
     && (5 <=? Z.of_nat (length controller_str)) then
    let id_char := nth 4 controller_str NUL in
    if (code "0" <=? code id_char) && (code id_char <=? code "9")
       && (code id_char <? code "0" + SOC_TWAI_CONTROLLER_NUM)
    then (Some (drop 5 controller_str), code id_char - code "0")
    else (None, controller_id)
  else (None, controller_id).

(** [parse_controller_string]: its local [controller_id] is read only
    after [parse_controller_id] has written it. *)
Definition parse_controller_string (controller_str : cstring) : Z :=
  let '(end_, controller_id) := parse_controller_id controller_str 0 in
  match end_ with
  | Some _ => controller_id
  | None => PARSE_ERROR
  end.

(** [get_controller_by_id]: the entry of [s_twai_controller_ctx], [None]
    for NULL. *)
Definition get_controller_by_id {A : Type} (s_twai_controller_ctx : list A)
    (controller_id : Z) : option A :=
  if (controller_id <? 0) || (SOC_TWAI_CONTROLLER_NUM <=? controller_id)
  then None
  else s_twai_controller_ctx !! Z.to_nat controller_id.

End Controllers.

(** The text of a payload with a dot between the bytes, as in
    [11.22.33]. *)
Fixpoint dotted_hex (bytes : list Z) : cstring :=
  match bytes with
  | [] => []
  | [b] => fmt_0X 2 b
  | b :: bs => fmt_0X 2 b ++ cs "." ++ dotted_hex bs
  end.

(** The bytes of a buffer are bytes. *)
Definition byte_list (l : list Z) : Prop := Forall (fun b => 0 <= b < 256) l.

(** The filters below the two counters are well-formed: 32-bit values
    with [is_ext] clear, and a range with low <= high. *)
Definition stored_filters_ok (o : filter_out) : Prop :=
  (forall (i : nat) m,
     Z.of_nat i < mask_count o -> masks o !! i = Some m ->
     0 <= mf_id m < 2 ^ 32 /\ 0 <= mf_mask m < 2 ^ 32 /\ mf_is_ext m = false) /\
  (forall (i : nat) r,
     Z.of_nat i < range_count o -> ranges o !! i = Some r ->
     0 <= range_low r <= range_high r /\ range_high r < 2 ^ 32 /\
     rf_is_ext r = false).

(** The value of a list of hex digit values, most significant first. *)
Definition digits_value (ds : list Z) : Z :=
  fold_left (fun acc d => acc * 16 + d) ds 0.

(** ** [twai_send_handler]

    The handler of the send command behind its argument table:
    [controller_id] is the first positional argument and [frame_str] the
    frame string the handler has selected from the arguments ([None] for
    the NULL it starts with).  The handler works on the table of
    controllers; what it logs and prints is left out.  The result is the
    code returned, the table after the call, and the frame handed to
    [send_frame_sync] if the handler got that far. *)
Section SendHandler.
Variable CONFIG_EXAMPLE_ENABLE_TWAI_FD : bool.
Variable SOC_TWAI_CONTROLLER_NUM : Z.
Variable beyond : nat -> ascii.

(** [TWAI_FRAME_BUFFER_SIZE] of [cmd_twai.h]. *)
Definition TWAI_FRAME_BUFFER_SIZE : Z :=
  if CONFIG_EXAMPLE_ENABLE_TWAI_FD then TWAIFD_FRAME_MAX_LEN
  else TWAI_FRAME_MAX_LEN.

Definition twai_send_handler (r : Rendezvous.run)
    (s_twai_controller_ctx : list twai_controller_ctx_t)
    (controller_id : Z) (frame_str : option cstring)
    : esp_err_t * list twai_controller_ctx_t * option twai_frame_t :=
  match get_controller_by_id SOC_TWAI_CONTROLLER_NUM
          s_twai_controller_ctx controller_id with
  | None => (ESP_ERR_INVALID_ARG, s_twai_controller_ctx, None)
  | Some controller =>
      (* Prepare frame *)
      let frame := Send.fresh_frame TWAI_FRAME_BUFFER_SIZE in
      match frame_str with
      | None => (ESP_ERR_INVALID_ARG, s_twai_controller_ctx, None)
      | Some str =>
          match strchr str "#" with
          | None => (ESP_ERR_INVALID_ARG, s_twai_controller_ctx, None)
          | Some _ =>
              (* Parse frame string *)
              let '(v, frame') :=
                Send.parse_frame CONFIG_EXAMPLE_ENABLE_TWAI_FD beyond str frame in
              if negb (Send.succeeded v)
              then (ESP_ERR_INVALID_ARG, s_twai_controller_ctx, None)
              else
                (* Send frame with 1 second timeout *)
                let '(ret, controller') :=
                  Rendezvous.send_frame_sync r controller in
                let table :=
                  <[Z.to_nat controller_id := controller']> s_twai_controller_ctx in
                if negb (is_ok ret) then (ESP_FAIL, table, Some frame')
                else (ESP_OK, table, Some frame')
          end
      end
  end.

End SendHandler.

(** ** The capture pipeline at work

    [twai_dump_rx_done_cb] runs in interrupt context and puts each
    received frame into the queue; [dump_task] takes the frames out and
    prints them.  The queue is the bounded first-in-first-out queue of
    the kernel; its capacity [CONFIG_EXAMPLE_DUMP_QUEUE_SIZE] comes from
    the project configuration. *)
Module Capture.

(** The dump context of one controller, the items in its queue (oldest
    first) and the lines printed so far. *)
Record pipeline := mkPipeline {
  ctx : twai_dump_ctx_t;
  queue : list Dump.rx_queue_item_t;
  console : list cstring
}.

(** What [twai_node_receive_from_isr] hands over when it returns
    [ESP_OK]: the header, the content of the data buffer and the length
    it leaves in [buffer_len]. *)
Record received_t := mkReceived {
  rx_header : twai_frame_header_t;
  rx_data : list Z;
  rx_len : Z
}.

Section Build.
Variable CONFIG_EXAMPLE_ENABLE_TWAI_FD : bool.
Variable CONFIG_EXAMPLE_DUMP_QUEUE_SIZE : Z.

(** [twai_dump_rx_done_cb]: [received] is [None] when the driver has no
    frame ([twai_node_receive_from_isr] fails), [now] is the value of
    [esp_timer_get_time()], and [waiter] tells whether the dump task is
    blocked on the queue, which is what [higher_priority_task_woken]
    reports after a successful send. *)
Definition twai_dump_rx_done_cb (received : option received_t) (now : Z)
    (waiter : bool) (p : pipeline) : bool * pipeline :=
  if negb (is_running (ctx p)) then (false, p)
  else
    match received with
    | Some frame =>
        let item :=
          Dump.mkItem (rx_header frame) (rx_data frame) (rx_len frame) now in
        (* Non-blocking queue send *)
        if Z.of_nat (length (queue p)) <? CONFIG_EXAMPLE_DUMP_QUEUE_SIZE
        then (waiter, mkPipeline (ctx p) (queue p ++ [item]) (console p))
        else (* Queue full - frame dropped silently *) (false, p)
    | None => (false, p)
    end.

(** One pass through the body of the [while] loop of [dump_task]:
    [xQueueReceive] yields the oldest item, or times out on an empty
    queue. *)
Definition dump_task_pass (controller_id : Z) (p : pipeline) : pipeline :=
  match queue p with
  | item :: rest =>
      let '(output_line, ctx') :=
        Dump.format_twaidump_frame CONFIG_EXAMPLE_ENABLE_TWAI_FD (ctx p) item
          controller_id Dump.DUMP_OUTPUT_LINE_SIZE in
      mkPipeline ctx' rest (console p ++ [output_line])
  | [] => p
  end.

(** What happens to the pipeline while a capture runs: a receive
    interrupt, or the dump task testing [is_running] and going through
    its loop body once. *)
Inductive event : Type :=
| RxDone (received : option received_t) (now : Z)
| TaskPass.

Definition step (controller_id : Z) (e : event) (p : pipeline) : pipeline :=
  match e with
  | RxDone received now => snd (twai_dump_rx_done_cb received now false p)
  | TaskPass =>
      if is_running (ctx p) then dump_task_pass controller_id p else p
  end.

Definition run (controller_id : Z) (events : list event) (p : pipeline)
    : pipeline :=
  fold_left (fun p e => step controller_id e p) events p.

(** No receive interrupt of the run that brings a frame finds the queue
    full: [xQueueSendFromISR] succeeds every time it is called. *)
Fixpoint no_overflow (controller_id : Z) (events : list event) (p : pipeline)
    : bool :=
  match events with
  | [] => true
  | e :: rest =>
      match e with
      | RxDone (Some _) _ =>
          Z.of_nat (length (queue p)) <? CONFIG_EXAMPLE_DUMP_QUEUE_SIZE
      | _ => true
      end && no_overflow controller_id rest (step controller_id e p)
  end.

(** The lines [dump_task] prints for a list of items, and the context
    after the last of them. *)
Fixpoint print_all (controller_id : Z) (d : twai_dump_ctx_t)
    (items : list Dump.rx_queue_item_t) : list cstring * twai_dump_ctx_t :=
  match items with
  | [] => ([], d)
  | item :: rest =>
      let '(output_line, d') :=
        Dump.format_twaidump_frame CONFIG_EXAMPLE_ENABLE_TWAI_FD d item
          controller_id Dump.DUMP_OUTPUT_LINE_SIZE in
      let '(lines, d'') := print_all controller_id d' rest in
      (output_line :: lines, d'')
  end.

End Build.

(** The items the receive interrupts of a list of events bring. *)
Fixpoint arrivals (events : list event) : list Dump.rx_queue_item_t :=
  match events with
  | [] => []
  | RxDone (Some frame) now :: rest =>
      Dump.mkItem (rx_header frame) (rx_data frame) (rx_len frame) now
        :: arrivals rest
  | _ :: rest => arrivals rest
  end.

(** The end of [dump_task], after its loop has seen [is_running]
    false: the task deletes the queue and clears both handles. *)
Definition dump_task_exit : Dump.M unit :=
  Dump.bind (Dump.get rx_queue) (fun q =>
  Dump.bind
    (match q with
     | Some _ =>
         Dump.bind (Dump.emit Dump.VQueueDelete)
           (fun _ => Dump.modify (set_rx_queue None))
     | None => Dump.ret tt
     end) (fun _ =>
  Dump.modify (set_task_handle None))).

(** The part of [twai_dump_stop_internal] that works on the dump
    context of the controller it has looked up.  [task_exits] tells
    whether the dump task gets to leave its loop and run its exit code
    during the [vTaskDelay] of twice its receive time-out. *)
Definition signal_stop_and_wait (task_exits : bool) : Dump.M esp_err_t :=
  Dump.bind (Dump.get is_running) (fun running =>
  if negb running then Dump.ret ESP_OK
  else
    (* Signal task to stop *)
    Dump.bind (Dump.emit (Dump.StoreIsRunning false)) (fun _ =>
    Dump.bind (Dump.modify (set_running false)) (fun _ =>
    (* Wait for dump task to finish *)
    Dump.bind (if task_exits then dump_task_exit else Dump.ret tt) (fun _ =>
    Dump.bind (Dump.get dump_task_handle) (fun t =>
    match t with
    | None => Dump.ret ESP_OK
    | Some _ => Dump.ret ESP_ERR_TIMEOUT
    end))))).

Section Table.
Variable SOC_TWAI_CONTROLLER_NUM : Z.

(** [twai_dump_stop_internal(controller_id)] on the table of
    controllers: the code, the table after the call and the actions on
    kernel objects. *)
Definition twai_dump_stop_internal (task_exits : bool)
    (s_twai_controller_ctx : list twai_controller_ctx_t) (controller_id : Z)
    : esp_err_t * list twai_controller_ctx_t * list Dump.action :=
  if (controller_id <? 0) || (SOC_TWAI_CONTROLLER_NUM <=? controller_id)
  then (ESP_ERR_INVALID_ARG, s_twai_controller_ctx, [])
  else
    match get_controller_by_id SOC_TWAI_CONTROLLER_NUM
            s_twai_controller_ctx controller_id with
    | None => (ESP_ERR_INVALID_ARG, s_twai_controller_ctx, [])
    | Some controller =>
        let '(ret, d, acts) :=
          signal_stop_and_wait task_exits (dump_ctx controller) in
        (ret,
         <[Z.to_nat controller_id := set_dump_ctx d controller]>
           s_twai_controller_ctx,
         acts)
    end.

(** The [--stop] branch of [twai_dump_handler]: [controller_str] is the
    positional argument. *)
Definition twai_dump_handler_stop (task_exits : bool)
    (s_twai_controller_ctx : list twai_controller_ctx_t)
    (controller_str : cstring)
    : esp_err_t * list twai_controller_ctx_t * list Dump.action :=
  let controller_id :=
    parse_controller_string SOC_TWAI_CONTROLLER_NUM controller_str in
  if negb (0 <=? controller_id)
  then (ESP_ERR_INVALID_ARG, s_twai_controller_ctx, [])
  else
    match get_controller_by_id SOC_TWAI_CONTROLLER_NUM
            s_twai_controller_ctx controller_id with
    | None => (ESP_ERR_INVALID_ARG, s_twai_controller_ctx, [])
    | Some _ =>
        let '(ret, table, acts) :=
          twai_dump_stop_internal task_exits s_twai_controller_ctx controller_id in
        if negb (is_ok ret) then (ret, table, acts) else (ESP_OK, table, acts)
    end.

End Table.

End Capture.

(** ** The driver calls of a filter configuration

    The calls the start branch of [twai_dump_handler] makes when every
    one of them succeeds: disable the node, one call per mask filter,
    one call per range filter (each followed by the call that turns the
    default mask filter 0 off when no mask filter is given), enable the
    node. *)
Definition filter_calls (d : twai_dump_ctx_t) (mask_count range_count : Z)
    : list Dump.driver_call :=
  [Dump.TwaiNodeDisable]
  ++ map (fun i =>
            Dump.TwaiNodeConfigMaskFilter i
              (nth (Z.to_nat i) (mask_filter_configs d) Dump.zero_mask))
       (seqZ 0 mask_count)
  ++ concat (map (fun i =>
                    Dump.TwaiNodeConfigRangeFilter i
                      (nth (Z.to_nat i) (range_filter_configs d) Dump.zero_range)
                    :: (if mask_count =? 0
                        then [Dump.TwaiNodeConfigMaskFilter 0
                                (mkMask 0xFFFFFFFF 0xFFFFFFFF false)]
                        else []))
               (seqZ 0 range_count))
  ++ [Dump.TwaiNodeEnable].

(** A list of driver calls made one after the other until one fails:
    the failing code, if any, and the calls made. *)
Fixpoint until_failure (driver : Dump.driver_call -> esp_err_t)
    (calls : list Dump.driver_call) : option esp_err_t * list Dump.driver_call :=
  match calls with
  | [] => (None, [])
  | call :: rest =>
      if negb (is_ok (driver call)) then (Some (driver call), [call])
      else let '(e, made) := until_failure driver rest in (e, call :: made)
  end.

(** ** [cmd_twai_core.c]: starting and stopping the driver *)

Module Core.

Definition DEFAULT_BITRATE : Z := 500000.

(** [tolower] and [strcasecmp(a, b) == 0] in the C locale. *)
Definition tolower (c : ascii) : ascii :=
  if (code "A" <=? code c) && (code c <=? code "Z") then chr (code c + 32) else c.

Fixpoint strcasecmp_eq (a b : cstring) : bool :=
  match a, b with
  | [], [] => true
  | x :: a', y :: b' => Ascii.eqb (tolower x) (tolower y) && strcasecmp_eq a' b'
  | _, _ => false
  end.

Fixpoint strcmp_eq (a b : cstring) : bool :=
  match a, b with
  | [], [] => true
  | x :: a', y :: b' => Ascii.eqb x y && strcmp_eq a' b'
  | _, _ => false
  end.

Definition parse_bool (arg : cstring) : bool :=
  strcasecmp_eq arg (cs "true") || strcmp_eq arg (cs "1").

(** The fields of [twai_onchip_node_config_t] that the commands
    change. *)
Record twai_onchip_node_config_t := mkConfig {
  io_tx : Z;                     (* io_cfg.tx *)
  io_rx : Z;                     (* io_cfg.rx *)
  bitrate : Z;                   (* bit_timing.bitrate, uint32_t *)
  data_bitrate : Z;              (* data_timing.bitrate, uint32_t *)
  enable_self_test : bool;
  enable_loopback : bool;
  enable_listen_only : bool
}.

Record twai_core_ctx_t := mkCore {
  driver_config : twai_onchip_node_config_t;
  default_config : twai_onchip_node_config_t;
  driver_handle : option handle;
  is_initialized : bool          (* atomic_bool *)
}.

(** [twai_controller_ctx_t] as the core commands see it. *)
Record controller_t := mkControl {
  core_ctx : twai_core_ctx_t;
  node_handle : option handle
}.

Definition set_driver_config (cfg : twai_onchip_node_config_t)
    (ctx : twai_core_ctx_t) :=
  mkCore cfg (default_config ctx) (driver_handle ctx) (is_initialized ctx).
Definition set_driver_handle (h : option handle) (ctx : twai_core_ctx_t) :=
  mkCore (driver_config ctx) (default_config ctx) h (is_initialized ctx).
Definition set_is_initialized (b : bool) (ctx : twai_core_ctx_t) :=
  mkCore (driver_config ctx) (default_config ctx) (driver_handle ctx) b.
Definition set_data_bitrate (v : Z) (cfg : twai_onchip_node_config_t) :=
  mkConfig (io_tx cfg) (io_rx cfg) (bitrate cfg) v
    (enable_self_test cfg) (enable_loopback cfg) (enable_listen_only cfg).
Definition set_bitrate (v : Z) (cfg : twai_onchip_node_config_t) :=
  mkConfig (io_tx cfg) (io_rx cfg) v (data_bitrate cfg)
    (enable_self_test cfg) (enable_loopback cfg) (enable_listen_only cfg).
(** Self-test is enabled together with loopback. *)
Definition set_loopback (b : bool) (cfg : twai_onchip_node_config_t) :=
  mkConfig (io_tx cfg) (io_rx cfg) (bitrate cfg) (data_bitrate cfg)
    b b (enable_listen_only cfg).
Definition set_listen_only (b : bool) (cfg : twai_onchip_node_config_t) :=
  mkConfig (io_tx cfg) (io_rx cfg) (bitrate cfg) (data_bitrate cfg)
    (enable_self_test cfg) (enable_loopback cfg) b.

(** The calls into the driver, in program order.  The creation of a
    node is logged with the code it returned and the handle it left in
    [ctx->driver_handle]. *)
Inductive driver_call : Type :=
| TwaiNewNodeOnchip (cfg : twai_onchip_node_config_t)
    (ret : esp_err_t) (h : option handle)
| TwaiNodeRegisterEventCallbacks (h : option handle)
| TwaiNodeEnable (h : option handle)
| TwaiNodeDisable (h : handle)
| TwaiNodeDelete (h : handle).

(** What the driver answers during one call of [twai_start]: the code
    of [twai_new_node_onchip] and the handle it leaves in
    [ctx->driver_handle], and the codes of the two calls that follow. *)
Record answers := mkAnswers {
  new_node_ret : esp_err_t;
  new_node_handle : option handle;
  register_ret : esp_err_t;
  enable_ret : esp_err_t
}.

Section Build.
Variable CONFIG_EXAMPLE_ENABLE_TWAI_FD : bool.
(** [GPIO_NUM_NC] belongs to the GPIO driver. *)
Variable GPIO_NUM_NC : Z.

(** [DEFAULT_FD_DATA_BITRATE] of [cmd_twai.h]. *)
Definition DEFAULT_FD_DATA_BITRATE : Z :=
  if CONFIG_EXAMPLE_ENABLE_TWAI_FD then 1000000 else 0.

(** [cleanup_node:] of [twai_start]. *)
Definition cleanup_node (ctx : twai_core_ctx_t)
    : twai_core_ctx_t * list driver_call :=
  match driver_handle ctx with
  | Some h => (set_driver_handle None ctx, [TwaiNodeDelete h])
  | None => (ctx, [])
  end.

(** [twai_start(ctx)]: the handle returned, the context after the call
    and the driver calls made. *)
Definition twai_start (a : answers) (ctx : twai_core_ctx_t)
    : option handle * twai_core_ctx_t * list driver_call :=
  if is_initialized ctx then (driver_handle ctx, ctx, [])
  else if (io_tx (driver_config ctx) =? GPIO_NUM_NC)
          || (io_rx (driver_config ctx) =? GPIO_NUM_NC)
  then (None, ctx, [])
  else
    let cfg := driver_config ctx in
    let cfg :=
      if CONFIG_EXAMPLE_ENABLE_TWAI_FD
         && (0 <? data_bitrate cfg) && (data_bitrate cfg <? bitrate cfg)
      then set_data_bitrate 0 cfg (* Disable FD *) else cfg in
    let ctx := set_driver_config cfg ctx in
    (* Create a new TWAI node with the current configuration *)
    let ctx := set_driver_handle (new_node_handle a) ctx in
    let res := driver_handle ctx in
    let t1 := [TwaiNewNodeOnchip cfg (new_node_ret a) (new_node_handle a)] in
    if negb (is_ok (new_node_ret a)) then (res, ctx, t1)
    else
      let t2 := t1 ++ [TwaiNodeRegisterEventCallbacks (driver_handle ctx)] in
      if negb (is_ok (register_ret a)) then
        let '(ctx', t) := cleanup_node ctx in (res, ctx', t2 ++ t)
      else
        let t3 := t2 ++ [TwaiNodeEnable (driver_handle ctx)] in
        if negb (is_ok (enable_ret a)) then
          let '(ctx', t) := cleanup_node ctx in (res, ctx', t3 ++ t)
        else (res, set_is_initialized true ctx, t3).

(** [twai_stop(ctx)]. *)
Definition twai_stop (ctx : twai_core_ctx_t)
    : esp_err_t * twai_core_ctx_t * list driver_call :=
  if negb (is_initialized ctx) then (ESP_OK, ctx, [])
  else
    (* Disable and delete TWAI node first to stop callbacks *)
    let '(ctx1, t) :=
      match driver_handle ctx with
      | Some h => (set_driver_handle None ctx, [TwaiNodeDisable h; TwaiNodeDelete h])
      | None => (ctx, [])
      end in
    (ESP_OK, set_is_initialized false ctx1, t).

(** The options of [twai_init]: the values of [-r], [-l], [-L] and
    [-f], each [None] when the option is not given. *)
Record init_args := mkInitArgs {
  arg_rate : option Z;
  arg_loopback : option cstring;
  arg_listen : option cstring;
  arg_fd_rate : option Z
}.

(** The three handlers, behind their argument tables, on the
    controller that [get_controller_by_id] has found. *)
Definition twai_init_handler (a : answers) (args : init_args) (c : controller_t)
    : esp_err_t * controller_t * list driver_call :=
  let ctx := core_ctx c in
  if is_initialized ctx then (ESP_OK, c, [])
  else
    (* Update configuration based on arguments *)
    let cfg := driver_config ctx in
    let cfg :=
      match arg_rate args with
      | Some r => set_bitrate (r mod 2 ^ 32) cfg
      | None => cfg
      end in
    let cfg :=
      match arg_loopback args with
      | Some v => set_loopback (parse_bool v) cfg
      | None => cfg
      end in
    let cfg :=
      match arg_listen args with
      | Some v => set_listen_only (parse_bool v) cfg
      | None => cfg
      end in
    let cfg :=
      if CONFIG_EXAMPLE_ENABLE_TWAI_FD then
        match arg_fd_rate args with
        | Some r => set_data_bitrate (r mod 2 ^ 32) cfg
        | None => set_data_bitrate DEFAULT_FD_DATA_BITRATE cfg
        end
      else set_data_bitrate 0 cfg (* Disable FD *) in
    let '(h, ctx', t) := twai_start a (set_driver_config cfg ctx) in
    match h with
    | None => (ESP_FAIL, mkControl ctx' h, t)
    | Some _ => (ESP_OK, mkControl ctx' h, t)
    end.

Definition twai_deinit_handler (c : controller_t)
    : esp_err_t * controller_t * list driver_call :=
  let ctx := core_ctx c in
  if negb (is_initialized ctx) then (ESP_OK, c, [])
  else
    let '(ret, ctx', t) := twai_stop ctx in
    if negb (is_ok ret) then (ret, mkControl ctx' (node_handle c), t)
    else (ESP_OK, mkControl ctx' None, t).

Definition twai_reset_handler (a : answers) (c : controller_t)
    : esp_err_t * controller_t * list driver_call :=
  let ctx := core_ctx c in
  (* Stop the driver if it's running *)
  let was_running := is_initialized ctx in
  let stopped : option esp_err_t * controller_t * list driver_call :=
    if was_running then
      let '(ret, ctx', t) := twai_stop ctx in
      if negb (is_ok ret) then (Some ret, mkControl ctx' (node_handle c), t)
      else (None, mkControl ctx' None, t)
    else (None, c, []) in
  match stopped with
  | (Some ret, c1, t) => (ret, c1, t)
  | (None, c1, t) =>
      (* Reset configuration to default *)
      let ctx1 := set_driver_config (default_config (core_ctx c1)) (core_ctx c1) in
      (* If it was running, restart it with default configuration *)
      if was_running then
        let '(h, ctx2, t2) := twai_start a ctx1 in
        match h with
        | None => (ESP_FAIL, mkControl ctx2 h, t ++ t2)
        | Some _ => (ESP_OK, mkControl ctx2 h, t ++ t2)
        end
      else (ESP_OK, mkControl ctx1 (node_handle c1), t)
  end.

(** A console command on one controller, with the answers of the
    driver during it. *)
Inductive command : Type :=
| TwaiInit (a : answers) (args : init_args)
| TwaiDeinit
| TwaiReset (a : answers).

Definition execute (cmd : command) (c : controller_t)
    : esp_err_t * controller_t * list driver_call :=
  match cmd with
  | TwaiInit a args => twai_init_handler a args c
  | TwaiDeinit => twai_deinit_handler c
  | TwaiReset a => twai_reset_handler a c
  end.

(** A session of commands: the controller after it and all driver
    calls made. *)
Fixpoint session (cmds : list command) (c : controller_t)
    : controller_t * list driver_call :=
  match cmds with
  | [] => (c, [])
  | cmd :: rest =>
      let '(_, c1, t1) := execute cmd c in
      let '(c2, t2) := session rest c1 in
      (c2, t1 ++ t2)
  end.

End Build.

(** The driver keeps its side of the interface: a creation that
    succeeds leaves a handle, one that fails leaves NULL. *)
Definition well_behaved (a : answers) : Prop :=
  if is_ok (new_node_ret a) then is_Some (new_node_handle a)
  else new_node_handle a = None.

Definition answers_of (cmd : command) : option answers :=
  match cmd with
  | TwaiInit a _ => Some a
  | TwaiDeinit => None
  | TwaiReset a => Some a
  end.

(** The nodes alive after a list of driver calls, newest first: those
    created with success and not deleted since. *)
Fixpoint live_nodes (calls : list driver_call) (live : list handle)
    : list handle :=
  match calls with
  | [] => live
  | TwaiNewNodeOnchip _ ret (Some h) :: rest =>
      if is_ok ret then live_nodes rest (h :: live) else live_nodes rest live
  | TwaiNodeDelete h :: rest =>
      live_nodes rest (List.filter (fun x => negb (x =? h)) live)
  | _ :: rest => live_nodes rest live
  end.

(** The calls on existing nodes all name a node that is alive at the
    time of the call. *)
Fixpoint on_live_nodes (calls : list driver_call) (live : list handle) : Prop :=
  match calls with
  | [] => True
  | call :: rest =>
      match call with
      | TwaiNewNodeOnchip _ _ _ => True
      | TwaiNodeRegisterEventCallbacks h | TwaiNodeEnable h =>
          exists x, h = Some x /\ In x live
      | TwaiNodeDisable h | TwaiNodeDelete h => In h live
      end /\ on_live_nodes rest (live_nodes [call] live)
  end.

(** The state the core commands keep a controller in: the flag is set
    exactly when a node exists, which then is the only one alive and the
    one both handles name. *)
Definition consistent (c : controller_t) (live : list handle) : Prop :=
  if is_initialized (core_ctx c)
  then exists h, driver_handle (core_ctx c) = Some h /\
                 node_handle c = Some h /\ live = [h]
  else driver_handle (core_ctx c) = None /\ live = [].

End Core.

(** The controller 0 as [register_twai_core_commands] sets it up, here
    with the pins 4 and 5 and a build without flexible-rate support. *)
Definition registered_controller : Core.controller_t :=
  let cfg := Core.mkConfig 4 5 Core.DEFAULT_BITRATE 0 false false false in
  Core.mkControl (Core.mkCore cfg cfg None false) None.

(** A driver that does everything asked, and one that creates the node
    and then refuses to enable it. *)
Definition obliging (h : handle) : Core.answers :=
  Core.mkAnswers ESP_OK (Some h) ESP_OK ESP_OK.
Definition refusing_enable (h : handle) : Core.answers :=
  Core.mkAnswers ESP_OK (Some h) ESP_OK ESP_FAIL.

(** * Theorems *)

(** ** Helper facts on the payload reader *)

Lemma parse_payload_loop_code (n : nat) :
  forall s buf cnt max r b,
    (length s <= n)%nat -> 0 <= cnt ->
    parse_payload_loop s buf cnt max = (r, b) ->
    r = PARSE_ERROR \/ 0 <= r.
Proof.
  induction n as [|n IH]; intros s buf cnt max r b Hlen Hcnt Hrun.
  - destruct s; [|simpl in Hlen; lia]. simpl in Hrun. injection Hrun as <- _. by right.
  - destruct s as [|c0 s1]; simpl in Hrun.
    { injection Hrun as <- _. by right. }
    simpl in Hlen.
    destruct (negb (cnt <? max)). { injection Hrun as <- _. by right. }
    destruct (Ascii.eqb c0 "."). { eapply IH; [| |exact Hrun]; lia. }
    destruct (negb (isxdigit c0)).
    { destruct (cnt =? 0); injection Hrun as <- _; [by left|by right]. }
    destruct s1 as [|c1 s2]. { injection Hrun as <- _. by left. }
    simpl in Hlen.
    destruct (negb (isxdigit c1)). { injection Hrun as <- _. by left. }
    destruct (parse_nibble c0), (parse_nibble c1);
      try (injection Hrun as <- _; by left).
    eapply IH; [| |exact Hrun]; lia.
Qed.

(** Once the payload reader has its maximum, nothing that follows in the
    text changes its result. *)
Lemma parse_payload_loop_extend (n : nat) :
  forall s buf cnt max b extra,
    (length s <= n)%nat -> 0 <= cnt <= max ->
    parse_payload_loop s buf cnt max = (max, b) ->
    parse_payload_loop (s ++ extra) buf cnt max = (max, b).
Proof.
  induction n as [|n IH]; intros s buf cnt max b extra Hlen Hcnt Hrun.
  - destruct s; [|simpl in Hlen; lia]. simpl in Hrun. injection Hrun as -> ->.
    destruct extra as [|c extra]; [done|]. cbn [app parse_payload_loop].
    by replace (max <? max) with false by (symmetry; apply Z.ltb_ge; lia).
  - destruct s as [|c0 s1].
    { simpl in Hrun. injection Hrun as -> ->.
      destruct extra as [|c extra]; [done|]. cbn [app parse_payload_loop].
      by replace (max <? max) with false by (symmetry; apply Z.ltb_ge; lia). }
    simpl in Hlen. cbn [app parse_payload_loop] in *.
    destruct (cnt <? max) eqn:Hlt; cbn [negb] in *; [|done].
    apply Z.ltb_lt in Hlt.
    destruct (Ascii.eqb c0 "."). { apply IH; [lia|lia|done]. }
    destruct (negb (isxdigit c0)).
    { destruct (cnt =? 0); injection Hrun as Hr _; unfold PARSE_ERROR in *; lia. }
    destruct s1 as [|c1 s2].
    { injection Hrun as Hr _. unfold PARSE_ERROR in *. lia. }
    simpl in Hlen. cbn [app].
    destruct (negb (isxdigit c1)).
    { injection Hrun as Hr _. unfold PARSE_ERROR in *. lia. }
    destruct (parse_nibble c0), (parse_nibble c1);
      try (injection Hrun as Hr _; unfold PARSE_ERROR in *; lia).
    apply IH; [lia|lia|done].
Qed.

(** C2: the body ["0102030405060708"] decodes to the eight bytes 01..08
    with data-length code 8.  With a ninth pair the dedicated parser
    [parse_classic_frame] still returns [PARSE_OK] with the first eight
    bytes: whatever is appended to a body that decodes to eight bytes, the
    result is the same eight bytes with code 8, and [PARSE_TOO_LONG] is
    not returned on any body.  The inline parser of the send command
    rejects the nine-pair text as too long. *)
Theorem classic_payload_limit :
  (let r := parse_classic_frame (cs "0102030405060708") (Send.fresh_frame 8) in
   fst r = PARSE_OK /\ payload (snd r) = [1; 2; 3; 4; 5; 6; 7; 8]
   /\ dlc (header (snd r)) = 8) /\
  (let r := parse_classic_frame (cs "010203040506070809") (Send.fresh_frame 8) in
   fst r = PARSE_OK /\ payload (snd r) = [1; 2; 3; 4; 5; 6; 7; 8]
   /\ dlc (header (snd r)) = 8) /\
  (forall body extra f,
     fst (parse_classic_frame body f) = PARSE_OK ->
     buffer_len (snd (parse_classic_frame body f)) = TWAI_MAX_DATA_LEN ->
     let r := parse_classic_frame (body ++ extra) f in
     fst r = PARSE_OK /\
     buffer (snd r) = buffer (snd (parse_classic_frame body f)) /\
     buffer_len (snd r) = TWAI_MAX_DATA_LEN /\
     dlc (header (snd r)) = TWAI_MAX_DATA_LEN) /\
  (forall body f, fst (parse_classic_frame body f) <> PARSE_TOO_LONG) /\
  (forall fd beyond,
     fst (Send.parse_frame fd beyond (cs "123#010203040506070809") (Send.fresh_frame 8))
     = Send.ReturnFalse Send.DataTooLong).
Proof.
  split; [by vm_compute|]. split; [by vm_compute|]. split; [|split].
  - intros body extra f. unfold parse_classic_frame.
    destruct body as [|c0 body'].
    { cbn. intros _ Hlen. discriminate Hlen. }
    cbn [app peek hd].
    destruct (Ascii.eqb c0 "R" || Ascii.eqb c0 "r").
    { cbn. intros _ Hlen. discriminate Hlen. }
    unfold parse_payload. change (TWAI_MAX_DATA_LEN <=? 0) with false. cbv iota.
    destruct (parse_payload_loop (c0 :: body') (buffer f) 0 TWAI_MAX_DATA_LEN)
      as [dl buf] eqn:Hp.
    destruct (dl <? 0) eqn:Hneg.
    { cbn. intros -> . discriminate Hneg. }
    intros _ Hlen.
    assert (dl = TWAI_MAX_DATA_LEN) as ->.
    { revert Hlen. repeat match goal with
      | |- context [if ?b then _ else _] => destruct b
      | |- context [match ?o with Some _ => _ | None => _ end] => destruct o
      end; by cbn. }
    change (c0 :: body' ++ extra) with ((c0 :: body') ++ extra).
    rewrite (parse_payload_loop_extend (length (c0 :: body')) (c0 :: body')
      (buffer f) 0 TWAI_MAX_DATA_LEN buf extra
      ltac:(lia) ltac:(unfold TWAI_MAX_DATA_LEN; lia) Hp).
    change (TWAI_MAX_DATA_LEN <? 0) with false. cbv iota.
    repeat match goal with
    | |- context [if ?b then _ else _] => destruct b
    | |- context [match ?o with Some _ => _ | None => _ end] => destruct o
    end; by cbn.
  - intros body f. unfold parse_classic_frame.
    destruct (_ || _); [simpl; discriminate|].
    destruct (parse_payload body (buffer f) TWAI_MAX_DATA_LEN) as [dl buf] eqn:Hp.
    destruct (dl <? 0) eqn:Hneg; [|simpl; discriminate].
    simpl. unfold parse_payload in Hp. simpl in Hp.
    apply (parse_payload_loop_code (length body)) in Hp; [|lia|lia].
    destruct Hp as [->|Hp]; [discriminate|]. apply Z.ltb_lt in Hneg. lia.
  - intros [] beyond; reflexivity.
Qed.

Lemma classic_payload_limit_witness :
  let f := Send.fresh_frame 8 in
  fst (parse_classic_frame (cs "0102030405060708") f) = PARSE_OK /\
  buffer_len (snd (parse_classic_frame (cs "0102030405060708") f)) = 8 /\
  let r := parse_classic_frame (cs "0102030405060708" ++ cs ".09.0A") f in
  fst r = PARSE_OK /\
  buffer (snd r) = [1; 2; 3; 4; 5; 6; 7; 8] /\
  buffer_len (snd r) = 8 /\
  dlc (header (snd r)) = 8.
Proof.
  split; [reflexivity|]. split; [reflexivity|].
  exact (proj1 (proj2 (proj2 classic_payload_limit))
    (cs "0102030405060708") (cs ".09.0A") (Send.fresh_frame 8) eq_refl eq_refl).
Defined.

(** C3: the dedicated parser and the inline parser of the send command
    differ on the same grammar.  On the body ["R"] both succeed, the
    dedicated one with data-length code 8, the inline one with 0.  Of the
    sixteen flag nibbles the dedicated [parse_twaifd_frame] accepts every
    one, the inline parser only 0..3; the nibble 4 is accepted by the one
    and rejected by the other. *)
Theorem parsers_disagree (f : twai_frame_t) (beyond : nat -> ascii) :
  (exists body,
     let r1 := parse_classic_frame body f in
     let r2 := Send.parse_frame true beyond (cs "123#" ++ body) f in
     fst r1 = PARSE_OK /\ fst r2 = Send.ReturnTrue /\
     rtr (header (snd r1)) = true /\ rtr (header (snd r2)) = true /\
     dlc (header (snd r1)) = 8 /\ dlc (header (snd r2)) = 0) /\
  (exists c,
     fst (parse_twaifd_frame [c] f) = PARSE_OK /\
     fst (Send.parse_frame true beyond (cs "123##" ++ [c]) f)
     = Send.ReturnFalse Send.FdFlagsValue) /\
  Forall (fun c => fst (parse_twaifd_frame [c] f) = PARSE_OK)
    (cs "0123456789ABCDEF") /\
  Forall (fun c => fst (Send.parse_frame true beyond (cs "123##" ++ [c]) f)
                   = Send.ReturnTrue) (cs "0123") /\
  Forall (fun c => fst (Send.parse_frame true beyond (cs "123##" ++ [c]) f)
                   = Send.ReturnFalse Send.FdFlagsValue) (cs "456789ABCDEF").
Proof.
  split; [exists (cs "R"); by vm_compute|].
  split; [exists "4"; by vm_compute|].
  repeat split; repeat constructor.
Qed.

(** ** Helper facts on [strtoul] and the identifier *)

Lemma digit_value_nonneg c d : digit_value c = Some d -> 0 <= d < 16.
Proof.
  unfold digit_value. intros H.
  repeat match type of H with
  | (if ?b then _ else _) = _ => destruct b eqn:?
  end; try discriminate; injection H as <-; split_tests; char_codes; lia.
Qed.

Lemma strtoul_digits_nonneg s : forall acc ovf n acc' ovf' n',
  0 <= acc -> strtoul_digits s acc ovf n = (acc', ovf', n') -> 0 <= acc'.
Proof.
  induction s as [|c s IH]; intros acc ovf n acc' ovf' n' Hacc Hrun; simpl in Hrun.
  - by injection Hrun as <- _ _.
  - destruct (digit_value c) as [d|] eqn:Hd; [|by injection Hrun as <- _ _].
    apply digit_value_nonneg in Hd.
    destruct (ovf || _); (eapply IH; [|exact Hrun]); [by vm_compute|lia].
Qed.

Lemma strtoul16_nonneg str : 0 <= fst (strtoul16 str).
Proof.
  unfold strtoul16.
  destruct (skip_space str 0) as [s1 nsp].
  destruct (match s1 with [] => _ | _ => _ end) as [[neg s2] nsg].
  destruct (match s2 with [] => _ | _ => _ end) as [s3 npre].
  destruct (strtoul_digits s3 0 false 0) as [[acc ovf] nd] eqn:Hd.
  apply strtoul_digits_nonneg in Hd; [|lia].
  destruct (nd =? 0)%nat; simpl; [lia|].
  destruct ovf; [by vm_compute|]. destruct neg; [|done].
  apply Z.mod_pos_bound. lia.
Qed.

Lemma parse_twai_id_bound str len f f' :
  parse_twai_id str len f = (PARSE_OK, f') ->
  0 <= id (header f') /\
  (ide (header f') = false -> id (header f') <= TWAI_STD_ID_MASK) /\
  (ide (header f') = true -> id (header f') <= TWAI_EXT_ID_MASK).
Proof.
  unfold parse_twai_id, parse_hex_id.
  destruct (_ || _); [intros H; discriminate H|].
  pose proof (strtoul16_nonneg str) as Hnn.
  destruct (strtoul16 str) as [val consumed]. simpl in Hnn.
  destruct (negb _); [intros H; discriminate H|].
  destruct (TWAI_STD_ID_CHAR_LEN <? len) eqn:Hext; simpl.
  - destruct (TWAI_EXT_ID_MASK <? val) eqn:Hr; simpl; [intros H; discriminate H|].
    intros H. injection H as <-. simpl. apply Z.ltb_ge in Hr.
    unfold TWAI_EXT_ID_MASK in *. rewrite Z.mod_small by lia.
    repeat split; [done|discriminate|done].
  - destruct (TWAI_STD_ID_MASK <? val) eqn:Hr; simpl; [intros H; discriminate H|].
    intros H. injection H as <-. simpl. apply Z.ltb_ge in Hr.
    unfold TWAI_STD_ID_MASK in *. rewrite Z.mod_small by lia.
    repeat split; [done|done|discriminate].
Qed.

Lemma parse_frame_bound fd beyond s f f' :
  Send.parse_frame fd beyond s f = (Send.ReturnTrue, f') ->
  (ide (header f') = false -> id (header f') <= TWAI_STD_ID_MASK) /\
  (ide (header f') = true -> id (header f') <= TWAI_EXT_ID_MASK).
Proof.
  unfold Send.parse_frame.
  destruct (_ <? Send.TWAI_MIN_FRAME_LEN); [intros H; discriminate H|].
  set (frame0 := with_header (fun _ => header_zero) f).
  destruct (Ascii.eqb (Send.char_at beyond s Send.TWAI_STD_DELIMITER_POS) "#").
  - destruct (Send.parse_id_loop beyond s 3 0 2 0) as [[] v];
      [|intros H; discriminate H].
    cbn [with_header header set_ide set_id ide id negb andb].
    destruct (TWAI_STD_ID_MASK <? v) eqn:Hr; [intros H; discriminate H|].
    apply Z.ltb_ge in Hr.
    assert (forall f', (ide (header f') = false /\ id (header f') = v) ->
       (ide (header f') = false → id (header f') <= TWAI_STD_ID_MASK)
       ∧ (ide (header f') = true → id (header f') <= TWAI_EXT_ID_MASK)) as Hfin.
    { intros g [Hi Hv]. rewrite Hi, Hv. split; [done|discriminate]. }
    destruct (_ || _).
    { intros H. injection H as <-. apply Hfin.
      destruct (_ && _); by cbn. }
    destruct (Ascii.eqb _ "#").
    + destruct fd; [|intros H; discriminate H].
      destruct (_ || _); [intros H; discriminate H|].
      destruct (_ <? _); [intros H; discriminate H|].
      destruct (Send.data_loop _ _ _ _) as [[[e r] b] d].
      destruct e; [intros H; discriminate H|].
      destruct (_ && _ && _); [intros H; discriminate H|].
      intros H. injection H as <-. apply Hfin.
      repeat match goal with |- context [if ?b then _ else _] => destruct b end; by cbn.
    + destruct (Send.data_loop _ _ _ _) as [[[e r] b] d].
      destruct e; [intros H; discriminate H|].
      destruct (_ && _ && _); [intros H; discriminate H|].
      intros H. injection H as <-. apply Hfin.
      repeat match goal with |- context [if ?b then _ else _] => destruct b end; by cbn.
  - destruct (Ascii.eqb (Send.char_at beyond s Send.TWAI_EXT_DELIMITER_POS) "#");
      [|intros H; discriminate H].
    destruct (Send.parse_id_loop beyond s 8 0 7 0) as [[] v];
      [|intros H; discriminate H].
    destruct (TWAI_EXT_ID_MASK <? v) eqn:Hr; [intros H; discriminate H|].
    apply Z.ltb_ge in Hr.
    cbn [with_header header set_ide set_id ide id negb andb].
    assert (forall f', (ide (header f') = true /\ id (header f') = v) ->
       (ide (header f') = false → id (header f') <= TWAI_STD_ID_MASK)
       ∧ (ide (header f') = true → id (header f') <= TWAI_EXT_ID_MASK)) as Hfin.
    { intros g [Hi Hv]. rewrite Hi, Hv. split; [discriminate|done]. }
    destruct (_ || _).
    { intros H. injection H as <-. apply Hfin.
      destruct (_ && _); by cbn. }
    destruct (Ascii.eqb _ "#").
    + destruct fd; [|intros H; discriminate H].
      destruct (_ || _); [intros H; discriminate H|].
      destruct (_ <? _); [intros H; discriminate H|].
      destruct (Send.data_loop _ _ _ _) as [[[e r] b] d].
      destruct e; [intros H; discriminate H|].
      destruct (_ && _ && _); [intros H; discriminate H|].
      intros H. injection H as <-. apply Hfin.
      repeat match goal with |- context [if ?b then _ else _] => destruct b end; by cbn.
    + destruct (Send.data_loop _ _ _ _) as [[[e r] b] d].
      destruct e; [intros H; discriminate H|].
      destruct (_ && _ && _); [intros H; discriminate H|].
      intros H. injection H as <-. apply Hfin.
      repeat match goal with |- context [if ?b then _ else _] => destruct b end; by cbn.
Qed.

(** ** Transmit rendezvous *)

(** C7: on a started controller whose semaphore holds no stale give, a
    [send_frame_sync] during which the driver accepts the frame and no
    transmit-done notification arrives returns [ESP_ERR_TIMEOUT] with the
    pending flag cleared; a notification after that return changes
    nothing and wakes nobody; and the next [send_frame_sync] on the same
    controller, before or after such a late notification, completes with
    [ESP_OK] as soon as its own notification arrives.  In general the
    callback gives the semaphore exactly when the flag is set, and clears
    the flag as it does. *)
Theorem transmit_timeout_rendezvous (c : twai_controller_ctx_t) :
  is_initialized c = true ->
  tx_done_sem (send_ctx c) = false ->
  let r := Rendezvous.send_frame_sync Rendezvous.silent c in
  fst r = ESP_ERR_TIMEOUT /\
  is_tx_pending (send_ctx (snd r)) = false /\
  tx_done_sem (send_ctx (snd r)) = false /\
  (forall waiter,
     Rendezvous.twai_send_tx_done_cb waiter (snd r) = (false, snd r)) /\
  fst (Rendezvous.send_frame_sync Rendezvous.completing (snd r)) = ESP_OK /\
  (forall waiter,
     fst (Rendezvous.send_frame_sync Rendezvous.completing
            (snd (Rendezvous.twai_send_tx_done_cb waiter (snd r)))) = ESP_OK) /\
  (forall waiter c',
     is_tx_pending (send_ctx c') = false ->
     Rendezvous.twai_send_tx_done_cb waiter c' = (false, c')) /\
  (forall waiter c',
     is_tx_pending (send_ctx c') = true ->
     Rendezvous.twai_send_tx_done_cb waiter c'
     = (waiter, set_tx_done_sem true (set_tx_pending false c'))).
Proof.
  intros Hinit Hsem.
  destruct c as [ini [pend sem] d]. simpl in Hinit, Hsem. subst ini sem.
  repeat split; try (by vm_compute);
    intros waiter c' Hp; unfold Rendezvous.twai_send_tx_done_cb; by rewrite Hp.
Qed.

Lemma transmit_timeout_rendezvous_witness :
  let c := controller_at_rest true 3 1 in
  let r := Rendezvous.send_frame_sync Rendezvous.silent c in
  fst r = ESP_ERR_TIMEOUT /\
  is_tx_pending (send_ctx (snd r)) = false /\
  tx_done_sem (send_ctx (snd r)) = false /\
  (forall waiter,
     Rendezvous.twai_send_tx_done_cb waiter (snd r) = (false, snd r)) /\
  fst (Rendezvous.send_frame_sync Rendezvous.completing (snd r)) = ESP_OK.
Proof.
  destruct (transmit_timeout_rendezvous (controller_at_rest true 3 1)
    eq_refl eq_refl) as (H1 & H2 & H3 & H4 & H5 & _).
  split; [exact H1|]. split; [exact H2|]. split; [exact H3|].
  split; [exact H4|exact H5].
Defined.

(** ** Capture pipeline *)

(** C8: [twai_dump_start_controller] on a running pipeline returns
    [ESP_OK], leaves the context as it is and does nothing else.  On a
    pipeline that is not running it creates the queue, stores the running
    flag and creates the task, in this order, and ends running with both
    handles set.  If the queue cannot be created it returns
    [ESP_ERR_NO_MEM] after that one attempt: the flag is still false, the
    queue pointer is NULL and no task was created, so an idle pipeline is
    idle afterwards. *)
Theorem capture_start (queue_alloc task_alloc : option handle)
    (d : twai_dump_ctx_t) :
  (is_running d = true ->
     Dump.twai_dump_start_controller queue_alloc task_alloc d = (ESP_OK, d, [])) /\
  (is_running d = false ->
     forall q t, queue_alloc = Some q -> task_alloc = Some t ->
     Dump.twai_dump_start_controller queue_alloc task_alloc d
     = (ESP_OK,
        set_task_handle (Some t) (set_running true (set_rx_queue (Some q) d)),
        [Dump.XQueueCreate; Dump.StoreIsRunning true; Dump.XTaskCreate])) /\
  (is_running d = false -> queue_alloc = None ->
     Dump.twai_dump_start_controller queue_alloc task_alloc d
     = (ESP_ERR_NO_MEM, set_rx_queue None d, [Dump.XQueueCreate]) /\
     is_running (set_rx_queue None d) = false /\
     rx_queue (set_rx_queue None d) = None /\
     dump_task_handle (set_rx_queue None d) = dump_task_handle d /\
     (idle d -> set_rx_queue None d = d)).
Proof.
  unfold Dump.twai_dump_start_controller, Dump.bind, Dump.get, Dump.emit,
    Dump.modify, Dump.ret.
  split; [|split].
  - intros ->. reflexivity.
  - intros -> q t -> ->. reflexivity.
  - intros Hrun ->. rewrite Hrun. cbn. repeat split; try done.
    intros (_ & Hq & _). destruct d; simpl in *. by subst.
Qed.

Lemma capture_start_witness :
  let d := Dump.twai_dump_init_controller
             (dump_ctx (controller_at_rest true 3 1)) in
  Dump.twai_dump_start_controller None (Some 7) d
  = (ESP_ERR_NO_MEM, d, [Dump.XQueueCreate]) /\
  Dump.twai_dump_start_controller (Some 5) (Some 7) d
  = (ESP_OK,
     set_task_handle (Some 7) (set_running true (set_rx_queue (Some 5) d)),
     [Dump.XQueueCreate; Dump.StoreIsRunning true; Dump.XTaskCreate]) /\
  Dump.twai_dump_start_controller (Some 5) (Some 7) (set_running true d)
  = (ESP_OK, set_running true d, []).
Proof.
  split; [|split].
  - exact (proj1 (proj2 (proj2 (capture_start None (Some 7)
      (Dump.twai_dump_init_controller (dump_ctx (controller_at_rest true 3 1)))))
      eq_refl eq_refl)).
  - exact (proj1 (proj2 (capture_start (Some 5) (Some 7)
      (Dump.twai_dump_init_controller (dump_ctx (controller_at_rest true 3 1)))))
      eq_refl 5 7 eq_refl eq_refl).
  - exact (proj1 (capture_start (Some 5) (Some 7)
      (set_running true (Dump.twai_dump_init_controller
         (dump_ctx (controller_at_rest true 3 1))))) eq_refl).
Defined.

(** ** Helper facts on the [printf] digits *)

Lemma digit_char_cases (P : Z -> Prop) :
  P 0 -> P 1 -> P 2 -> P 3 -> P 4 -> P 5 -> P 6 -> P 7 -> P 8 -> P 9 ->
  P 10 -> P 11 -> P 12 -> P 13 -> P 14 -> P 15 ->
  forall d, 0 <= d < 16 -> P d.
Proof.
  intros. assert (d = 0 \/ d = 1 \/ d = 2 \/ d = 3 \/ d = 4 \/ d = 5 \/ d = 6
    \/ d = 7 \/ d = 8 \/ d = 9 \/ d = 10 \/ d = 11 \/ d = 12 \/ d = 13
    \/ d = 14 \/ d = 15) as Hd by lia.
  repeat (destruct Hd as [->|Hd]; [assumption|]). by subst.
Qed.

Lemma radix_value_app dv base a b :
  radix_value dv base (a ++ b)
  = fold_left (fun acc c => acc * base + dv c) b (radix_value dv base a).
Proof. unfold radix_value. by rewrite fold_left_app. Qed.

Lemma radix_value_snoc dv base a c :
  radix_value dv base (a ++ [c]) = radix_value dv base a * base + dv c.
Proof. by rewrite radix_value_app. Qed.

Lemma digits_of_value dv base :
  1 < base ->
  (forall d, 0 <= d < base -> dv (digit_char d) = d) ->
  forall k n, 0 <= n < base ^ Z.of_nat k ->
    radix_value dv base (digits_of base k n) = n.
Proof.
  intros Hb Hdv. induction k as [|k IH]; intros n Hn.
  - change (base ^ Z.of_nat 0) with 1 in Hn. cbn. lia.
  - simpl. destruct (n <? base) eqn:Hlt.
    + apply Z.ltb_lt in Hlt. unfold radix_value. cbn [fold_left]. rewrite Hdv; lia.
    + apply Z.ltb_ge in Hlt. rewrite radix_value_snoc.
      rewrite Nat2Z.inj_succ, Z.pow_succ_r in Hn by lia.
      rewrite IH.
      * rewrite Hdv by (apply Z.mod_pos_bound; lia).
        pose proof (Z.div_mod n base). lia.
      * split; [apply Z.div_pos; lia|]. apply Z.div_lt_upper_bound; lia.
Qed.

Lemma digits_of_length base k :
  forall j n, 1 < base -> (1 <= j)%nat -> 0 <= n < base ^ Z.of_nat j ->
    (1 <= length (digits_of base (S k) n) <= Nat.max 1 (Nat.min j (S k)))%nat.
Proof.
  induction k as [|k IH]; intros j n Hb Hj Hn.
  - simpl. destruct (n <? base); simpl; lia.
  - change (digits_of base (S (S k)) n)
      with (if n <? base then [digit_char n]
            else digits_of base (S k) (n / base) ++ [digit_char (n mod base)]).
    destruct (n <? base) eqn:Hlt; [simpl; lia|].
    apply Z.ltb_ge in Hlt. rewrite length_app. change (length [digit_char (n mod base)]) with 1%nat.
    destruct j as [|[|j]]; [lia| |].
    + change (Z.of_nat 1) with 1 in Hn. lia.
    + rewrite Nat2Z.inj_succ, Z.pow_succ_r in Hn by lia.
      assert (Hq : 0 <= n / base < base ^ Z.of_nat (S j)).
      { split; [apply Z.div_pos; lia|]. apply Z.div_lt_upper_bound; lia. }
      specialize (IH (S j) (n / base) Hb ltac:(lia) Hq). clear Hn Hq. lia.
Qed.

Lemma digits_of_Forall (P : ascii -> Prop) base :
  1 < base -> (forall d, 0 <= d < base -> P (digit_char d)) ->
  forall k n, 0 <= n -> Forall P (digits_of base k n).
Proof.
  intros Hb HP. induction k as [|k IH]; intros n Hn; simpl; [constructor|].
  destruct (n <? base) eqn:Hlt.
  - apply Z.ltb_lt in Hlt. repeat constructor. apply HP. lia.
  - apply Forall_app. split.
    + apply IH. apply Z.div_pos; lia.
    + repeat constructor. apply HP. apply Z.mod_pos_bound. lia.
Qed.

Lemma zero_pad_length w s :
  (length s <= w)%nat -> length (zero_pad w s) = w.
Proof. intros H. unfold zero_pad. rewrite length_app, length_replicate. lia. Qed.

Lemma radix_value_zeros dv base m :
  dv "0"%char = 0 -> radix_value dv base (replicate m "0"%char) = 0.
Proof.
  intros H0. induction m as [|m IH]; [done|].
  cbn [replicate]. rewrite replicate_cons_app. rewrite radix_value_snoc, IH, H0. lia.
Qed.

Lemma zero_pad_value dv base w s :
  dv "0"%char = 0 ->
  radix_value dv base (zero_pad w s) = radix_value dv base s.
Proof.
  intros H0. unfold zero_pad. rewrite radix_value_app, radix_value_zeros by done.
  reflexivity.
Qed.

(** ** Timestamps *)

Lemma int64_small z : - 2 ^ 63 <= z < 2 ^ 63 -> int64 z = z.
Proof. intros H. unfold int64. rewrite Z.mod_small; lia. Qed.

Lemma digit_char_decimal d :
  0 <= d < 10 -> is_decimal (digit_char d) = true /\ code (digit_char d) - code "0" = d.
Proof.
  intros H. assert (0 <= d < 16) as H16 by lia. revert H.
  pattern d. apply digit_char_cases; try done; intros; lia.
Qed.

Lemma timestamp_text_shape v :
  0 <= v < 2 ^ 63 ->
  exists sec usec,
    Dump.timestamp_text v = cs "(" ++ sec ++ cs "." ++ usec ++ cs ") " /\
    length usec = 6%nat /\
    Forall (fun c => is_decimal c = true) usec /\
    dec_value usec = v mod 1000000 /\
    Forall (fun c => is_decimal c = true) sec /\
    dec_value sec = v / 1000000.
Proof.
  intros Hv.
  exists (digits_of 10 20 (v / 1000000)),
         (zero_pad 6 (digits_of 10 20 (v mod 1000000))).
  assert (Hq : 0 <= v / 1000000 < 10 ^ Z.of_nat 20).
  { split; [apply Z.div_pos; lia|]. apply Z.div_lt_upper_bound; lia. }
  assert (Hr : 0 <= v mod 1000000 < 10 ^ Z.of_nat 6).
  { apply (Z.mod_pos_bound v 1000000). lia. }
  pose proof (digits_of_length 10 19 20 _ ltac:(lia) ltac:(lia) Hq) as Hl1.
  pose proof (digits_of_length 10 19 6 _ ltac:(lia) ltac:(lia) Hr) as Hl2.
  change (Nat.max 1 (Nat.min 20 20)) with 20%nat in Hl1.
  change (Nat.max 1 (Nat.min 6 20)) with 6%nat in Hl2.
  assert (Hdec : forall d, 0 <= d < 10 -> code (digit_char d) - code "0" = d)
    by (intros d Hd; by apply digit_char_decimal).
  repeat split.
  - unfold Dump.timestamp_text, fmt_d, fmt_0d.
    rewrite Z.quot_div_nonneg, Z.rem_mod_nonneg by lia.
    destruct (v / 1000000 <? 0) eqn:E1; [apply Z.ltb_lt in E1; lia|].
    destruct (v mod 1000000 <? 0) eqn:E2; [apply Z.ltb_lt in E2; lia|].
    apply take_ge. rewrite !length_app, zero_pad_length by lia.
    change (length (cs "(")) with 1%nat. change (length (cs ".")) with 1%nat.
    change (length (cs ") ")) with 2%nat. lia.
  - apply zero_pad_length. lia.
  - unfold zero_pad. apply Forall_app. split.
    + apply Forall_replicate. reflexivity.
    + apply digits_of_Forall; [lia| |lia]. intros d Hd. by apply digit_char_decimal.
  - unfold dec_value. rewrite zero_pad_value by reflexivity.
    apply digits_of_value; [lia|exact Hdec|].
    split; [lia|]. eapply Z.lt_le_trans; [apply Hr|]. by vm_compute.
  - apply digits_of_Forall; [lia| |lia]. intros d Hd. by apply digit_char_decimal.
  - unfold dec_value. apply digits_of_value; [lia|exact Hdec|exact Hq].
Qed.

Lemma start_controller_keeps_times qa ta d r d' acts :
  Dump.twai_dump_start_controller qa ta d = (r, d', acts) ->
  start_time_us d' = start_time_us d /\
  last_frame_time_us d' = last_frame_time_us d /\
  timestamp_mode d' = timestamp_mode d.
Proof.
  unfold Dump.twai_dump_start_controller, Dump.bind, Dump.get, Dump.emit,
    Dump.modify, Dump.ret.
  destruct (is_running d); [intros H; injection H as _ <- _; done|].
  destruct qa as [q|]; [|intros H; injection H as _ <- _; done].
  destruct ta as [t|]; intros H; injection H as _ <- _; done.
Qed.

Lemma config_mask_filters_err driver cfgs n : forall i err calls,
  Dump.config_mask_filters driver cfgs n i = (Some err, calls) -> is_ok err = false.
Proof.
  induction n as [|n IH]; intros i err calls; simpl; [intros H; discriminate H|].
  destruct (negb (is_ok (driver _))) eqn:E.
  - intros H. injection H as <- _. by apply negb_true_iff in E.
  - destruct (Dump.config_mask_filters driver cfgs n (i + 1)) as [e c] eqn:Hrec.
    intros H. injection H as -> _. by eapply IH.
Qed.

Lemma config_range_filters_err driver cfgs mc n : forall i err calls,
  Dump.config_range_filters driver cfgs mc n i = (Some err, calls) ->
  is_ok err = false.
Proof.
  induction n as [|n IH]; intros i err calls; simpl; [intros H; discriminate H|].
  destruct (negb (is_ok (driver (Dump.TwaiNodeConfigRangeFilter _ _)))) eqn:E.
  { intros H. injection H as <- _. by apply negb_true_iff in E. }
  destruct (Dump.config_range_filters driver cfgs mc n (i + 1)) as [e c] eqn:Hrec.
  destruct (mc =? 0).
  - destruct (negb (is_ok (driver (Dump.TwaiNodeConfigMaskFilter _ _)))) eqn:E'.
    + intros H. injection H as <- _. by apply negb_true_iff in E'.
    + intros H. injection H as -> _. by eapply IH.
  - intros H. injection H as -> _. by eapply IH.
Qed.

Lemma configure_filters_err driver d mc rc err calls :
  Dump.configure_filters driver d mc rc = (Some err, calls) -> is_ok err = false.
Proof.
  unfold Dump.configure_filters.
  destruct (_ || _); [|intros H; discriminate H].
  destruct (negb (is_ok (driver Dump.TwaiNodeDisable))) eqn:E0.
  { intros H. injection H as <- _. by apply negb_true_iff in E0. }
  destruct (Dump.config_mask_filters _ _ _ _) as [e1 t1] eqn:H1.
  destruct e1 as [e|].
  { intros H. injection H as <- _. by eapply config_mask_filters_err. }
  destruct (Dump.config_range_filters _ _ _ _ _) as [e2 t2] eqn:H2.
  destruct e2 as [e|].
  { intros H. injection H as <- _. by eapply config_range_filters_err. }
  destruct (negb (is_ok (driver Dump.TwaiNodeEnable))) eqn:E1;
    [|intros H; discriminate H].
  intros H. injection H as <- _. by apply negb_true_iff in E1.
Qed.

Lemma handler_time_base mask_num range_num driver qa ta now s targ c c' calls acts :
  Dump.twai_dump_handler mask_num range_num driver qa ta now s targ c
  = (Dump.ReturnEsp ESP_OK, c', calls, acts) ->
  start_time_us (dump_ctx c') = now /\ last_frame_time_us (dump_ctx c') = now.
Proof.
  unfold Dump.twai_dump_handler.
  destruct (parse_filters _ _ _ _) as [ret o| |]; try (intros H; discriminate H).
  destruct (negb (ret =? PARSE_OK)); [intros H; discriminate H|].
  destruct (negb (is_initialized c)); [intros H; discriminate H|].
  destruct (Dump.configure_filters _ _ _ _) as [e tr] eqn:Hcf.
  destruct e as [err|].
  { intros H. injection H as -> _ _ _.
    apply configure_filters_err in Hcf. discriminate Hcf. }
  destruct (match targ with Some ch => _ | None => _ end) as [m|];
    [|intros H; discriminate H].
  destruct (Dump.twai_dump_start_controller _ _ _) as [[r d5] acts5] eqn:Hs.
  apply start_controller_keeps_times in Hs. destruct Hs as (Hs1 & Hs2 & _).
  intros H. injection H as _ <- _ _. simpl. rewrite Hs1, Hs2. done.
Qed.

(** C9: with the start time and the last-frame time both at the session
    start (as the dump command leaves them on every successful start),
    delta mode on the capture times t1 < t2 < t3 renders t1 - start,
    t2 - t1 and t3 - t2 and moves the last-frame time to each frame in
    turn; zero mode renders t - start, absolute mode t, and none mode
    gives the empty string; the modes other than delta leave the context
    alone.  A rendered time reads ["(" sec "." usec ") "] where [sec] is
    the decimal of the whole seconds and [usec] the microseconds on
    exactly six decimal digits. *)
Theorem timestamp_formatting (d : twai_dump_ctx_t) (start t1 t2 t3 : Z) :
  0 <= start < 2 ^ 63 -> 0 <= t1 -> t1 < t2 -> t2 < t3 -> t3 < 2 ^ 63 ->
  start_time_us d = start -> last_frame_time_us d = start ->
  (let d0 := set_timestamp_mode TIMESTAMP_MODE_DELTA d in
   let r1 := Dump.format_timestamp d0 t1 in
   let r2 := Dump.format_timestamp (snd r1) t2 in
   let r3 := Dump.format_timestamp (snd r2) t3 in
   fst r1 = Dump.timestamp_text (t1 - start) /\
   snd r1 = set_last_frame_time t1 d0 /\
   fst r2 = Dump.timestamp_text (t2 - t1) /\
   snd r2 = set_last_frame_time t2 d0 /\
   fst r3 = Dump.timestamp_text (t3 - t2) /\
   snd r3 = set_last_frame_time t3 d0) /\
  (let d0 := set_timestamp_mode TIMESTAMP_MODE_ZERO d in
   Dump.format_timestamp d0 t1 = (Dump.timestamp_text (t1 - start), d0)) /\
  (let d0 := set_timestamp_mode TIMESTAMP_MODE_ABSOLUTE d in
   Dump.format_timestamp d0 t1 = (Dump.timestamp_text t1, d0)) /\
  (let d0 := set_timestamp_mode TIMESTAMP_MODE_NONE d in
   Dump.format_timestamp d0 t1 = ([], d0)) /\
  (forall v, 0 <= v < 2 ^ 63 ->
     exists sec usec,
       Dump.timestamp_text v = cs "(" ++ sec ++ cs "." ++ usec ++ cs ") " /\
       length usec = 6%nat /\
       Forall (fun c => is_decimal c = true) usec /\
       dec_value usec = v mod 1000000 /\
       Forall (fun c => is_decimal c = true) sec /\
       dec_value sec = v / 1000000) /\
  Dump.timestamp_text 1000042 = cs "(1.000042) " /\
  (forall mask_num range_num driver qa ta now s targ c c' calls acts,
     Dump.twai_dump_handler mask_num range_num driver qa ta now s targ c
     = (Dump.ReturnEsp ESP_OK, c', calls, acts) ->
     start_time_us (dump_ctx c') = now /\ last_frame_time_us (dump_ctx c') = now).
Proof.
  intros Hs H1 H12 H23 H3 Hstart Hlast.
  split; [|split; [|split; [|split; [|split; [|split]]]]].
  - destruct d as [run q t m st lt ms rs]. simpl in Hstart, Hlast. subst st lt.
    cbn -[int64 Dump.timestamp_text].
    rewrite !int64_small by lia. done.
  - destruct d as [run q t m st lt ms rs]. simpl in Hstart, Hlast. subst st lt.
    cbn -[int64 Dump.timestamp_text].
    rewrite !int64_small by lia. done.
  - reflexivity.
  - reflexivity.
  - apply timestamp_text_shape.
  - by vm_compute.
  - intros. by eapply handler_time_base.
Qed.

Lemma timestamp_formatting_witness :
  let d0 := set_timestamp_mode TIMESTAMP_MODE_DELTA
              (set_last_frame_time 1000 (set_start_time 1000
                 (dump_ctx (controller_at_rest true 3 1)))) in
  let r1 := Dump.format_timestamp d0 1500 in
  let r2 := Dump.format_timestamp (snd r1) 2000042 in
  let r3 := Dump.format_timestamp (snd r2) 5000000 in
  fst r1 = cs "(0.000500) " /\
  fst r2 = cs "(1.998542) " /\
  fst r3 = cs "(2.999958) " /\
  last_frame_time_us (snd r3) = 5000000.
Proof.
  pose proof (proj1 (timestamp_formatting
    (set_last_frame_time 1000 (set_start_time 1000
       (dump_ctx (controller_at_rest true 3 1))))
    1000 1500 2000042 5000000
    ltac:(lia) ltac:(lia) ltac:(lia) ltac:(lia) ltac:(lia) eq_refl eq_refl))
    as (E1 & _ & E2 & _ & E3 & E4).
  cbv zeta in *. split; [|split; [|split]].
  - rewrite E1. by vm_compute.
  - rewrite E2. by vm_compute.
  - rewrite E3. by vm_compute.
  - rewrite E4. reflexivity.
Defined.

(** ** Filter parser *)

Lemma array_store_inside {A} (arr : list A) i v :
  0 <= i < Z.of_nat (length arr) ->
  array_store arr i v = Some (<[Z.to_nat i := v]> arr).
Proof.
  intros H. unfold array_store.
  destruct (0 <=? i) eqn:E1; [|apply Z.leb_gt in E1; lia].
  destruct (i <? Z.of_nat (length arr)) eqn:E2; [done|apply Z.ltb_ge in E2; lia].
Qed.

Lemma grows_refl o : grows o o.
Proof. repeat split; auto; lia. Qed.

Lemma grows_trans o1 o2 o3 : grows o1 o2 -> grows o2 o3 -> grows o1 o3.
Proof.
  intros (L1 & L2 & C1 & C2 & M1 & R1) (L1' & L2' & C1' & C2' & M2 & R2).
  repeat split; try congruence; try lia.
  - intros i Hi. rewrite M2, M1; [done| |]; lia.
  - intros i Hi. rewrite R2, R1; [done| |]; lia.
Qed.

Lemma grows_mask o v :
  0 <= mask_count o ->
  grows o (mkOut (<[Z.to_nat (mask_count o) := v]> (masks o))
                 (mask_count o + 1) (ranges o) (range_count o)).
Proof.
  intros H. repeat split; simpl; try lia; auto using length_insert.
  intros i Hi. apply list_lookup_insert_ne. lia.
Qed.

Lemma grows_range o v :
  0 <= range_count o ->
  grows o (mkOut (masks o) (mask_count o)
                 (<[Z.to_nat (range_count o) := v]> (ranges o))
                 (range_count o + 1)).
Proof.
  intros H. repeat split; simpl; try lia; auto using length_insert.
  intros i Hi. apply list_lookup_insert_ne. lia.
Qed.

(** One token: the call returns, keeps the invariant, and changes the
    outputs only if it returns [PARSE_OK]. *)
Lemma parse_filter_token_safe mask_num range_num tok o :
  within mask_num range_num o ->
  exists ret o',
    parse_filter_token mask_num range_num tok o = Returns ret o' /\
    within mask_num range_num o' /\ grows o o' /\
    (ret <> PARSE_OK -> o' = o).
Proof.
  intros (Hm & Hr & Lm & Lr). unfold parse_filter_token.
  assert (Hw : within mask_num range_num o) by done.
  assert (Hstay : forall ret, exists ret' o',
    Returns ret o = Returns ret' o' /\ within mask_num range_num o' /\
    grows o o' /\ (ret' <> PARSE_OK -> o' = o)).
  { intros ret. exists ret, o. auto using grows_refl. }
  destruct (strchr tok ":") as [k|].
  - destruct (parse_hex_segment (take k tok) 0) as [r1 a].
    destruct (negb (r1 =? PARSE_OK)); [apply Hstay|].
    destruct (parse_hex_segment (drop (S k) tok) 0) as [r2 b].
    destruct (negb (r2 =? PARSE_OK)); [apply Hstay|].
    destruct (mask_num <=? mask_count o) eqn:E; [apply Hstay|].
    apply Z.leb_gt in E. rewrite array_store_inside by lia.
    eexists _, _. split; [reflexivity|]. split; [|split].
    + repeat split; simpl; try lia. rewrite length_insert. lia.
    + apply grows_mask. lia.
    + intros Hne. by destruct Hne.
  - destruct (strchr tok "-") as [k|]; [|apply Hstay].
    destruct (parse_hex_segment (take k tok) 0) as [r1 a].
    destruct (negb (r1 =? PARSE_OK)); [apply Hstay|].
    destruct (parse_hex_segment (drop (S k) tok) 0) as [r2 b].
    destruct (negb (r2 =? PARSE_OK) || (b <? a)); [apply Hstay|].
    destruct (range_num <=? range_count o) eqn:E; [apply Hstay|].
    apply Z.leb_gt in E. rewrite array_store_inside by lia.
    eexists _, _. split; [reflexivity|]. split; [|split].
    + repeat split; simpl; try lia. rewrite length_insert. lia.
    + apply grows_range. lia.
    + intros Hne. by destruct Hne.
Qed.

Lemma strchr_bound s c k : strchr s c = Some k -> (k < length s)%nat.
Proof.
  revert k. induction s as [|x s IH]; intros k; simpl; [discriminate|].
  destruct (Ascii.eqb x c); [intros [= <-]; lia|].
  destruct (strchr s c) as [j|]; [|discriminate].
  intros [= <-]. specialize (IH j eq_refl). lia.
Qed.

(** The loop: with a bound of at least the length of the text it never
    runs out, it returns, and it keeps the invariant. *)
Lemma parse_filters_loop_safe mask_num range_num bound :
  forall text o,
    (length text <= bound)%nat ->
    within mask_num range_num o ->
    exists ret o',
      parse_filters_loop mask_num range_num bound (Some text) o = Returns ret o' /\
      within mask_num range_num o' /\ grows o o'.
Proof.
  induction bound as [|bound IH]; intros text o Hlen Hw.
  - destruct text; [|simpl in Hlen; lia]. simpl. eauto using grows_refl.
  - destruct text as [|c s']; [simpl; eauto using grows_refl|].
    cbn [parse_filters_loop].
    set (text := c :: s') in *.
    assert (Hnext : forall o1, within mask_num range_num o1 -> grows o o1 ->
      exists ret o',
        parse_filters_loop mask_num range_num bound
          (match strchr text "," with
           | Some k => Some (drop (S k) text) | None => None end) o1
        = Returns ret o' /\ within mask_num range_num o' /\ grows o o').
    { intros o1 Hw1 Hg1. destruct (strchr text ",") as [k|] eqn:Hk.
      - destruct (IH (drop (S k) text) o1) as (ret & o' & Hrun & Hw' & Hg'); [|done|].
        + rewrite length_drop. simpl in Hlen. subst text. simpl. lia.
        + exists ret, o'. eauto using grows_trans.
      - destruct bound; simpl; eauto. }
    destruct (_ =? 0)%nat; [by apply Hnext; [|apply grows_refl]|].
    destruct (parse_filter_token_safe mask_num range_num
      (take (match strchr text "," with Some k => k | None => length text end) text)
      o Hw) as (ret & o1 & -> & Hw1 & Hg1 & _).
    destruct (negb (ret =? PARSE_OK)); [eauto|]. by apply Hnext.
Qed.

Lemma nibble_lor acc n : 0 <= acc -> 0 <= n < 16 -> Z.lor (acc * 16) n = acc * 16 + n.
Proof.
  intros Ha Hn.
  assert (Hland : Z.land (acc * 16) n = 0).
  { apply Z.bits_inj'. intros i Hi. rewrite Z.land_spec, Z.bits_0.
    destruct (Z.lt_ge_cases i 4) as [Hlow|Hhigh].
    - change 16 with (2 ^ 4). rewrite Z.mul_pow2_bits_low by lia. done.
    - destruct (Z.eq_dec n 0) as [->|Hn0]; [by rewrite Z.bits_0, andb_false_r|].
      rewrite (Z.bits_above_log2 n i); [by rewrite andb_false_r|lia|].
      assert (Z.log2 n < 4) by (apply Z.log2_lt_pow2; lia). lia. }
  rewrite <- Z.lxor_lor, <- Z.add_nocarry_lxor by done. done.
Qed.

Lemma parse_nibble_spec c n :
  parse_nibble c = Some n ->
  0 <= n < 16 /\ digit_value c = Some n /\ isxdigit c = true.
Proof.
  unfold parse_nibble, digit_value, isxdigit. intros H.
  repeat match type of H with
  | (if ?b then _ else _) = _ => destruct b eqn:?
  end; try discriminate; injection H as <-; split_tests; char_codes;
  (split; [rewrite Z.mod_small by lia; lia
          | split; [rewrite Z.mod_small by lia; done | done]]).
Qed.

Lemma parse_nibble_None c : parse_nibble c = None -> isxdigit c = false.
Proof.
  unfold parse_nibble, isxdigit. intros H.
  repeat match type of H with
  | (if ?b then _ else _) = _ => destruct b eqn:?
  end; try discriminate. done.
Qed.

Lemma parse_hex_segment_loop_value seg : forall (m : nat) acc,
  (m + length seg <= 8)%nat -> 0 <= acc < 16 ^ Z.of_nat m ->
  parse_hex_segment_loop seg acc
  = if forallb isxdigit seg
    then Some (fold_left (fun a c => a * 16 + default 0 (digit_value c)) seg acc)
    else None.
Proof.
  induction seg as [|c seg IH]; intros m acc Hm Hacc; [done|].
  cbn [parse_hex_segment_loop forallb fold_left].
  destruct (parse_nibble c) as [n|] eqn:Hc.
  - apply parse_nibble_spec in Hc as (Hn & -> & ->). cbn [andb default].
    simpl in Hm.
    assert (16 ^ Z.of_nat m <= 16 ^ 7) by (apply Z.pow_le_mono_r; lia).
    rewrite Z.shiftl_mul_pow2 by lia. change (2 ^ 4) with 16.
    rewrite Z.mod_small by lia. rewrite nibble_lor by lia.
    apply (IH (S m)); [lia|]. rewrite Nat2Z.inj_succ, Z.pow_succ_r by lia.
    unfold Datatypes.id. lia.
  - apply parse_nibble_None in Hc. by rewrite Hc.
Qed.

Lemma parse_hex_segment_spec seg out :
  parse_hex_segment seg out
  = match hex_segment seg with
    | Some v => (PARSE_OK, v)
    | None => if (length seg =? 0)%nat || (8 <? length seg)%nat
              then (PARSE_INVALID_ARG, out) else (PARSE_ERROR, out)
    end.
Proof.
  unfold parse_hex_segment, hex_segment.
  destruct (Nat.eqb_spec (length seg) 0) as [H0|H0].
  { rewrite H0. done. }
  destruct (Nat.ltb_spec 8 (length seg)) as [H8|H8].
  { replace (Z.of_nat (length seg) =? 0) with false by (symmetry; apply Z.eqb_neq; lia).
    replace (TWAI_EXT_ID_CHAR_LEN <? Z.of_nat (length seg)) with true
      by (symmetry; apply Z.ltb_lt; unfold TWAI_EXT_ID_CHAR_LEN; lia).
    replace (length seg <=? 8)%nat with false by (symmetry; apply Nat.leb_gt; lia).
    by rewrite andb_false_r. }
  replace (Z.of_nat (length seg) =? 0) with false by (symmetry; apply Z.eqb_neq; lia).
  replace (TWAI_EXT_ID_CHAR_LEN <? Z.of_nat (length seg)) with false
    by (symmetry; apply Z.ltb_ge; unfold TWAI_EXT_ID_CHAR_LEN; lia).
  replace (1 <=? length seg)%nat with true by (symmetry; apply Nat.leb_le; lia).
  replace (length seg <=? 8)%nat with true by (symmetry; apply Nat.leb_le; lia).
  cbn [orb andb].
  rewrite (parse_hex_segment_loop_value seg 0 0) by (simpl; lia).
  by destruct (forallb isxdigit seg).
Qed.

(** One token against the words of the specification. *)
Lemma parse_filter_token_spec mask_num range_num tok o :
  within mask_num range_num o ->
  parse_filter_token mask_num range_num tok o
  = let '(ret, o') := add_filter mask_num range_num (classify tok) o in
    Returns ret o'.
Proof.
  intros (Hm & Hr & Lm & Lr). unfold parse_filter_token, classify.
  destruct (strchr tok ":") as [k|].
  - rewrite !parse_hex_segment_spec.
    destruct (hex_segment (take k tok)) as [a|].
    2:{ destruct (_ || _); reflexivity. }
    cbn [negb Z.eqb PARSE_OK].
    destruct (hex_segment (drop (S k) tok)) as [b|].
    2:{ destruct (_ || _); reflexivity. }
    cbn [negb Z.eqb PARSE_OK add_filter].
    destruct (mask_num <=? mask_count o) eqn:E; [reflexivity|].
    apply Z.leb_gt in E. by rewrite array_store_inside by lia.
  - destruct (strchr tok "-") as [k|]; [|reflexivity].
    rewrite !parse_hex_segment_spec.
    destruct (hex_segment (take k tok)) as [a|].
    2:{ destruct (_ || _); reflexivity. }
    cbn [negb Z.eqb PARSE_OK].
    destruct (hex_segment (drop (S k) tok)) as [b|].
    2:{ destruct (_ || _); reflexivity. }
    cbn [negb Z.eqb PARSE_OK orb].
    rewrite (Z.leb_antisym b a). destruct (b <? a); [reflexivity|].
    cbn [negb add_filter].
    destruct (range_num <=? range_count o) eqn:E; [reflexivity|].
    apply Z.leb_gt in E. by rewrite array_store_inside by lia.
Qed.

Lemma add_filter_within mask_num range_num sp o ret o' :
  within mask_num range_num o ->
  add_filter mask_num range_num sp o = (ret, o') ->
  within mask_num range_num o'.
Proof.
  intros (Hm & Hr & Lm & Lr). unfold add_filter.
  destruct sp as [[a b|a b]|].
  - destruct (mask_num <=? mask_count o) eqn:E; intros [= <- <-]; [done|].
    apply Z.leb_gt in E. repeat split; simpl; try lia. rewrite length_insert. lia.
  - destruct (range_num <=? range_count o) eqn:E; intros [= <- <-]; [done|].
    apply Z.leb_gt in E. repeat split; simpl; try lia. rewrite length_insert. lia.
  - by intros [= <- <-].
Qed.

Lemma split_commas_strchr text :
  split_commas text
  = match strchr text "," with
    | Some k => take k text :: split_commas (drop (S k) text)
    | None => [text]
    end.
Proof.
  induction text as [|c s IH]; [done|].
  cbn [split_commas strchr]. destruct (Ascii.eqb c ","); [done|].
  rewrite IH. by destruct (strchr s ",").
Qed.

Lemma tokens_strchr text :
  tokens text
  = match strchr text "," with
    | Some k =>
        (if (k =? 0)%nat then [] else [take k text]) ++ tokens (drop (S k) text)
    | None => if (length text =? 0)%nat then [] else [text]
    end.
Proof.
  unfold tokens. rewrite split_commas_strchr.
  destruct (strchr text ",") as [k|] eqn:Hk.
  - apply strchr_bound in Hk. cbn [List.filter].
    rewrite length_take, Nat.min_l by lia.
    by destruct (k =? 0)%nat.
  - cbn [List.filter]. by destruct (length text =? 0)%nat.
Qed.

(** The loop against the token list of the specification. *)
Lemma parse_filters_loop_spec mask_num range_num bound :
  forall text o,
    (length text <= bound)%nat ->
    within mask_num range_num o ->
    parse_filters_loop mask_num range_num bound (Some text) o
    = let '(ret, o') := run_tokens mask_num range_num (tokens text) o in
      Returns ret o'.
Proof.
  induction bound as [|bound IH]; intros text o Hlen Hw.
  - destruct text; [done|simpl in Hlen; lia].
  - destruct text as [|c s']; [done|].
    cbn [parse_filters_loop]. set (text := c :: s') in *.
    rewrite (tokens_strchr text).
    destruct (strchr text ",") as [k|] eqn:Hk.
    + assert (Hdrop : (length (drop (S k) text) <= bound)%nat).
      { rewrite length_drop. subst text. simpl in *. lia. }
      destruct (k =? 0)%nat eqn:Hk0; [by apply IH|].
      cbn [app run_tokens].
      rewrite parse_filter_token_spec by done.
      destruct (add_filter mask_num range_num (classify (take k text)) o)
        as [ret o1] eqn:Hadd.
      apply add_filter_within in Hadd; [|done].
      destruct (ret =? PARSE_OK); cbn [negb]; [by apply IH|done].
    + replace (length text =? 0)%nat with false by done.
      cbn [run_tokens]. rewrite firstn_all.
      rewrite parse_filter_token_spec by done.
      destruct (add_filter mask_num range_num (classify text) o) as [ret o1].
      destruct (ret =? PARSE_OK); cbn [negb]; [|done].
      by destruct bound.
Qed.

(** [parse_filters] against the words of the specification. *)
Lemma parse_filters_spec mask_num range_num s o :
  0 <= mask_num <= Z.of_nat (length (masks o)) ->
  0 <= range_num <= Z.of_nat (length (ranges o)) ->
  parse_filters mask_num range_num s o
  = let '(ret, o') := filters_spec mask_num range_num s o in Returns ret o'.
Proof.
  intros Hm Hr. unfold parse_filters, filters_spec.
  destruct (Parser.MAX_INPUT_LEN <=? Z.of_nat (length s)); [done|].
  destruct (length s =? 0)%nat eqn:E.
  - apply Nat.eqb_eq in E. destruct s; [done|discriminate E].
  - apply parse_filters_loop_spec; [lia|]. repeat split; simpl; lia.
Qed.

Lemma strchr_None s c : strchr s c = None <-> ~ In c s.
Proof.
  induction s as [|x s IH]; simpl; [tauto|].
  destruct (Ascii.eqb_spec x c) as [->|Hne].
  - split; [discriminate|]. intros H. destruct H. by left.
  - destruct (strchr s c); simpl.
    + split; [discriminate|]. intros H. exfalso. apply H. right.
      destruct (in_dec ascii_dec c s) as [Hin|Hnot]; [done|].
      by apply IH in Hnot.
    + split; [|done]. intros _ [H|H]; [done|]. by apply IH in H.
Qed.

(** C6: [parse_filters] on ["123:7FF,010-020"] returns [PARSE_OK] with one
    mask filter (0x123, 0x7FF) in slot 0 and one range filter (0x010,
    0x020) in slot 0, both counters at 1 and the other slots untouched; on
    the empty string it returns [PARSE_OK] with both counters at 0 and the
    arrays untouched.  On every text it agrees with the grammar of the
    specification: split on commas, skip empty tokens, parse the tokens in
    order up to the first error; a token with a colon is a mask filter or
    an error, a token with a dash and no colon is a range filter with
    low <= high or an error, any other token is an error. *)
Theorem filter_parsing (mask_num range_num : Z) (o : filter_out) :
  1 <= mask_num <= Z.of_nat (length (masks o)) ->
  1 <= range_num <= Z.of_nat (length (ranges o)) ->
  parse_filters mask_num range_num (cs "123:7FF,010-020") o
  = Returns PARSE_OK
      (mkOut (<[0%nat := mkMask 0x123 0x7FF false]> (masks o)) 1
             (<[0%nat := mkRange 0x010 0x020 false]> (ranges o)) 1) /\
  parse_filters mask_num range_num [] o
  = Returns PARSE_OK (mkOut (masks o) 0 (ranges o) 0) /\
  (forall s,
     parse_filters mask_num range_num s o
     = let '(ret, o') := filters_spec mask_num range_num s o in Returns ret o') /\
  tokens (cs ",123:7FF,,010-020,") = [cs "123:7FF"; cs "010-020"] /\
  (forall tok, In ":"%char tok ->
     classify tok = None \/ exists a b, classify tok = Some (MaskFilter a b)) /\
  (forall tok, ~ In ":"%char tok -> In "-"%char tok ->
     classify tok = None \/
     exists low high, classify tok = Some (RangeFilter low high) /\ low <= high) /\
  (forall tok, ~ In ":"%char tok -> ~ In "-"%char tok -> classify tok = None) /\
  classify (cs "020-010") = None.
Proof.
  intros Hm Hr.
  assert (Hspec : forall s,
    parse_filters mask_num range_num s o
    = let '(ret, o') := filters_spec mask_num range_num s o in Returns ret o')
    by (intros s; apply parse_filters_spec; lia).
  split; [|split; [|split; [|split; [|split; [|split; [|split]]]]]].
  - rewrite Hspec. unfold filters_spec.
    change (Parser.MAX_INPUT_LEN <=? _) with false. cbv iota.
    replace (tokens (cs "123:7FF,010-020")) with [cs "123:7FF"; cs "010-020"]
      by (by vm_compute).
    cbn [run_tokens].
    replace (classify (cs "123:7FF")) with (Some (MaskFilter 0x123 0x7FF))
      by (by vm_compute).
    replace (classify (cs "010-020")) with (Some (RangeFilter 0x010 0x020))
      by (by vm_compute).
    cbn [add_filter mask_count range_count masks ranges].
    destruct (mask_num <=? 0) eqn:E1; [apply Z.leb_le in E1; lia|].
    cbn [Z.eqb PARSE_OK add_filter mask_count range_count masks ranges].
    destruct (range_num <=? 0) eqn:E2; [apply Z.leb_le in E2; lia|].
    reflexivity.
  - reflexivity.
  - exact Hspec.
  - by vm_compute.
  - intros tok Hin. unfold classify.
    destruct (strchr tok ":") as [k|] eqn:Hk.
    + destruct (hex_segment (take k tok)); [|by left].
      destruct (hex_segment (drop (S k) tok)); [right; eauto|by left].
    + apply strchr_None in Hk. done.
  - intros tok Hcolon Hdash. unfold classify.
    apply strchr_None in Hcolon. rewrite Hcolon.
    destruct (strchr tok "-") as [k|]; [|by left].
    destruct (hex_segment (take k tok)) as [a|]; [|by left].
    destruct (hex_segment (drop (S k) tok)) as [b|]; [|by left].
    destruct (a <=? b) eqn:E; [|by left].
    apply Z.leb_le in E. right. eauto.
  - intros tok Hcolon Hdash. unfold classify.
    apply strchr_None in Hcolon, Hdash. by rewrite Hcolon, Hdash.
  - by vm_compute.
Qed.

Lemma filter_parsing_witness :
  parse_filters 3 1 (cs "123:7FF,010-020") (cleared_out 3 1)
  = Returns PARSE_OK
      (mkOut [mkMask 0x123 0x7FF false; mkMask 0 0 false; mkMask 0 0 false] 1
             [mkRange 0x010 0x020 false] 1).
Proof.
  exact (proj1 (filter_parsing 3 1 (cleared_out 3 1)
    ltac:(vm_compute; split; discriminate) ltac:(vm_compute; split; discriminate))).
Defined.

(** [parse_filters] past its length guard: it returns, without a store
    outside the arrays, and what it leaves grew from the emptied outputs. *)
Lemma parse_filters_grows (mask_num range_num : Z) (s : cstring) (o : filter_out) :
  0 <= mask_num <= Z.of_nat (length (masks o)) ->
  0 <= range_num <= Z.of_nat (length (ranges o)) ->
  Z.of_nat (length s) < Parser.MAX_INPUT_LEN ->
  exists ret o',
    parse_filters mask_num range_num s o = Returns ret o' /\
    within mask_num range_num o' /\
    grows (mkOut (masks o) 0 (ranges o) 0) o'.
Proof.
  intros Hm Hr Hlen. unfold parse_filters.
  replace (Parser.MAX_INPUT_LEN <=? Z.of_nat (length s)) with false
    by (symmetry; apply Z.leb_gt; lia).
  set (o0 := mkOut (masks o) 0 (ranges o) 0).
  assert (Hw : within mask_num range_num o0) by (repeat split; simpl; lia).
  destruct (length s =? 0)%nat.
  - exists PARSE_OK, o0. auto using grows_refl.
  - apply parse_filters_loop_safe; [lia|done].
Qed.

(** C10, as stated, fails: a text of 256 characters makes
    [parse_filters] return [PARSE_ERROR] at its length guard, before it
    has written the counters.  The counters it leaves are the caller's,
    here 7 and 9, above the capacities 3 and 1. *)
Lemma filter_counts_unbounded_counterexample :
  let o := mkOut (masks (cleared_out 3 1)) 7 (ranges (cleared_out 3 1)) 9 in
  parse_filters 3 1 (replicate 256 "1"%char) o = Returns PARSE_ERROR o /\
  3 < mask_count o /\ 1 < range_count o.
Proof. cbn zeta. split; [by vm_compute|]. by vm_compute. Qed.

(** C10, amended: for every input string and every caller state whose
    arrays have room for the hardware capacities, [parse_filters] returns
    without a store outside the arrays; the arrays keep their extent and
    no entry at or above the capacity is touched, so at most
    [SOC_TWAI_MASK_FILTER_NUM] mask entries and [SOC_TWAI_RANGE_FILTER_NUM]
    range entries are written.  On a text below [MAX_INPUT_LEN] the
    returned counters lie between 0 and the capacities, on success and on
    error, and no entry at or above a returned counter is touched.  On a
    text of [MAX_INPUT_LEN] characters or more it returns [PARSE_ERROR]
    and writes nothing, the counters included: they are then what the
    caller passed in. *)
Theorem filter_outputs_bounded (mask_num range_num : Z) (s : cstring)
    (o : filter_out) :
  0 <= mask_num <= Z.of_nat (length (masks o)) ->
  0 <= range_num <= Z.of_nat (length (ranges o)) ->
  exists ret o',
    parse_filters mask_num range_num s o = Returns ret o' /\
    length (masks o') = length (masks o) /\
    length (ranges o') = length (ranges o) /\
    (forall i : nat, mask_num <= Z.of_nat i -> masks o' !! i = masks o !! i) /\
    (forall i : nat, range_num <= Z.of_nat i -> ranges o' !! i = ranges o !! i) /\
    (if Parser.MAX_INPUT_LEN <=? Z.of_nat (length s)
     then ret = PARSE_ERROR /\ o' = o
     else
       0 <= mask_count o' <= mask_num /\
       0 <= range_count o' <= range_num /\
       (forall i : nat,
          mask_count o' <= Z.of_nat i -> masks o' !! i = masks o !! i) /\
       (forall i : nat,
          range_count o' <= Z.of_nat i -> ranges o' !! i = ranges o !! i)).
Proof.
  intros Hm Hr.
  destruct (Parser.MAX_INPUT_LEN <=? Z.of_nat (length s)) eqn:Hguard.
  - exists PARSE_ERROR, o. unfold parse_filters. rewrite Hguard.
    repeat split; done.
  - apply Z.leb_gt in Hguard.
    destruct (parse_filters_grows mask_num range_num s o Hm Hr Hguard)
      as (ret & o' & Hrun & (Hcm & Hcr & _ & _) & Hg).
    destruct Hg as (L1 & L2 & _ & _ & M & R).
    exists ret, o'. repeat split; try done; try lia.
    + intros i Hi. rewrite M; [done|]. right. lia.
    + intros i Hi. rewrite R; [done|]. right. lia.
    + intros i Hi. rewrite M; [done|]. by right.
    + intros i Hi. rewrite R; [done|]. by right.
Qed.

Lemma filter_outputs_bounded_witness :
  exists ret o',
    parse_filters 3 1 (cs "1:1,2:2,3:3,4:4") (cleared_out 3 1) = Returns ret o' /\
    ret = PARSE_OUT_OF_RANGE /\ mask_count o' = 3 /\ range_count o' = 0 /\
    length (masks o') = 3%nat.
Proof.
  destruct (filter_outputs_bounded 3 1 (cs "1:1,2:2,3:3,4:4") (cleared_out 3 1)
    ltac:(vm_compute; split; discriminate) ltac:(vm_compute; split; discriminate))
    as (ret & o' & Hrun & Hl & _).
  exists ret, o'. split; [exact Hrun|].
  vm_compute in Hrun. injection Hrun as <- <-. by vm_compute.
Defined.

(** C5, as stated, fails: ["123:7FF,zz"] makes [parse_filters] return
    [PARSE_ERROR] with the mask counter at 1 and the filter of the first
    token stored in slot 0 of the caller's array. *)
Lemma parse_error_partial_counterexample :
  exists o',
    parse_filters 3 1 (cs "123:7FF,zz") (cleared_out 3 1) = Returns PARSE_ERROR o' /\
    mask_count o' = 1 /\
    masks o' !! 0%nat = Some (mkMask 0x123 0x7FF false) /\
    masks (cleared_out 3 1) !! 0%nat = Some (mkMask 0 0 false).
Proof. eexists. split; [by vm_compute|]. by vm_compute. Qed.

(** C5, amended: when [parse_filters] returns an error the dump command
    returns that code at once, with no driver call and without starting
    the capture, so no filter is applied.  The outputs themselves are not
    rolled back: the context holds what [parse_filters] left, which is the
    cleared arrays except for the slots below the returned counters, and
    the counters are within the capacities. *)
Theorem parse_error_applies_no_filter (mask_num range_num : Z)
    (driver : Dump.driver_call -> esp_err_t) (queue_alloc task_alloc : option handle)
    (current_time : Z) (filter_str : cstring) (timestamp_arg : option ascii)
    (c : twai_controller_ctx_t) (ret : Z) (o' : filter_out) :
  let zm := map (fun _ => Dump.zero_mask) (mask_filter_configs (dump_ctx c)) in
  let zr := map (fun _ => Dump.zero_range) (range_filter_configs (dump_ctx c)) in
  0 <= mask_num <= Z.of_nat (length zm) ->
  0 <= range_num <= Z.of_nat (length zr) ->
  parse_filters mask_num range_num filter_str (mkOut zm 0 zr 0) = Returns ret o' ->
  ret <> PARSE_OK ->
  Dump.twai_dump_handler mask_num range_num driver queue_alloc task_alloc
    current_time filter_str timestamp_arg c
  = (Dump.ReturnParse ret,
     set_dump_ctx (set_filter_configs (masks o') (ranges o') (dump_ctx c)) c,
     [], []) /\
  0 <= mask_count o' <= mask_num /\
  0 <= range_count o' <= range_num /\
  (forall i : nat, mask_count o' <= Z.of_nat i -> masks o' !! i = zm !! i) /\
  (forall i : nat, range_count o' <= Z.of_nat i -> ranges o' !! i = zr !! i).
Proof.
  intros zm zr Hm Hr Hrun Hret. split.
  - unfold Dump.twai_dump_handler. fold zm zr. rewrite Hrun.
    destruct (ret =? PARSE_OK) eqn:E; [apply Z.eqb_eq in E; done|]. reflexivity.
  - destruct (Z.lt_ge_cases (Z.of_nat (length filter_str)) Parser.MAX_INPUT_LEN)
      as [Hlen|Hlen].
    + destruct (parse_filters_grows mask_num range_num filter_str (mkOut zm 0 zr 0)
        Hm Hr Hlen) as (ret' & o'' & Hrun' & (Hcm & Hcr & _ & _) & Hg).
      rewrite Hrun in Hrun'. injection Hrun' as <- <-.
      destruct Hg as (_ & _ & _ & _ & M & R). cbn [masks ranges] in M, R.
      repeat split; try lia.
      * intros i Hi. apply M. by right.
      * intros i Hi. apply R. by right.
    + unfold parse_filters in Hrun.
      replace (Parser.MAX_INPUT_LEN <=? Z.of_nat (length filter_str)) with true
        in Hrun by (symmetry; apply Z.leb_le; lia).
      injection Hrun as _ <-. cbn. repeat split; try done; lia.
Qed.

Lemma parse_error_applies_no_filter_witness :
  exists o',
    parse_filters 3 1 (cs "123:7FF,zz") (cleared_out 3 1) = Returns PARSE_ERROR o' /\
    Dump.twai_dump_handler 3 1 (fun _ => ESP_OK) (Some 5) (Some 7) 1000
      (cs "123:7FF,zz") None (controller_at_rest true 3 1)
    = (Dump.ReturnParse PARSE_ERROR,
       set_dump_ctx
         (set_filter_configs (masks o') (ranges o')
            (dump_ctx (controller_at_rest true 3 1)))
         (controller_at_rest true 3 1),
       [], []).
Proof.
  eexists. split; [by vm_compute|].
  refine (proj1 (parse_error_applies_no_filter 3 1 (fun _ => ESP_OK) (Some 5) (Some 7)
    1000 (cs "123:7FF,zz") None (controller_at_rest true 3 1) PARSE_ERROR _
    _ _ _ _)).
  - by vm_compute.
  - by vm_compute.
  - by vm_compute.
  - discriminate.
Defined.

(** ** Round trip between the dump formatter and the decoder *)

Lemma digit_char_hex d :
  0 <= d < 16 ->
  parse_nibble (digit_char d) = Some d /\
  digit_value (digit_char d) = Some d /\
  isxdigit (digit_char d) = true /\
  isspace (digit_char d) = false /\
  Forall (fun c => Ascii.eqb (digit_char d) c = false)
    (cs ".Rr_-+xX").
Proof.
  intros H. pattern d. apply digit_char_cases; [..|exact H];
    (split; [reflexivity|split; [reflexivity|split; [reflexivity|
      split; [reflexivity|repeat constructor]]]]).
Qed.

Lemma fmt_byte b :
  0 <= b < 256 -> fmt_0X 2 b = [digit_char (b / 16); digit_char (b mod 16)].
Proof.
  intros Hb. unfold fmt_0X.
  change (digits_of 16 20 b)
    with (if b <? 16 then [digit_char b]
          else digits_of 16 19 (b / 16) ++ [digit_char (b mod 16)]).
  destruct (b <? 16) eqn:E.
  - apply Z.ltb_lt in E. rewrite Z.div_small, Z.mod_small by lia. reflexivity.
  - apply Z.ltb_ge in E.
    assert (0 <= b / 16 < 16).
    { split; [apply Z.div_pos; lia|apply Z.div_lt_upper_bound; lia]. }
    change (digits_of 16 19 (b / 16))
      with (if b / 16 <? 16 then [digit_char (b / 16)]
            else digits_of 16 18 (b / 16 / 16) ++ [digit_char (b / 16 mod 16)]).
    destruct (b / 16 <? 16) eqn:E'; [reflexivity|apply Z.ltb_ge in E'; lia].
Qed.

(** The payload reader on the text of [bytes]: it stores them from
    [cnt] on and stops at the end of the text. *)
Lemma parse_payload_loop_bytes max bytes : forall buf (cnt : nat),
  Forall (fun b => 0 <= b < 256) bytes ->
  Z.of_nat (cnt + length bytes) <= max ->
  (cnt + length bytes <= length buf)%nat ->
  parse_payload_loop (concat (map (fmt_0X 2) bytes)) buf (Z.of_nat cnt) max
  = (Z.of_nat (cnt + length bytes),
     take cnt buf ++ bytes ++ drop (cnt + length bytes) buf).
Proof.
  induction bytes as [|b bs IH]; intros buf cnt Hall Hmax Hbuf.
  - simpl. rewrite Nat.add_0_r, take_drop. done.
  - apply Forall_cons in Hall as [Hb Hall]. simpl in Hmax, Hbuf.
    cbn [map concat]. rewrite fmt_byte by done. cbn [app].
    assert (Hhi : 0 <= b / 16 < 16).
    { split; [apply Z.div_pos; lia|apply Z.div_lt_upper_bound; lia]. }
    assert (Hlo : 0 <= b mod 16 < 16) by (apply Z.mod_pos_bound; lia).
    destruct (digit_char_hex _ Hhi) as (Hn1 & _ & Hx1 & _ & Hc1).
    destruct (digit_char_hex _ Hlo) as (Hn2 & _ & Hx2 & _ & _).
    apply Forall_cons in Hc1 as [Hdot _].
    cbn [parse_payload_loop].
    replace (Z.of_nat cnt <? max) with true by (symmetry; apply Z.ltb_lt; lia).
    cbn [negb]. rewrite Hdot, Hx1, Hx2, Hn1, Hn2. cbn [negb].
    assert (Hval : Z.lor (Z.shiftl (b / 16) 4) (b mod 16) = b).
    { rewrite Z.shiftl_mul_pow2 by lia. change (2 ^ 4) with 16.
      rewrite nibble_lor by lia. pose proof (Z.div_mod b 16). lia. }
    unfold store_byte. rewrite Hval, Z.mod_small by lia.
    rewrite Nat2Z.id.
    replace (Z.of_nat cnt + 1) with (Z.of_nat (S cnt)) by lia.
    rewrite IH; [|done|lia|rewrite length_insert; lia].
    cbn [length]. f_equal; [f_equal; lia|].
    rewrite (take_S_r _ _ b) by (apply list_lookup_insert_eq; lia).
    rewrite take_insert_ge by lia.
    rewrite drop_insert_lt by lia.
    rewrite <- app_assoc. cbn [app].
    by replace (cnt + S (length bs))%nat with (S cnt + length bs)%nat by lia.
Qed.

Lemma skip_pairs_bytes dl bytes : forall seen,
  Forall (fun b => 0 <= b < 256) bytes ->
  seen + Z.of_nat (length bytes) <= dl ->
  skip_pairs (concat (map (fmt_0X 2) bytes)) seen dl = [].
Proof.
  induction bytes as [|b bs IH]; intros seen Hall Hdl; [done|].
  apply Forall_cons in Hall as [Hb Hall]. simpl in Hdl.
  cbn [map concat]. rewrite fmt_byte by done. cbn [app].
  assert (Hhi : 0 <= b / 16 < 16).
  { split; [apply Z.div_pos; lia|apply Z.div_lt_upper_bound; lia]. }
  assert (Hlo : 0 <= b mod 16 < 16) by (apply Z.mod_pos_bound; lia).
  destruct (digit_char_hex _ Hhi) as (_ & _ & Hx1 & _ & Hc1).
  destruct (digit_char_hex _ Hlo) as (_ & _ & Hx2 & _ & _).
  apply Forall_cons in Hc1 as [Hdot _].
  cbn [skip_pairs].
  replace (seen <? dl) with true by (symmetry; apply Z.ltb_lt; lia).
  cbn [negb]. rewrite Hdot, Hx1, Hx2. cbn [negb]. apply IH; [done|lia].
Qed.

Lemma fmt_0X_facts (w : nat) v :
  (1 <= w <= 20)%nat -> 0 <= v < 16 ^ Z.of_nat w ->
  length (fmt_0X w v) = w /\
  Forall (fun c => exists d, 0 <= d < 16 /\ c = digit_char d) (fmt_0X w v) /\
  hex_value (fmt_0X w v) = v.
Proof.
  intros Hw Hv. unfold fmt_0X.
  pose proof (digits_of_length 16 19 w v ltac:(lia) ltac:(lia) Hv) as Hlen.
  replace (Nat.max 1 (Nat.min w 20)) with w in Hlen by lia.
  split; [|split].
  - apply zero_pad_length. lia.
  - unfold zero_pad. apply Forall_app. split.
    + apply Forall_replicate. exists 0. by split.
    + apply digits_of_Forall; [lia| |lia]. intros d Hd. by exists d.
  - unfold hex_value. rewrite zero_pad_value by reflexivity.
    apply digits_of_value; [lia| |].
    + intros d Hd. by destruct (digit_char_hex d Hd) as (_ & -> & _).
    + split; [lia|]. eapply Z.lt_le_trans; [apply Hv|].
      apply Z.pow_le_mono_r; lia.
Qed.

Lemma hex_fold_ge text : forall a,
  0 <= a ->
  a <= fold_left (fun a c => a * 16 + default 0 (digit_value c)) text a.
Proof.
  induction text as [|c text IH]; intros a Ha; [simpl; lia|].
  cbn [fold_left].
  assert (0 <= default 0 (digit_value c)).
  { destruct (digit_value c) as [d|] eqn:Hd; [|done].
    apply digit_value_nonneg in Hd. simpl. lia. }
  etrans; [|apply IH]; lia.
Qed.

Lemma strtoul_digits_hex text : forall acc n rest,
  Forall (fun c => exists d, 0 <= d < 16 /\ c = digit_char d) text ->
  0 <= acc ->
  fold_left (fun a c => a * 16 + default 0 (digit_value c)) text acc <= ULONG_MAX ->
  digit_value (peek rest) = None ->
  strtoul_digits (text ++ rest) acc false n
  = (fold_left (fun a c => a * 16 + default 0 (digit_value c)) text acc,
     false, (n + length text)%nat).
Proof.
  induction text as [|c text IH]; intros acc n rest Hall Hacc Hmax Hrest.
  - cbn [app fold_left length]. rewrite Nat.add_0_r.
    destruct rest as [|r rest]; [done|]. simpl in Hrest. simpl. by rewrite Hrest.
  - apply Forall_cons in Hall as [(d & Hd & ->) Hall].
    destruct (digit_char_hex d Hd) as (_ & Hdv & _).
    cbn [app strtoul_digits fold_left length] in *. rewrite Hdv in *.
    change (default 0 (Some d)) with d in *. cbn [orb].
    pose proof (hex_fold_ge text (acc * 16 + d) ltac:(lia)) as Hge.
    replace (ULONG_MAX <? acc * 16 + d) with false
      by (symmetry; apply Z.ltb_ge; lia).
    rewrite IH by (done || lia). f_equal. lia.
Qed.

Lemma strtoul16_hex text rest :
  (2 <= length text)%nat ->
  Forall (fun c => exists d, 0 <= d < 16 /\ c = digit_char d) text ->
  hex_value text <= ULONG_MAX ->
  digit_value (peek rest) = None ->
  strtoul16 (text ++ rest) = (hex_value text, length text).
Proof.
  intros Hlen Hall Hmax Hrest.
  destruct text as [|c0 [|c1 text']]; [simpl in Hlen; lia..|].
  pose proof Hall as Hall'.
  apply Forall_cons in Hall' as [(d0 & Hd0 & ->) Hall'].
  apply Forall_cons in Hall' as [(d1 & Hd1 & ->) _].
  destruct (digit_char_hex d0 Hd0) as (_ & _ & _ & Hsp & Hc0).
  destruct (digit_char_hex d1 Hd1) as (_ & _ & _ & _ & Hc1).
  do 4 apply Forall_cons in Hc0 as [_ Hc0].
  apply Forall_cons in Hc0 as [Hminus Hc0]. apply Forall_cons in Hc0 as [Hplus _].
  do 6 apply Forall_cons in Hc1 as [_ Hc1].
  apply Forall_cons in Hc1 as [Hx Hc1]. apply Forall_cons in Hc1 as [HX _].
  unfold strtoul16. cbn [app skip_space]. rewrite Hsp, Hminus, Hplus.
  assert (Hpre :
    (match digit_char d0 :: digit_char d1 :: text' ++ rest with
     | z :: x :: h :: t =>
         if Ascii.eqb z "0" && (Ascii.eqb x "x" || Ascii.eqb x "X") && isxdigit h
         then (h :: t, 2%nat)
         else (digit_char d0 :: digit_char d1 :: text' ++ rest, 0%nat)
     | _ => (digit_char d0 :: digit_char d1 :: text' ++ rest, 0%nat)
     end) = (digit_char d0 :: digit_char d1 :: text' ++ rest, 0%nat)).
  { destruct (text' ++ rest); [done|]. rewrite Hx, HX.
    by rewrite andb_false_r. }
  rewrite Hpre.
  change (digit_char d0 :: digit_char d1 :: text' ++ rest)
    with ((digit_char d0 :: digit_char d1 :: text') ++ rest).
  rewrite strtoul_digits_hex; [|done|lia|done|done].
  cbn [length Nat.add Nat.eqb]. reflexivity.
Qed.

Lemma parse_twai_id_field (item : Dump.rx_queue_item_t) body f :
  0 <= id (Dump.item_header item)
    <= (if ide (Dump.item_header item) then TWAI_EXT_ID_MASK else TWAI_STD_ID_MASK) ->
  parse_twai_id (Dump.id_field item ++ cs "#" ++ body)
    (Z.of_nat (length (Dump.id_field item))) f
  = (PARSE_OK,
     with_header (fun h => set_ide (ide (Dump.item_header item))
                             (set_id (id (Dump.item_header item)) h)) f).
Proof.
  intros Hid. unfold Dump.id_field, parse_twai_id, parse_hex_id.
  destruct (ide (Dump.item_header item)).
  - unfold TWAI_EXT_ID_MASK in Hid.
    destruct (fmt_0X_facts 8 (id (Dump.item_header item)) ltac:(lia)
      ltac:(change (16 ^ Z.of_nat 8) with 4294967296; lia)) as (Hl & Hall & Hv).
    rewrite Hl. cbn [Z.of_nat Pos.of_succ_nat Pos.succ Z.eqb orb Z.ltb Z.compare
      TWAI_EXT_ID_CHAR_LEN Pos.compare Pos.compare_cont].
    rewrite strtoul16_hex; [|lia|done|rewrite Hv; unfold ULONG_MAX; lia|done].
    rewrite Hl, Hv. cbn [Z.of_nat Pos.of_succ_nat Pos.succ Z.eqb Pos.eqb negb].
    change (TWAI_STD_ID_CHAR_LEN <? 8) with true. cbn [andb negb].
    replace (TWAI_EXT_ID_MASK <? id (Dump.item_header item)) with false
      by (symmetry; apply Z.ltb_ge; unfold TWAI_EXT_ID_MASK; lia).
    rewrite Z.mod_small by lia. reflexivity.
  - unfold TWAI_STD_ID_MASK in Hid.
    destruct (fmt_0X_facts 3 (id (Dump.item_header item)) ltac:(lia)
      ltac:(change (16 ^ Z.of_nat 3) with 4096; lia)) as (Hl & Hall & Hv).
    rewrite Hl. cbn [Z.of_nat Pos.of_succ_nat Pos.succ Z.eqb orb Z.ltb Z.compare
      TWAI_EXT_ID_CHAR_LEN Pos.compare Pos.compare_cont].
    rewrite strtoul16_hex; [|lia|done|rewrite Hv; unfold ULONG_MAX; lia|done].
    rewrite Hl, Hv. cbn [Z.of_nat Pos.of_succ_nat Pos.succ Z.eqb Pos.eqb negb].
    change (TWAI_STD_ID_CHAR_LEN <? 3) with false. cbn [andb negb].
    replace (TWAI_STD_ID_MASK <? id (Dump.item_header item)) with false
      by (symmetry; apply Z.ltb_ge; unfold TWAI_STD_ID_MASK; lia).
    rewrite Z.mod_small by lia. reflexivity.
Qed.

Lemma byte_fields_take (item : Dump.rx_queue_item_t) (k : nat) :
  (k <= length (Dump.data item))%nat ->
  map (Dump.byte_field item) (seqZ 0 (Z.of_nat k))
  = map (fmt_0X 2) (take k (Dump.data item)).
Proof.
  induction k as [|k IH]; intros Hk; [done|].
  rewrite seqZ_S, map_app, IH by lia. cbn [map].
  destruct (lookup_lt_is_Some_2 (Dump.data item) k ltac:(lia)) as [b Hb].
  rewrite (take_S_r _ _ b) by done. rewrite map_app. cbn [map].
  f_equal. unfold Dump.byte_field.
  replace (Z.to_nat (0 + Z.of_nat k)) with k by lia.
  by rewrite (nth_lookup_Some _ _ _ _ Hb).
Qed.

Lemma parse_classic_frame_bytes bytes f :
  Forall (fun b => 0 <= b < 256) bytes ->
  Z.of_nat (length bytes) <= TWAI_MAX_DATA_LEN ->
  (length bytes <= length (buffer f))%nat ->
  parse_classic_frame (concat (map (fmt_0X 2) bytes)) f
  = (PARSE_OK,
     with_buffer_len (Z.of_nat (length bytes))
       (with_header (set_dlc (Z.of_nat (length bytes)))
          (with_buffer (bytes ++ drop (length bytes) (buffer f)) f))).
Proof.
  intros Hall Hmax Hbuf. unfold parse_classic_frame.
  assert (Hpeek : Ascii.eqb (peek (concat (map (fmt_0X 2) bytes))) "R"
                  || Ascii.eqb (peek (concat (map (fmt_0X 2) bytes))) "r" = false).
  { destruct bytes as [|b bs]; [done|].
    apply Forall_cons in Hall as [Hb _].
    cbn [map concat]. rewrite fmt_byte by done. cbn [app peek hd].
    assert (Hhi : 0 <= b / 16 < 16).
    { split; [apply Z.div_pos; lia|apply Z.div_lt_upper_bound; lia]. }
    destruct (digit_char_hex _ Hhi) as (_ & _ & _ & _ & Hc).
    apply Forall_cons in Hc as [_ Hc]. apply Forall_cons in Hc as [HR Hc].
    apply Forall_cons in Hc as [Hr _]. by rewrite HR, Hr. }
  rewrite Hpeek. unfold parse_payload.
  change (TWAI_MAX_DATA_LEN <=? 0) with false. cbv iota.
  pose proof (parse_payload_loop_bytes TWAI_MAX_DATA_LEN bytes (buffer f) 0
    Hall ltac:(simpl; lia) ltac:(simpl; lia)) as Hloop.
  change (Z.of_nat 0) with 0 in Hloop.
  change (0 + length bytes)%nat with (length bytes) in Hloop.
  change (take 0 (buffer f)) with (@nil Z) in Hloop. cbn [app] in Hloop.
  rewrite Hloop.
  replace (Z.of_nat (length bytes) <? 0) with false by (symmetry; apply Z.ltb_ge; lia).
  rewrite skip_pairs_bytes by (done || lia). cbn [peek hd].
  change (Ascii.eqb NUL "_") with false. cbv iota.
  unfold TWAI_MAX_DATA_LEN in Hmax. rewrite Z.mod_small by lia. reflexivity.
Qed.


(** *** The dump line is made of the relayed fields *)

Lemma snprintf_at_fits out pos max_len text :
  pos = Z.of_nat (length out) ->
  Z.of_nat (length out) + Z.of_nat (length text) < max_len ->
  snprintf_at out pos max_len text
  = (out ++ text, Z.of_nat (length (out ++ text))).
Proof.
  intros -> Hfit. unfold snprintf_at.
  rewrite Nat2Z.id, firstn_all. rewrite take_ge by lia.
  rewrite length_app. f_equal. lia.
Qed.

Lemma digits_of_length_le base k n : (length (digits_of base k n) <= k)%nat.
Proof.
  revert n. induction k as [|k IH]; intros n; simpl; [lia|].
  destruct (n <? base); simpl; [lia|].
  rewrite length_app. simpl. specialize (IH (n / base)). lia.
Qed.

Lemma fmt_d_length v : (length (fmt_d v) <= 21)%nat.
Proof.
  unfold fmt_d. destruct (v <? 0); cbn [length];
    [pose proof (digits_of_length_le 10 20 (- v))
    |pose proof (digits_of_length_le 10 20 v)]; lia.
Qed.

Lemma format_timestamp_length d t :
  (length (fst (Dump.format_timestamp d t)) <= 63)%nat.
Proof.
  unfold Dump.format_timestamp, Dump.timestamp_text.
  destruct (timestamp_mode d); cbn [fst]; rewrite ?length_take; cbn [length]; lia.
Qed.

Lemma byte_field_length (item : Dump.rx_queue_item_t) i :
  Forall (fun b => 0 <= b < 256) (Dump.data item) ->
  length (Dump.byte_field item i) = 2%nat.
Proof.
  intros Hall. unfold Dump.byte_field. rewrite fmt_byte; [done|].
  destruct (nth_lookup_or_length (Dump.data item) (Z.to_nat i) 0) as [Hin|Hout].
  - rewrite Forall_lookup in Hall. by apply (Hall _ _ Hin).
  - rewrite nth_overflow by lia. lia.
Qed.

Lemma data_text_length (item : Dump.rx_queue_item_t) (n : nat) :
  Forall (fun b => 0 <= b < 256) (Dump.data item) ->
  forall i,
    length (concat (map (fun j => cs "  " ++ Dump.byte_field item j)
                      (seqZ i (Z.of_nat n)))) = (4 * n)%nat.
Proof.
  intros Hall. induction n as [|n IH]; intros i; [done|].
  rewrite (seqZ_cons i (Z.of_nat (S n))) by lia. cbn [map concat].
  replace (Z.pred (Z.of_nat (S n))) with (Z.of_nat n) by lia.
  rewrite !length_app, IH, byte_field_length by done. cbn [cs length list_ascii_of_string].
  lia.
Qed.

Lemma bytes_loop_fits (item : Dump.rx_queue_item_t) max_len (n : nat) :
  Forall (fun b => 0 <= b < 256) (Dump.data item) ->
  forall i out,
    Z.of_nat (length out) + 4 * Z.of_nat n <= max_len - 4 ->
    Dump.bytes_loop item n i out (Z.of_nat (length out)) max_len
    = (out ++ concat (map (fun j => cs "  " ++ Dump.byte_field item j)
                        (seqZ i (Z.of_nat n))),
       Z.of_nat (length (out ++ concat (map (fun j => cs "  " ++ Dump.byte_field item j)
                                          (seqZ i (Z.of_nat n)))))).
Proof.
  intros Hall. induction n as [|n IH]; intros i out Hfit.
  - simpl. by rewrite app_nil_r.
  - cbn [Dump.bytes_loop].
    replace (Z.of_nat (length out) <? max_len - 4) with true
      by (symmetry; apply Z.ltb_lt; lia).
    assert (Hl : length (cs "  " ++ Dump.byte_field item i) = 4%nat).
    { rewrite length_app, byte_field_length by done. reflexivity. }
    rewrite snprintf_at_fits by (done || lia).
    rewrite IH by (rewrite length_app, Hl; lia).
    rewrite (seqZ_cons i (Z.of_nat (S n))) by lia. cbn [map concat].
    replace (Z.pred (Z.of_nat (S n))) with (Z.of_nat n) by lia.
    replace (Z.succ i) with (i + 1) by lia.
    by rewrite <- !app_assoc.
Qed.

Lemma actual_len_short (fd : bool) (item : Dump.rx_queue_item_t) :
  short_record item ->
  rtr (Dump.item_header item) = false ->
  Dump.actual_len fd item = Dump.data_len item.
Proof.
  intros (_ & Hlen & _ & Hdlc & _) Hrtr. unfold Dump.actual_len.
  rewrite (Hdlc Hrtr). destruct (fd && fdf (Dump.item_header item)); [|done].
  unfold twaifd_dlc2len, TWAI_FRAME_MAX_LEN in *.
  by replace (Dump.data_len item <=? 8) with true by (symmetry; apply Z.leb_le; lia).
Qed.

Lemma dump_line_fields (fd : bool) (d : twai_dump_ctx_t)
    (item : Dump.rx_queue_item_t) (controller_id : Z) :
  short_record item ->
  fst (Dump.format_twaidump_frame fd d item controller_id Dump.DUMP_OUTPUT_LINE_SIZE)
  = fst (Dump.format_timestamp d (Dump.timestamp_us item))
    ++ cs "twai" ++ fmt_d controller_id ++ cs "  "
    ++ Dump.id_field item ++ cs "  "
    ++ Dump.length_field fd item
    ++ (if rtr (Dump.item_header item) then [] else data_fields fd item)
    ++ [chr 10].
Proof.
  intros Hrec. pose proof (actual_len_short fd item Hrec) as Hal0.
  destruct Hrec as (Hid & Hlen & Hrtr & Hdlc & Hroom & Hbytes).
  unfold Dump.format_twaidump_frame, Dump.DUMP_OUTPUT_LINE_SIZE.
  pose proof (format_timestamp_length d (Dump.timestamp_us item)) as Hts.
  destruct (Dump.format_timestamp d (Dump.timestamp_us item)) as [ts d'].
  cbn [fst] in *.
  assert (H0 : (if (0 <? length ts)%nat then snprintf_at [] 0 512 ts else ([], 0))
               = (ts, Z.of_nat (length ts))).
  { destruct ts; [done|]. cbn [length Nat.ltb Nat.leb].
    rewrite snprintf_at_fits; [done|done|simpl in *; lia]. }
  rewrite H0.
  pose proof (fmt_d_length controller_id) as Hcid.
  rewrite snprintf_at_fits; [|done|rewrite !length_app; simpl; lia].
  assert (Hidl : (length (Dump.id_field item) <= 8)%nat).
  { unfold Dump.id_field. destruct (ide (Dump.item_header item)).
    - unfold TWAI_EXT_ID_MASK in Hid.
      by destruct (fmt_0X_facts 8 (id (Dump.item_header item)) ltac:(lia)
        ltac:(change (16 ^ Z.of_nat 8) with 4294967296; lia)) as (-> & _).
    - unfold TWAI_STD_ID_MASK in Hid.
      destruct (fmt_0X_facts 3 (id (Dump.item_header item)) ltac:(lia)
        ltac:(change (16 ^ Z.of_nat 3) with 4096; lia)) as (-> & _). lia. }
  rewrite snprintf_at_fits; [|done|rewrite !length_app; simpl; lia].
  assert (Hlf : (length (Dump.length_field fd item) <= 24)%nat).
  { unfold Dump.length_field.
    destruct (rtr (Dump.item_header item)); rewrite !length_app; simpl;
      [pose proof (fmt_d_length (dlc (Dump.item_header item)))
      |pose proof (fmt_d_length (Dump.actual_len fd item))]; lia. }
  destruct (rtr (Dump.item_header item)) eqn:Ertr.
  - rewrite snprintf_at_fits; [|done|rewrite !length_app; simpl; lia].
    replace (_ <? 512 - 1) with true
      by (symmetry; apply Z.ltb_lt; rewrite !length_app; simpl; lia).
    rewrite snprintf_at_fits; [|done|rewrite !length_app; simpl; lia].
    cbn [fst]. by rewrite <- !app_assoc.
  - rewrite snprintf_at_fits; [|done|rewrite !length_app; simpl; lia].
    assert (Hal : 0 <= Dump.actual_len fd item <= 8).
    { rewrite (Hal0 eq_refl). unfold TWAI_FRAME_MAX_LEN in Hlen. lia. }
    pose proof (data_text_length item (Z.to_nat (Dump.actual_len fd item)) Hbytes 0)
      as Hdf.
    rewrite Z2Nat.id in Hdf by lia.
    rewrite bytes_loop_fits; [|done|rewrite !length_app; simpl; lia].
    rewrite Z2Nat.id by lia. fold (data_fields fd item) in Hdf |- *.
    replace (_ <? 512 - 1) with true
      by (symmetry; apply Z.ltb_lt; rewrite !length_app, Hdf; simpl; lia).
    rewrite snprintf_at_fits; [|done|rewrite !length_app, Hdf; simpl; lia].
    cbn [fst]. by rewrite <- !app_assoc.
Qed.

(** C1, as stated, fails.  A classic record under the legacy exception
    (three payload bytes, data-length code 8) is written with eight data
    bytes and reads back with a payload of eight bytes; a flexible-rate
    record of twelve bytes is written with twelve data bytes, of which the
    decoder keeps eight. *)
Lemma dump_roundtrip_counterexample :
  (Dump.data_len legacy_item <= TWAI_FRAME_MAX_LEN /\
   let r := decode_relayed false legacy_item (Send.fresh_frame 8) in
   fst r = PARSE_OK /\
   item_payload legacy_item = [0xAA; 0xBB; 0xCC] /\
   payload (snd r) = [0xAA; 0xBB; 0xCC; 0; 0; 0; 0; 0]) /\
  (Dump.data_len flexible_item <= TWAIFD_FRAME_MAX_LEN /\
   let r := decode_relayed true flexible_item (Send.fresh_frame 64) in
   fst r = PARSE_OK /\
   item_payload flexible_item = [1; 2; 3; 4; 5; 6; 7; 8; 9; 10; 11; 12] /\
   payload (snd r) = [1; 2; 3; 4; 5; 6; 7; 8]).
Proof. by vm_compute. Qed.

(** C1, amended: for every frame record that keeps the invariants of the
    data model (identifier within the range of its width, no payload on a
    remote request), has at most eight payload bytes and, on a data frame,
    a data-length code equal to the payload length, the line of the dump
    formatter consists of the time stamp, the controller name and the
    three frame fields, and these fields (identifier digits, [R] marker
    or data bytes), relayed to [parse_twai_id] and [parse_classic_frame]
    over a fresh frame, decode successfully to the same identifier, the
    same width, the same remote/data kind and the same payload bytes. *)
Theorem dump_roundtrip (fd : bool) (item : Dump.rx_queue_item_t) (size : Z) :
  short_record item ->
  TWAI_MAX_DATA_LEN <= size ->
  let r := decode_relayed fd item (Send.fresh_frame size) in
  fst r = PARSE_OK /\
  id (header (snd r)) = id (Dump.item_header item) /\
  ide (header (snd r)) = ide (Dump.item_header item) /\
  rtr (header (snd r)) = rtr (Dump.item_header item) /\
  payload (snd r) = item_payload item /\
  (forall d controller_id,
     fst (Dump.format_twaidump_frame fd d item controller_id
            Dump.DUMP_OUTPUT_LINE_SIZE)
     = fst (Dump.format_timestamp d (Dump.timestamp_us item))
       ++ cs "twai" ++ fmt_d controller_id ++ cs "  "
       ++ Dump.id_field item ++ cs "  "
       ++ Dump.length_field fd item
       ++ (if rtr (Dump.item_header item) then [] else data_fields fd item)
       ++ [chr 10]).
Proof.
  intros Hrec Hsize.
  cut (let r := decode_relayed fd item (Send.fresh_frame size) in
       fst r = PARSE_OK /\
       id (header (snd r)) = id (Dump.item_header item) /\
       ide (header (snd r)) = ide (Dump.item_header item) /\
       rtr (header (snd r)) = rtr (Dump.item_header item) /\
       payload (snd r) = item_payload item).
  { intros (H1 & H2 & H3 & H4 & H5). repeat split; try done.
    intros d controller_id. by apply dump_line_fields. }
  pose proof (actual_len_short fd item Hrec) as Hal0.
  destruct Hrec as (Hid & Hlen & Hrtr & Hdlc & Hroom & Hbytes).
  unfold decode_relayed, relay_text.
  rewrite parse_twai_id_field by done.
  change (negb (PARSE_OK =? PARSE_OK)) with false. cbv iota.
  unfold relay_body, item_payload.
  destruct (rtr (Dump.item_header item)) eqn:Ertr.
  - rewrite (Hrtr eq_refl). unfold parse_classic_frame.
    cbn [cs list_ascii_of_string app peek hd tl].
    change (Ascii.eqb "R" "R") with true. cbn [orb].
    destruct (isxdigit _); by cbn.
  - specialize (Hdlc eq_refl).
    rewrite (Hal0 eq_refl).
    set (n := Z.to_nat (Dump.data_len item)).
    replace (Dump.data_len item) with (Z.of_nat n) by lia.
    rewrite byte_fields_take by lia.
    assert (Hn : length (take n (Dump.data item)) = n)
      by (rewrite length_take; lia).
    unfold TWAI_FRAME_MAX_LEN in Hlen. unfold TWAI_MAX_DATA_LEN in Hsize.
    rewrite parse_classic_frame_bytes.
    + rewrite Hn. cbn. unfold payload. cbn.
      rewrite Nat2Z.id, take_app_length'; done.
    + by apply Forall_take.
    + rewrite Hn. unfold TWAI_MAX_DATA_LEN. lia.
    + rewrite Hn. cbn. rewrite length_replicate. lia.
Qed.

Lemma dump_roundtrip_witness :
  let r := decode_relayed true sample_item (Send.fresh_frame 8) in
  fst r = PARSE_OK /\
  id (header (snd r)) = 0x123 /\
  ide (header (snd r)) = false /\
  rtr (header (snd r)) = false /\
  payload (snd r) = [0xAA; 0xBB; 0xCC] /\
  fst (Dump.format_twaidump_frame true
         (dump_ctx (controller_at_rest true 3 1)) sample_item 0
         Dump.DUMP_OUTPUT_LINE_SIZE)
  = cs "twai0  123  [3]  AA  BB  CC" ++ [chr 10].
Proof.
  assert (Hrec : short_record sample_item).
  { unfold short_record. cbn.
    repeat split; try discriminate; try done.
    repeat constructor; discriminate. }
  destruct (dump_roundtrip true sample_item 8 Hrec ltac:(discriminate))
    as (H1 & H2 & H3 & H4 & H5 & H6).
  split; [exact H1|]. split; [exact H2|]. split; [exact H3|].
  split; [exact H4|]. split; [exact H5|].
  rewrite H6. by vm_compute.
Defined.

(** * Further properties of the code *)

(** ** Hex digits and segments *)

Lemma hex_fold_bound seg : forall (m : nat) acc,
  0 <= acc < 16 ^ Z.of_nat m ->
  0 <= fold_left (fun a c => a * 16 + default 0 (digit_value c)) seg acc
    < 16 ^ Z.of_nat (m + length seg).
Proof.
  induction seg as [|c seg IH]; intros m acc Hacc.
  - simpl. by rewrite Nat.add_0_r.
  - cbn [fold_left length].
    replace (m + S (length seg))%nat with (S m + length seg)%nat by lia.
    apply IH. rewrite Nat2Z.inj_succ, Z.pow_succ_r by lia.
    destruct (digit_value c) as [d|] eqn:Hd.
    + apply digit_value_nonneg in Hd. cbn [default]. unfold Datatypes.id. lia.
    + cbn [default]. lia.
Qed.

Lemma hex_value_bound seg : 0 <= hex_value seg < 16 ^ Z.of_nat (length seg).
Proof. apply (hex_fold_bound seg 0 0). simpl. lia. Qed.

Lemma forallb_Forall_true {A} (f : A -> bool) (l : list A) :
  forallb f l = true <-> Forall (fun c => f c = true) l.
Proof.
  induction l as [|x l IH]; cbn [forallb].
  - split; [constructor|done].
  - rewrite andb_true_iff, Forall_cons, IH. done.
Qed.

(** X1: the two nibble decoders accept the same characters, the hex
    digits in either case, and give the same value 0..15 on them; on
    every other character [parse_nibble] fails and [asc2nibble] returns
    0xFF. *)
Theorem nibble_decoders_agree (c : ascii) :
  match parse_nibble c with
  | Some v => Send.asc2nibble c = v /\ 0 <= v <= 15 /\ isxdigit c = true
  | None => Send.asc2nibble c = 0xFF /\ isxdigit c = false
  end.
Proof.
  destruct (parse_nibble c) as [v|] eqn:Hc.
  - destruct (parse_nibble_spec c v Hc) as (Hv & _ & Hx).
    split; [|split; [lia|exact Hx]].
    revert Hc. unfold parse_nibble, Send.asc2nibble.
    repeat match goal with
    | |- context [if ?b then _ else _] => destruct b
    end; congruence.
  - split; [|by apply parse_nibble_None].
    revert Hc. unfold parse_nibble, Send.asc2nibble.
    repeat match goal with
    | |- context [if ?b then _ else _] => destruct b
    end; congruence.
Qed.

(** X2: [parse_hex_segment] returns [PARSE_OK] exactly on a segment of
    one to eight hex digits; the value it stores is the base-16 value of
    the digits, below 16^length; [PARSE_INVALID_ARG] is the answer to an
    empty or over-long segment, and on every failure the caller's output
    is left as it was. *)
Theorem parse_hex_segment_accepts (seg : cstring) (out : Z) :
  let r := parse_hex_segment seg out in
  (fst r = PARSE_OK <->
     (1 <= length seg <= 8)%nat /\ Forall (fun c => isxdigit c = true) seg) /\
  (fst r = PARSE_OK ->
     snd r = hex_value seg /\ 0 <= snd r < 16 ^ Z.of_nat (length seg)) /\
  (fst r = PARSE_INVALID_ARG <-> (length seg = 0 \/ 8 < length seg)%nat) /\
  (fst r <> PARSE_OK -> snd r = out).
Proof.
  cbn zeta. rewrite parse_hex_segment_spec. unfold hex_segment.
  destruct (Nat.leb_spec 1 (length seg)) as [H1|H1];
    destruct (Nat.leb_spec (length seg) 8) as [H8|H8]; cbn [andb].
  - destruct (forallb isxdigit seg) eqn:Hall.
    + apply forallb_Forall_true in Hall. cbn [fst snd].
      pose proof (hex_value_bound seg) as Hb.
      repeat split; try done; try lia.
    + replace (length seg =? 0)%nat with false by (symmetry; apply Nat.eqb_neq; lia).
      replace (8 <? length seg)%nat with false by (symmetry; apply Nat.ltb_ge; lia).
      cbn [orb fst snd]. unfold PARSE_ERROR, PARSE_OK, PARSE_INVALID_ARG.
      repeat split; try done; try lia.
      intros [_ HF]. apply forallb_Forall_true in HF. congruence.
  - replace (length seg =? 0)%nat with false by (symmetry; apply Nat.eqb_neq; lia).
    replace (8 <? length seg)%nat with true by (symmetry; apply Nat.ltb_lt; lia).
    cbn [orb fst snd]. unfold PARSE_OK, PARSE_INVALID_ARG.
    repeat split; try done; try lia.
  - replace (length seg =? 0)%nat with true by (symmetry; apply Nat.eqb_eq; lia).
    cbn [orb fst snd]. unfold PARSE_OK, PARSE_INVALID_ARG.
    repeat split; try done; try lia.
  - lia.
Qed.

(** X3: a value printed with [%0wX] (1 <= w <= 8, as the [%08X] of the
    filter log) is read back by [parse_hex_segment]. *)
Theorem hex_segment_roundtrip (w : nat) (v out : Z) :
  (1 <= w <= 8)%nat -> 0 <= v < 16 ^ Z.of_nat w ->
  parse_hex_segment (fmt_0X w v) out = (PARSE_OK, v).
Proof.
  intros Hw Hv.
  destruct (fmt_0X_facts w v) as (Hlen & Hdig & Hval); [lia|done|].
  rewrite parse_hex_segment_spec. unfold hex_segment. rewrite Hlen, Hval.
  replace (1 <=? w)%nat with true by (symmetry; apply Nat.leb_le; lia).
  replace (w <=? 8)%nat with true by (symmetry; apply Nat.leb_le; lia).
  replace (forallb isxdigit (fmt_0X w v)) with true; [done|].
  symmetry. apply forallb_Forall_true.
  eapply Forall_impl; [exact Hdig|]. intros x (d & Hd & ->).
  by destruct (digit_char_hex d Hd) as (_ & _ & Hxd & _).
Qed.

Lemma hex_segment_roundtrip_witness :
  parse_hex_segment (fmt_0X 8 0x7FF) 0 = (PARSE_OK, 0x7FF).
Proof. apply hex_segment_roundtrip; [lia|vm_compute; split; [discriminate|reflexivity]]. Defined.

(** ** The payload reader *)

Lemma parse_payload_loop_frame (n : nat) :
  forall s buf cnt max r b,
    (length s <= n)%nat -> 0 <= cnt <= max ->
    parse_payload_loop s buf cnt max = (r, b) ->
    (r = PARSE_ERROR \/ cnt <= r <= max) /\
    length b = length buf /\
    (forall i : nat, Z.of_nat i < cnt \/ max <= Z.of_nat i -> b !! i = buf !! i) /\
    (0 <= r -> forall i : nat, r <= Z.of_nat i -> b !! i = buf !! i) /\
    (byte_list buf -> byte_list b).
Proof.
  assert (Hstop : forall (buf : list Z) cnt max r b,
            0 <= cnt <= max -> (r = PARSE_ERROR \/ r = cnt) -> b = buf ->
            (r = PARSE_ERROR \/ cnt <= r <= max) /\
            length b = length buf /\
            (forall i : nat, Z.of_nat i < cnt \/ max <= Z.of_nat i -> b !! i = buf !! i) /\
            (0 <= r -> forall i : nat, r <= Z.of_nat i -> b !! i = buf !! i) /\
            (byte_list buf -> byte_list b)).
  { intros buf cnt max r b Hc Hr ->. repeat split; try done.
    destruct Hr as [->| ->]; [by left|right; lia]. }
  induction n as [|n IH]; intros s buf cnt max r b Hlen Hcnt Hrun.
  - destruct s; [|simpl in Hlen; lia]. simpl in Hrun. injection Hrun as <- <-.
    apply Hstop; auto.
  - destruct s as [|c0 s1]; simpl in Hrun.
    { injection Hrun as <- <-. apply Hstop; auto. }
    simpl in Hlen.
    destruct (cnt <? max) eqn:Hlt; cbn [negb] in Hrun.
    2:{ injection Hrun as <- <-. apply Hstop; auto. }
    apply Z.ltb_lt in Hlt.
    destruct (Ascii.eqb c0 "."). { eapply IH; [| |exact Hrun]; lia. }
    destruct (negb (isxdigit c0)).
    { destruct (cnt =? 0); injection Hrun as <- <-; apply Hstop; auto. }
    destruct s1 as [|c1 s2]. { injection Hrun as <- <-. apply Hstop; auto. }
    simpl in Hlen.
    destruct (negb (isxdigit c1)). { injection Hrun as <- <-. apply Hstop; auto. }
    destruct (parse_nibble c0) as [hi|]; [|injection Hrun as <- <-; apply Hstop; auto].
    destruct (parse_nibble c1) as [lo|]; [|injection Hrun as <- <-; apply Hstop; auto].
    apply IH in Hrun as (Hr & Hl & Hout & Hin & Hby); [|lia|lia].
    unfold store_byte in *. rewrite length_insert in Hl.
    split; [destruct Hr; [by left|right; lia]|].
    split; [done|].
    split; [|split].
    + intros i Hi. rewrite Hout by lia. apply list_lookup_insert_ne. lia.
    + intros Hr0 i Hi.
      assert (cnt + 1 <= r) by (destruct Hr as [->|]; [unfold PARSE_ERROR in *|]; lia).
      rewrite Hin by lia. apply list_lookup_insert_ne. lia.
    + intros HB. apply Hby. apply Forall_insert; [done|].
      apply Z.mod_pos_bound. lia.
Qed.

(** X4: [parse_payload] on a buffer with room for [max] bytes returns
    [PARSE_ERROR] or a count from 0 to [max]; the buffer keeps its extent
    and its entries are bytes; no entry at or beyond [max] is changed,
    and on success none at or beyond the returned count. *)
Theorem parse_payload_bounds (s : cstring) (buf : list Z) (max r : Z)
    (buf' : list Z) :
  0 < max <= Z.of_nat (length buf) ->
  parse_payload s buf max = (r, buf') ->
  (r = PARSE_ERROR \/ 0 <= r <= max) /\
  length buf' = length buf /\
  (forall i : nat, max <= Z.of_nat i -> buf' !! i = buf !! i) /\
  (0 <= r -> forall i : nat, r <= Z.of_nat i -> buf' !! i = buf !! i) /\
  (byte_list buf -> byte_list buf').
Proof.
  intros Hmax. unfold parse_payload.
  replace (max <=? 0) with false by (symmetry; apply Z.leb_gt; lia).
  intros Hrun.
  destruct (parse_payload_loop_frame (length s) s buf 0 max r buf')
    as (Hr & Hl & Hout & Hin & Hby); [lia|lia|done|].
  repeat split; try done.
  intros i Hi. apply Hout. by right.
Qed.

Lemma parse_payload_bounds_witness :
  let r := parse_payload (cs "11.22ZZ") [0; 0; 0; 0; 0; 0; 0; 9] 8 in
  (fst r = PARSE_ERROR \/ 0 <= fst r <= 8) /\
  length (snd r) = 8%nat /\
  (forall i : nat, 8 <= Z.of_nat i -> snd r !! i = [0; 0; 0; 0; 0; 0; 0; 9] !! i) /\
  (0 <= fst r ->
   forall i : nat, fst r <= Z.of_nat i -> snd r !! i = [0; 0; 0; 0; 0; 0; 0; 9] !! i) /\
  (byte_list [0; 0; 0; 0; 0; 0; 0; 9] -> byte_list (snd r)).
Proof.
  apply (parse_payload_bounds (cs "11.22ZZ") [0; 0; 0; 0; 0; 0; 0; 9] 8).
  - simpl. lia.
  - reflexivity.
Defined.

(** One byte of hex text in front of the payload reader. *)
Lemma parse_payload_loop_byte b tail buf cnt max :
  0 <= b < 256 -> 0 <= cnt < max ->
  parse_payload_loop (fmt_0X 2 b ++ tail) buf cnt max
  = parse_payload_loop tail (<[Z.to_nat cnt := b]> buf) (cnt + 1) max.
Proof.
  intros Hb Hcnt. rewrite fmt_byte by done. cbn [app].
  assert (Hhi : 0 <= b / 16 < 16).
  { split; [apply Z.div_pos; lia|apply Z.div_lt_upper_bound; lia]. }
  assert (Hlo : 0 <= b mod 16 < 16) by (apply Z.mod_pos_bound; lia).
  destruct (digit_char_hex _ Hhi) as (Hn1 & _ & Hx1 & _ & Hc1).
  destruct (digit_char_hex _ Hlo) as (Hn2 & _ & Hx2 & _ & _).
  apply Forall_cons in Hc1 as [Hdot _].
  cbn [parse_payload_loop].
  replace (cnt <? max) with true by (symmetry; apply Z.ltb_lt; lia).
  cbn [negb]. rewrite Hdot, Hx1, Hx2, Hn1, Hn2. cbn [negb].
  assert (Hval : Z.lor (Z.shiftl (b / 16) 4) (b mod 16) = b).
  { rewrite Z.shiftl_mul_pow2 by lia. change (2 ^ 4) with 16.
    rewrite nibble_lor by lia. pose proof (Z.div_mod b 16). lia. }
  unfold store_byte. by rewrite Hval, Z.mod_small by lia.
Qed.

(** Storing [b] at [cnt] extends the part of the buffer already
    written. *)
Lemma take_insert_snoc (buf : list Z) (cnt : nat) b (l : list Z) (k : nat) :
  (cnt < length buf)%nat ->
  take (S cnt) (<[cnt := b]> buf) ++ l ++ drop (S cnt + k) (<[cnt := b]> buf)
  = take cnt buf ++ (b :: l) ++ drop (cnt + S k) buf.
Proof.
  intros Hc.
  rewrite (take_S_r _ _ b) by (apply list_lookup_insert_eq; lia).
  rewrite take_insert_ge by lia.
  rewrite drop_insert_lt by lia.
  rewrite <- app_assoc. cbn [app].
  by replace (cnt + S k)%nat with (S cnt + k)%nat by lia.
Qed.

Lemma parse_payload_loop_dotted max bytes : forall buf (cnt : nat),
  byte_list bytes ->
  Z.of_nat (cnt + length bytes) <= max ->
  (cnt + length bytes <= length buf)%nat ->
  parse_payload_loop (dotted_hex bytes) buf (Z.of_nat cnt) max
  = (Z.of_nat (cnt + length bytes),
     take cnt buf ++ bytes ++ drop (cnt + length bytes) buf).
Proof.
  induction bytes as [|b bs IH]; intros buf cnt Hall Hmax Hbuf.
  - simpl. rewrite Nat.add_0_r, take_drop. done.
  - apply Forall_cons in Hall as [Hb Hall]. cbn [length] in Hmax, Hbuf.
    destruct bs as [|b' bs'].
    + cbn [dotted_hex]. rewrite <- (app_nil_r (fmt_0X 2 b)).
      rewrite parse_payload_loop_byte by lia. cbn [parse_payload_loop length].
      rewrite Nat2Z.id. f_equal; [lia|].
      rewrite <- (take_insert_snoc buf cnt b [] 0) by lia.
      cbn [app]. rewrite Nat.add_0_r. by rewrite take_drop.
    + change (dotted_hex (b :: b' :: bs'))
        with (fmt_0X 2 b ++ "."%char :: dotted_hex (b' :: bs')).
      rewrite parse_payload_loop_byte by lia.
      cbn [length] in Hmax, Hbuf.
      cbn [parse_payload_loop].
      replace (Z.of_nat cnt + 1 <? max) with true by (symmetry; apply Z.ltb_lt; lia).
      cbn [negb]. change (Ascii.eqb "." ".") with true. cbv iota.
      rewrite Nat2Z.id.
      replace (Z.of_nat cnt + 1) with (Z.of_nat (S cnt)) by lia.
      rewrite IH; [|done|cbn [length]; lia|rewrite length_insert; cbn [length]; lia].
      f_equal; [f_equal; cbn [length]; lia|].
      apply take_insert_snoc. lia.
Qed.

(** X5: a payload written as hex pairs with a dot between the bytes
    ([11.22.33]) is read back by [parse_payload]: the count is the number
    of bytes, the bytes are at the start of the buffer and the rest of
    the buffer is untouched. *)
Theorem parse_payload_dotted (bytes buf : list Z) (max : Z) :
  byte_list bytes ->
  0 < max -> Z.of_nat (length bytes) <= max ->
  (length bytes <= length buf)%nat ->
  parse_payload (dotted_hex bytes) buf max
  = (Z.of_nat (length bytes), bytes ++ drop (length bytes) buf).
Proof.
  intros Hall Hmax Hlen Hbuf. unfold parse_payload.
  replace (max <=? 0) with false by (symmetry; apply Z.leb_gt; lia).
  change 0 with (Z.of_nat 0).
  rewrite parse_payload_loop_dotted by (simpl; done).
  reflexivity.
Qed.

Lemma parse_payload_dotted_witness :
  parse_payload (cs "11.22.33") (replicate 8 0) 8 = (3, [0x11; 0x22; 0x33; 0; 0; 0; 0; 0]).
Proof.
  apply (parse_payload_dotted [0x11; 0x22; 0x33] (replicate 8 0) 8).
  - repeat constructor; lia.
  - lia.
  - simpl; lia.
  - simpl; lia.
Defined.

(** ** The dedicated frame parsers *)

(** The payload reader on the text of [bytes] followed by more text. *)
Lemma parse_payload_loop_prefix max bytes tail : forall buf (cnt : nat),
  byte_list bytes ->
  Z.of_nat (cnt + length bytes) <= max ->
  (cnt + length bytes <= length buf)%nat ->
  parse_payload_loop (concat (map (fmt_0X 2) bytes) ++ tail) buf (Z.of_nat cnt) max
  = parse_payload_loop tail
      (take cnt buf ++ bytes ++ drop (cnt + length bytes) buf)
      (Z.of_nat (cnt + length bytes)) max.
Proof.
  induction bytes as [|b bs IH]; intros buf cnt Hall Hmax Hbuf.
  - simpl. by rewrite Nat.add_0_r, take_drop.
  - apply Forall_cons in Hall as [Hb Hall]. cbn [length] in Hmax, Hbuf.
    cbn [map concat]. rewrite <- app_assoc.
    rewrite parse_payload_loop_byte by lia. rewrite Nat2Z.id.
    replace (Z.of_nat cnt + 1) with (Z.of_nat (S cnt)) by lia.
    rewrite IH; [|done|lia|rewrite length_insert; lia].
    cbn [length]. rewrite take_insert_snoc by lia.
    by replace (S cnt + length bs)%nat with (cnt + S (length bs))%nat by lia.
Qed.

Lemma skip_pairs_prefix dl bytes tail : forall seen,
  byte_list bytes ->
  seen + Z.of_nat (length bytes) <= dl ->
  skip_pairs (concat (map (fmt_0X 2) bytes) ++ tail) seen dl
  = skip_pairs tail (seen + Z.of_nat (length bytes)) dl.
Proof.
  induction bytes as [|b bs IH]; intros seen Hall Hdl.
  - simpl. by rewrite Z.add_0_r.
  - apply Forall_cons in Hall as [Hb Hall]. cbn [length] in Hdl.
    cbn [map concat]. rewrite fmt_byte by done. cbn [app].
    assert (Hhi : 0 <= b / 16 < 16).
    { split; [apply Z.div_pos; lia|apply Z.div_lt_upper_bound; lia]. }
    assert (Hlo : 0 <= b mod 16 < 16) by (apply Z.mod_pos_bound; lia).
    destruct (digit_char_hex _ Hhi) as (_ & _ & Hx1 & _ & Hc1).
    destruct (digit_char_hex _ Hlo) as (_ & _ & Hx2 & _ & _).
    apply Forall_cons in Hc1 as [Hdot _].
    cbn [skip_pairs].
    replace (seen <? dl) with true by (symmetry; apply Z.ltb_lt; lia).
    cbn [negb]. rewrite Hdot, Hx1, Hx2. cbn [negb].
    rewrite IH by (done || lia). f_equal. cbn [length]. lia.
Qed.

(** The first character of the text of a byte is an upper-case hex
    digit. *)
Lemma peek_hex_text bytes tail :
  byte_list bytes -> (1 <= length bytes)%nat ->
  exists d, 0 <= d < 16 /\
    peek (concat (map (fmt_0X 2) bytes) ++ tail) = digit_char d.
Proof.
  intros Hall Hlen. destruct bytes as [|b bs]; [simpl in Hlen; lia|].
  apply Forall_cons in Hall as [Hb _]. cbn [map concat].
  rewrite fmt_byte by done. exists (b / 16). split; [|done].
  split; [apply Z.div_pos; lia|apply Z.div_lt_upper_bound; lia].
Qed.

(** X6: behind at least one complete byte, [parse_classic_frame] takes
    every character that is neither a hex digit nor a dot nor an
    underscore as the end of the payload: it returns [PARSE_OK] with the
    bytes read so far and ignores the rest of the text.  In front of the
    first byte the characters [R] and [r] start a remote request, which
    is accepted with no payload; every other such character of the text
    is a [PARSE_ERROR] that leaves the frame as it was.  (The terminator
    is not a character of the text: a body that ends before its first
    byte is accepted as a data frame with no payload.) *)
Theorem parse_classic_frame_trailing (bytes : list Z) (c : ascii)
    (rest : cstring) (f : twai_frame_t) :
  byte_list bytes ->
  (1 <= length bytes <= 8)%nat ->
  (length bytes <= length (buffer f))%nat ->
  isxdigit c = false -> c <> "."%char -> c <> "_"%char ->
  parse_classic_frame (concat (map (fmt_0X 2) bytes) ++ c :: rest) f
  = (PARSE_OK,
     with_buffer_len (Z.of_nat (length bytes))
       (with_header (set_dlc (Z.of_nat (length bytes)))
          (with_buffer (bytes ++ drop (length bytes) (buffer f)) f))) /\
  (if Ascii.eqb c "R" || Ascii.eqb c "r"
   then fst (parse_classic_frame (c :: rest) f) = PARSE_OK /\
        rtr (header (snd (parse_classic_frame (c :: rest) f))) = true /\
        buffer_len (snd (parse_classic_frame (c :: rest) f)) = 0 /\
        buffer (snd (parse_classic_frame (c :: rest) f)) = buffer f
   else c <> NUL -> parse_classic_frame (c :: rest) f = (PARSE_ERROR, f)) /\
  parse_classic_frame [] f
  = (PARSE_OK, with_buffer_len 0 (with_header (set_dlc 0) f)).
Proof.
  intros Hall Hlen Hbuf Hx Hdot Hus.
  apply Ascii.eqb_neq in Hdot, Hus.
  split; [|split; [|by destruct f]].
  - unfold parse_classic_frame.
    destruct (peek_hex_text bytes (c :: rest) Hall) as (d & Hd & ->); [lia|].
    destruct (digit_char_hex d Hd) as (_ & _ & _ & _ & Hne).
    apply Forall_cons in Hne as [_ Hne].
    apply Forall_cons in Hne as [HneR Hne].
    apply Forall_cons in Hne as [Hner _].
    rewrite HneR, Hner. cbn [orb].
    unfold parse_payload, TWAI_MAX_DATA_LEN. cbn [Z.leb Z.compare].
    change 0 with (Z.of_nat 0).
    rewrite parse_payload_loop_prefix by (done || simpl; lia).
    rewrite take_0. cbn [app Nat.add]. change (Z.of_nat 0) with 0.
    assert (Hstop : parse_payload_loop (c :: rest)
              (bytes ++ drop (length bytes) (buffer f))
              (Z.of_nat (length bytes)) 8
            = (Z.of_nat (length bytes), bytes ++ drop (length bytes) (buffer f))).
    { cbn [parse_payload_loop]. destruct (_ <? 8); cbn [negb]; [|done].
      rewrite Hdot, Hx. cbn [negb].
      by replace (Z.of_nat (length bytes) =? 0) with false
        by (symmetry; apply Z.eqb_neq; lia). }
    rewrite Hstop.
    replace (Z.of_nat (length bytes) <? 0) with false
      by (symmetry; apply Z.ltb_ge; lia).
    rewrite skip_pairs_prefix by (done || simpl; lia).
    cbn [skip_pairs]. rewrite Z.add_0_l, Z.ltb_irrefl. cbn [negb peek hd].
    rewrite Hus. rewrite Z.mod_small by lia. done.
  - unfold parse_classic_frame. cbn [peek hd].
    destruct (Ascii.eqb c "R" || Ascii.eqb c "r") eqn:HR.
    + destruct (isxdigit (peek _)); cbn [fst snd]; destruct f; cbn; repeat split.
    + intros _.
      unfold parse_payload, TWAI_MAX_DATA_LEN. cbn [Z.leb Z.compare].
      cbn [parse_payload_loop Z.ltb Z.compare negb]. rewrite Hdot, Hx.
      cbn [negb Z.eqb]. unfold PARSE_ERROR. cbn [Z.ltb Z.compare].
      by destruct f.
Qed.

Lemma parse_classic_frame_trailing_witness :
  parse_classic_frame (cs "11ZZ") (Send.fresh_frame 8)
  = (PARSE_OK,
     mkFrame (mkHeader 0 1 false false false false false)
       [0x11; 0; 0; 0; 0; 0; 0; 0] 1) /\
  parse_classic_frame (cs "ZZ") (Send.fresh_frame 8)
  = (PARSE_ERROR, Send.fresh_frame 8).
Proof.
  destruct (parse_classic_frame_trailing [0x11] "Z" (cs "Z") (Send.fresh_frame 8))
    as (Hbehind & Hfront & _).
  - repeat constructor; lia.
  - simpl; lia.
  - simpl; lia.
  - reflexivity.
  - discriminate.
  - discriminate.
  - split; [exact Hbehind|]. apply Hfront. discriminate.
Defined.

(** X7: when [parse_classic_frame] returns [PARSE_OK], the identifier
    and the flags [ide], [fdf], [brs], [esi] of the frame are as before
    and the buffer keeps its extent; the payload length is 0..8 and the
    data-length code is below 256.  A body that starts with [R] or [r]
    gives a remote request with no payload and an untouched buffer; any
    other body leaves [rtr] as it was and gives a data-length code equal
    to the payload length or to 8. *)
Theorem parse_classic_frame_shape (body : cstring) (f f' : twai_frame_t) :
  parse_classic_frame body f = (PARSE_OK, f') ->
  id (header f') = id (header f) /\
  ide (header f') = ide (header f) /\
  fdf (header f') = fdf (header f) /\
  brs (header f') = brs (header f) /\
  esi (header f') = esi (header f) /\
  length (buffer f') = length (buffer f) /\
  0 <= buffer_len f' <= TWAI_MAX_DATA_LEN /\
  0 <= dlc (header f') < 256 /\
  (if Ascii.eqb (peek body) "R" || Ascii.eqb (peek body) "r"
   then rtr (header f') = true /\ buffer_len f' = 0 /\ buffer f' = buffer f
   else rtr (header f') = rtr (header f) /\
        (dlc (header f') = buffer_len f' \/ dlc (header f') = TWAI_MAX_DATA_LEN)).
Proof.
  unfold parse_classic_frame.
  destruct (Ascii.eqb (peek body) "R" || Ascii.eqb (peek body) "r").
  - intros H. injection H as <-. unfold TWAI_MAX_DATA_LEN.
    destruct (isxdigit (peek (tail body))); cbn.
    + pose proof (Z.mod_pos_bound (fst (strtoul16 (tail body))) 256).
      repeat split; try done; lia.
    + repeat split; try done; unfold Parser.TWAI_RTR_DEFAULT_DLC; lia.
  - destruct (parse_payload body (buffer f) TWAI_MAX_DATA_LEN) as [dl buf] eqn:Hp.
    unfold parse_payload, TWAI_MAX_DATA_LEN in Hp. cbn [Z.leb Z.compare] in Hp.
    apply (parse_payload_loop_frame (length body)) in Hp
      as (Hr & Hl & _ & _ & _); [|lia|lia].
    destruct (dl <? 0) eqn:Hneg.
    { intros H. injection H as Hdl _. apply Z.ltb_lt in Hneg.
      unfold PARSE_OK in Hdl. lia. }
    apply Z.ltb_ge in Hneg.
    assert (Hdl : 0 <= dl <= 8).
    { destruct Hr as [->|]; [unfold PARSE_ERROR in Hneg|]; lia. }
    intros H. injection H as <-. unfold TWAI_MAX_DATA_LEN.
    destruct (Ascii.eqb (peek (skip_pairs body 0 dl)) "_");
      [destruct (parse_nibble _) as [code'|]; [destruct (8 <? code')|]|];
      cbn; rewrite ?Z.mod_small by lia; repeat split; try done; try lia;
      auto.
Qed.

Lemma parse_classic_frame_shape_witness :
  let f := mkFrame (mkHeader 0x123 0 false true false false false)
             (replicate 8 0) 0 in
  let f' := snd (parse_classic_frame (cs "AABBCC_9") f) in
  id (header f') = 0x123 /\
  ide (header f') = false /\
  fdf (header f') = false /\
  brs (header f') = false /\
  esi (header f') = false /\
  length (buffer f') = 8%nat /\
  0 <= buffer_len f' <= 8 /\
  0 <= dlc (header f') < 256 /\
  rtr (header f') = true /\
  (dlc (header f') = buffer_len f' \/ dlc (header f') = 8).
Proof.
  apply (parse_classic_frame_shape (cs "AABBCC_9")
           (mkFrame (mkHeader 0x123 0 false true false false false)
              (replicate 8 0) 0)).
  reflexivity.
Defined.

Lemma flag_bits flags :
  0 <= flags < 16 ->
  negb (Z.land flags Parser.TWAI_FD_BRS_FLAG_MASK =? 0) = Z.testbit flags 0 /\
  negb (Z.land flags Parser.TWAI_FD_ESI_FLAG_MASK =? 0) = Z.testbit flags 1.
Proof.
  intros H. pattern flags. apply digit_char_cases; [..|exact H]; by split.
Qed.

(** X8: [parse_twaifd_frame] on a flags digit followed by the hex text
    of up to 64 bytes returns [PARSE_OK] with these bytes as payload; the
    frame is marked flexible-rate, [brs] is bit 0 and [esi] bit 1 of the
    flags digit (all sixteen digits are accepted), and identifier, [ide]
    and [rtr] are as before. *)
Theorem parse_twaifd_frame_roundtrip (flags : Z) (bytes : list Z)
    (f : twai_frame_t) :
  0 <= flags < 16 ->
  byte_list bytes ->
  Z.of_nat (length bytes) <= TWAI_FD_MAX_DATA_LEN ->
  (length bytes <= length (buffer f))%nat ->
  let r := parse_twaifd_frame (digit_char flags :: concat (map (fmt_0X 2) bytes)) f in
  fst r = PARSE_OK /\
  payload (snd r) = bytes /\
  buffer_len (snd r) = Z.of_nat (length bytes) /\
  fdf (header (snd r)) = true /\
  brs (header (snd r)) = Z.testbit flags 0 /\
  esi (header (snd r)) = Z.testbit flags 1 /\
  id (header (snd r)) = id (header f) /\
  ide (header (snd r)) = ide (header f) /\
  rtr (header (snd r)) = rtr (header f).
Proof.
  intros Hflags Hall Hlen Hbuf. cbn zeta.
  destruct (digit_char_hex flags Hflags) as (Hn & _).
  destruct (flag_bits flags Hflags) as (Hbrs & Hesi).
  assert (Hp : forall buf, (length bytes <= length buf)%nat ->
            parse_payload (concat (map (fmt_0X 2) bytes)) buf TWAI_FD_MAX_DATA_LEN
            = (Z.of_nat (length bytes), bytes ++ drop (length bytes) buf)).
  { intros buf Hb. unfold parse_payload, TWAI_FD_MAX_DATA_LEN in *.
    cbn [Z.leb Z.compare]. change 0 with (Z.of_nat 0).
    rewrite parse_payload_loop_bytes by (done || simpl; lia).
    by rewrite take_0. }
  unfold parse_twaifd_frame. cbn [peek hd tail]. rewrite Hn.
  replace (Parser.TWAI_FD_FLAGS_MAX_VALUE <? flags) with false
    by (symmetry; apply Z.ltb_ge; unfold Parser.TWAI_FD_FLAGS_MAX_VALUE; lia).
  rewrite Hp by done.
  replace (Z.of_nat (length bytes) <? 0) with false
    by (symmetry; apply Z.ltb_ge; lia).
  cbn. rewrite Hbrs, Hesi. repeat split; try done.
  unfold payload. cbn. rewrite Nat2Z.id. by rewrite take_app_length.
Qed.

Lemma parse_twaifd_frame_roundtrip_witness :
  let r := parse_twaifd_frame (cs "3" ++ cs "0102030405060708090A0B0C")
             (Send.fresh_frame 64) in
  fst r = PARSE_OK /\
  payload (snd r) = [1; 2; 3; 4; 5; 6; 7; 8; 9; 10; 11; 12] /\
  buffer_len (snd r) = 12 /\
  fdf (header (snd r)) = true /\
  brs (header (snd r)) = true /\
  esi (header (snd r)) = true /\
  id (header (snd r)) = 0 /\
  ide (header (snd r)) = false /\
  rtr (header (snd r)) = false.
Proof.
  apply (parse_twaifd_frame_roundtrip 3 [1; 2; 3; 4; 5; 6; 7; 8; 9; 10; 11; 12]
           (Send.fresh_frame 64)).
  - lia.
  - repeat constructor; lia.
  - simpl; unfold TWAI_FD_MAX_DATA_LEN; lia.
  - simpl; lia.
Defined.

(** ** The separator of a frame string *)

Lemma strchr_Some s c : forall k,
  strchr s c = Some k ->
  s !! k = Some c /\ forall j, (j < k)%nat -> s !! j <> Some c.
Proof.
  induction s as [|x s IH]; intros k; [done|]. cbn [strchr].
  destruct (Ascii.eqb x c) eqn:E.
  - intros [= <-]. apply Ascii.eqb_eq in E as ->. split; [done|]. intros; lia.
  - destruct (strchr s c) as [k'|]; [|done]. intros [= <-].
    destruct (IH k' eq_refl) as [Hk Hj]. split; [done|].
    intros [|j] Hlt; cbn.
    + intros [= ->]. by rewrite Ascii.eqb_refl in E.
    + apply Hj. lia.
Qed.

Lemma count_run_spec s c :
  0 <= count_run s c /\
  (forall j : nat, Z.of_nat j < count_run s c -> s !! j = Some c) /\
  s !! Z.to_nat (count_run s c) <> Some c.
Proof.
  induction s as [|x s (IH0 & IH1 & IH2)]; cbn [count_run].
  - split; [lia|]. split; [intros; lia|done].
  - destruct (Ascii.eqb x c) eqn:E.
    + apply Ascii.eqb_eq in E as ->. split; [lia|]. split.
      * intros [|j] Hj; [done|]. cbn. apply IH1. lia.
      * replace (Z.to_nat (1 + count_run s c)) with (S (Z.to_nat (count_run s c)))
          by lia.
        done.
    + split; [lia|]. split; [intros; lia|]. cbn. intros [= ->].
      by rewrite Ascii.eqb_refl in E.
Qed.

(** X9: [locate_hash] returns [PARSE_ERROR] exactly when the input has
    no hash sign.  Otherwise it returns [PARSE_OK], the separator is the
    first hash sign of the input, and the count is the length (at least
    1) of the run of hash signs that starts there. *)
Theorem locate_hash_first (input : cstring) :
  match locate_hash input with
  | (r, None) => r = PARSE_ERROR /\ ~ In "#"%char input
  | (r, Some (sep, hash_count)) =>
      r = PARSE_OK /\
      (forall j, (j < sep)%nat -> input !! j <> Some "#"%char) /\
      1 <= hash_count /\
      (forall j, (sep <= j < sep + Z.to_nat hash_count)%nat ->
                 input !! j = Some "#"%char) /\
      input !! (sep + Z.to_nat hash_count)%nat <> Some "#"%char
  end.
Proof.
  unfold locate_hash. destruct (strchr input "#") as [sep|] eqn:Hs.
  - destruct (strchr_Some _ _ _ Hs) as [Hsep Hbefore].
    destruct (count_run_spec (drop sep input) "#") as (Hn0 & Hrun & Hend).
    split; [done|]. split; [done|].
    assert (H1 : 1 <= count_run (drop sep input) "#").
    { rewrite (drop_S _ _ _ Hsep). cbn [count_run].
      change (Ascii.eqb "#" "#") with true. cbv iota.
      pose proof (count_run_spec (drop (S sep) input) "#") as [? _]. lia. }
    split; [done|]. split.
    + intros j Hj. specialize (Hrun (j - sep)%nat).
      rewrite lookup_drop in Hrun.
      replace (sep + (j - sep))%nat with j in Hrun by lia. apply Hrun. lia.
    + by rewrite lookup_drop in Hend.
  - split; [done|]. by apply strchr_None.
Qed.

(** ** Controller names *)

Lemma strncmp_eq_twai s :
  strncmp_eq s (cs "twai") 4 = true ->
  exists t, s = cs "twai" ++ t.
Proof.
  intros H.
  destruct s as [|c0 [|c1 [|c2 [|c3 s]]]];
    cbn [strncmp_eq cs list_ascii_of_string] in H;
    rewrite ?andb_false_r in H; try discriminate.
  rewrite andb_true_r in H.
  apply andb_true_iff in H as [H0 H]. apply andb_true_iff in H as [H1 H].
  apply andb_true_iff in H as [H2 H3].
  apply Ascii.eqb_eq in H0, H1, H2, H3. subst. by exists s.
Qed.

(** X10: [parse_controller_id] succeeds exactly on the names
    [twai<d>...] whose [<d>] is a decimal digit below the number of
    controllers; it then stores the value of the digit and returns the
    text behind the digit.  On every other string it returns NULL and
    leaves the caller's [controller_id] as it was. *)
Theorem parse_controller_id_accepts (SOC_TWAI_CONTROLLER_NUM : Z)
    (controller_str : cstring) (controller_id : Z) :
  match parse_controller_id SOC_TWAI_CONTROLLER_NUM controller_str controller_id with
  | (Some rest, cid) =>
      exists d, controller_str = cs "twai" ++ d :: rest /\
                is_decimal d = true /\ cid = code d - code "0" /\
                0 <= cid < SOC_TWAI_CONTROLLER_NUM /\ cid <= 9
  | (None, cid) =>
      cid = controller_id /\
      ~ (exists d rest, controller_str = cs "twai" ++ d :: rest /\
                        is_decimal d = true /\
                        code d - code "0" < SOC_TWAI_CONTROLLER_NUM)
  end.
Proof.
  unfold parse_controller_id.
  destruct (strncmp_eq controller_str (cs "twai") 4) eqn:Hpre; cbn [andb].
  2:{ split; [done|]. intros (d & rest & -> & _).
      cbn [cs list_ascii_of_string app strncmp_eq] in Hpre.
      by rewrite !Ascii.eqb_refl in Hpre. }
  apply strncmp_eq_twai in Hpre as [t ->].
  destruct t as [|id_char rest].
  { split; [done|]. intros (d & rest & Heq & _). discriminate. }
  cbn [cs list_ascii_of_string app length nth drop].
  replace (5 <=? Z.of_nat (S (S (S (S (S (length rest))))))) with true
    by (symmetry; apply Z.leb_le; lia).
  unfold is_decimal.
  destruct ((code "0" <=? code id_char) && (code id_char <=? code "9")) eqn:Hdig;
    cbn [andb].
  - destruct (code id_char <? code "0" + SOC_TWAI_CONTROLLER_NUM) eqn:Hnum.
    + exists id_char. apply Z.ltb_lt in Hnum. split; [done|]. split; [done|].
      split_tests. char_codes. lia.
    + split; [done|]. intros (d & rest' & Heq & _ & Hd).
      injection Heq as <- _. apply Z.ltb_ge in Hnum. lia.
  - split; [done|]. intros (d & rest' & Heq & Hd & _).
    injection Heq as <- _. congruence.
Qed.

Lemma parse_controller_id_range num s c0 rest cid :
  parse_controller_id num s c0 = (Some rest, cid) -> 0 <= cid < num /\ cid <= 9.
Proof.
  unfold parse_controller_id.
  destruct (_ && (5 <=? _)); [|done].
  destruct (_ && (_ <? _)) eqn:E; [|done]. intros [= _ <-].
  apply andb_true_iff in E as [E1 E2]. apply Z.ltb_lt in E2.
  split_tests. char_codes. lia.
Qed.

(** The name [twai<d>] of an existing controller, with any text behind
    it. *)
Lemma parse_controller_id_name num cid rest c0 :
  0 <= cid < num -> cid <= 9 ->
  parse_controller_id num (cs "twai" ++ fmt_d cid ++ rest) c0 = (Some rest, cid).
Proof.
  intros Hcid H9.
  assert (Hfmt : fmt_d cid = [digit_char cid]).
  { unfold fmt_d. replace (cid <? 0) with false by (symmetry; apply Z.ltb_ge; lia).
    change (digits_of 10 20 cid)
      with (if cid <? 10 then [digit_char cid]
            else digits_of 10 19 (cid / 10) ++ [digit_char (cid mod 10)]).
    by replace (cid <? 10) with true by (symmetry; apply Z.ltb_lt; lia). }
  assert (Hcode : code (digit_char cid) = code "0" + cid).
  { destruct (digit_char_decimal cid) as [_ Hc]; lia. }
  rewrite Hfmt. unfold parse_controller_id.
  cbn [cs list_ascii_of_string app strncmp_eq length nth drop].
  rewrite !Ascii.eqb_refl. cbn [andb].
  replace (5 <=? Z.of_nat (S (S (S (S (S (length rest))))))) with true
    by (symmetry; apply Z.leb_le; lia).
  rewrite Hcode. char_codes.
  replace (48 <=? 48 + cid) with true by (symmetry; apply Z.leb_le; lia).
  replace (48 + cid <=? 57) with true by (symmetry; apply Z.leb_le; lia).
  replace (48 + cid <? 48 + num) with true by (symmetry; apply Z.ltb_lt; lia).
  cbn [andb]. f_equal. lia.
Qed.

Lemma get_controller_by_id_inside {A} num (table : list A) cid :
  Z.of_nat (length table) = num -> 0 <= cid < num ->
  get_controller_by_id num table cid = table !! Z.to_nat cid /\
  is_Some (table !! Z.to_nat cid).
Proof.
  intros Hlen Hcid. unfold get_controller_by_id.
  replace (cid <? 0) with false by (symmetry; apply Z.ltb_ge; lia).
  replace (num <=? cid) with false by (symmetry; apply Z.leb_gt; lia).
  split; [done|]. apply lookup_lt_is_Some. lia.
Qed.

(** X11: the controller name of a dump line, [twai%d], is read back by
    [parse_controller_id] and [parse_controller_string] as the same
    controller for every controller 0..9 that exists, whatever follows
    the name; and every non-negative value [parse_controller_string]
    returns is below the number of controllers, so that
    [get_controller_by_id] finds its entry. *)
Theorem controller_name_roundtrip {A : Type} (SOC_TWAI_CONTROLLER_NUM : Z)
    (s_twai_controller_ctx : list A) (cid : Z) (rest : cstring) :
  Z.of_nat (length s_twai_controller_ctx) = SOC_TWAI_CONTROLLER_NUM ->
  0 <= cid < SOC_TWAI_CONTROLLER_NUM -> cid <= 9 ->
  parse_controller_id SOC_TWAI_CONTROLLER_NUM (cs "twai" ++ fmt_d cid ++ rest) (-1)
  = (Some rest, cid) /\
  parse_controller_string SOC_TWAI_CONTROLLER_NUM (cs "twai" ++ fmt_d cid ++ rest)
  = cid /\
  (forall controller_str,
     let r := parse_controller_string SOC_TWAI_CONTROLLER_NUM controller_str in
     r = PARSE_ERROR \/
     0 <= r < SOC_TWAI_CONTROLLER_NUM /\
     is_Some (get_controller_by_id SOC_TWAI_CONTROLLER_NUM s_twai_controller_ctx r)).
Proof.
  intros Hlen Hcid H9.
  split; [by apply parse_controller_id_name|]. split.
  { unfold parse_controller_string. by rewrite parse_controller_id_name. }
  intros s. cbn zeta. unfold parse_controller_string.
  destruct (parse_controller_id SOC_TWAI_CONTROLLER_NUM s 0) as [[r|] c1] eqn:Hacc.
  - right. apply parse_controller_id_range in Hacc as (Hr & _). split; [done|].
    destruct (get_controller_by_id_inside SOC_TWAI_CONTROLLER_NUM
                s_twai_controller_ctx c1 Hlen Hr) as [-> Hsome]. done.
  - by left.
Qed.

Lemma controller_name_roundtrip_witness :
  parse_controller_id 2 (cs "twai1,123:7FF") (-1) = (Some (cs ",123:7FF"), 1) /\
  parse_controller_string 2 (cs "twai1,123:7FF") = 1 /\
  (forall controller_str,
     let r := parse_controller_string 2 controller_str in
     r = PARSE_ERROR \/
     0 <= r < 2 /\ is_Some (get_controller_by_id 2 [10; 11] r)).
Proof.
  apply (controller_name_roundtrip 2 [10; 11] 1 (cs ",123:7FF")).
  - reflexivity.
  - lia.
  - lia.
Defined.

(** ** The filters a parse leaves behind *)

Lemma hex_segment_bound seg v : hex_segment seg = Some v -> 0 <= v < 2 ^ 32.
Proof.
  unfold hex_segment.
  destruct (Nat.leb_spec 1 (length seg)); cbn [andb]; [|done].
  destruct (Nat.leb_spec (length seg) 8); cbn [andb]; [|done].
  destruct (forallb isxdigit seg); [|done]. intros [= <-].
  pose proof (hex_value_bound seg) as Hb.
  assert (16 ^ Z.of_nat (length seg) <= 16 ^ 8) by (apply Z.pow_le_mono_r; lia).
  change (2 ^ 32) with (16 ^ 8). lia.
Qed.

Lemma classify_bounds tok :
  match classify tok with
  | Some (MaskFilter a b) => 0 <= a < 2 ^ 32 /\ 0 <= b < 2 ^ 32
  | Some (RangeFilter a b) => 0 <= a <= b /\ b < 2 ^ 32
  | None => True
  end.
Proof.
  unfold classify. destruct (strchr tok ":") as [k|].
  - destruct (hex_segment (take k tok)) as [a|] eqn:Ha; [|done].
    destruct (hex_segment (drop (S k) tok)) as [b|] eqn:Hb; [|done].
    apply hex_segment_bound in Ha, Hb. done.
  - destruct (strchr tok "-") as [k|]; [|done].
    destruct (hex_segment (take k tok)) as [a|] eqn:Ha; [|done].
    destruct (hex_segment (drop (S k) tok)) as [b|] eqn:Hb; [|done].
    apply hex_segment_bound in Ha, Hb.
    destruct (a <=? b) eqn:E; [|done]. apply Z.leb_le in E. lia.
Qed.

Lemma add_filter_stored mask_num range_num tok o ret o' :
  0 <= mask_count o -> 0 <= range_count o ->
  stored_filters_ok o ->
  add_filter mask_num range_num (classify tok) o = (ret, o') ->
  stored_filters_ok o' /\
  0 <= mask_count o' /\ 0 <= range_count o' /\
  (ret = PARSE_OK ->
   mask_count o' + range_count o' = mask_count o + range_count o + 1).
Proof.
  intros Hm Hr [Hmask Hrange] Hadd.
  pose proof (classify_bounds tok) as Hb.
  destruct (classify tok) as [[a b|a b]|]; cbn [add_filter] in Hadd.
  - destruct (mask_num <=? mask_count o); injection Hadd as <- <-;
      [split; [by split|split; [done|split; [done|by intros]]]|].
    cbn. split; [|lia]. split; [|done]. cbn. intros i m Hi Hl.
    destruct (decide (i = Z.to_nat (mask_count o))) as [->|Hne].
      rewrite list_lookup_insert_eq in Hl
        by (apply lookup_lt_Some in Hl; by rewrite length_insert in Hl).
      injection Hl as <-. cbn. lia.
    + rewrite list_lookup_insert_ne in Hl by done. apply (Hmask i); [lia|done].
  - destruct (range_num <=? range_count o); injection Hadd as <- <-;
      [split; [by split|split; [done|split; [done|by intros]]]|].
    cbn. split; [|lia]. split; [done|]. cbn. intros i r Hi Hl.
    destruct (decide (i = Z.to_nat (range_count o))) as [->|Hne].
    + rewrite list_lookup_insert_eq in Hl
        by (apply lookup_lt_Some in Hl; by rewrite length_insert in Hl).
      injection Hl as <-. cbn. lia.
    + rewrite list_lookup_insert_ne in Hl by done. apply (Hrange i); [lia|done].
  - injection Hadd as <- <-. split; [by split|split; [done|split; [done|by intros]]].
Qed.

Lemma run_tokens_stored mask_num range_num toks : forall o ret o',
  0 <= mask_count o -> 0 <= range_count o ->
  stored_filters_ok o ->
  run_tokens mask_num range_num toks o = (ret, o') ->
  stored_filters_ok o' /\
  (ret = PARSE_OK ->
   mask_count o' + range_count o'
   = mask_count o + range_count o + Z.of_nat (length toks)).
Proof.
  induction toks as [|t ts IH]; intros o ret o' Hm Hr Hok Hrun.
  - injection Hrun as <- <-. split; [done|]. simpl. lia.
  - cbn [run_tokens] in Hrun.
    destruct (add_filter mask_num range_num (classify t) o) as [r1 o1] eqn:Hadd.
    destruct (add_filter_stored _ _ _ _ _ _ Hm Hr Hok Hadd)
      as (Hok1 & Hm1 & Hr1 & Hcnt).
    destruct (r1 =? PARSE_OK) eqn:E.
    + apply Z.eqb_eq in E. apply IH in Hrun as [Hok' Hcnt']; [|done..].
      split; [done|]. intros Hret. cbn [length]. specialize (Hcnt E).
      specialize (Hcnt' Hret). lia.
    + injection Hrun as <- <-. split; [done|]. intros ->. by apply Z.eqb_neq in E.
Qed.

(** X12: after [parse_filters] on a text below the length limit, with
    arrays that have room for the capacities, every mask filter below
    [mask_count] has a 32-bit identifier and mask and every range filter
    below [range_count] has low <= high < 2^32; [is_ext] is clear in all
    of them, whatever the value.  This holds on an error return as well.
    On [PARSE_OK] the two counters add up to the number of non-empty
    tokens of the text. *)
Theorem parse_filters_stored (mask_num range_num : Z) (s : cstring)
    (o : filter_out) :
  0 <= mask_num <= Z.of_nat (length (masks o)) ->
  0 <= range_num <= Z.of_nat (length (ranges o)) ->
  Z.of_nat (length s) < Parser.MAX_INPUT_LEN ->
  exists ret o',
    parse_filters mask_num range_num s o = Returns ret o' /\
    stored_filters_ok o' /\
    (ret = PARSE_OK ->
     mask_count o' + range_count o' = Z.of_nat (length (tokens s))).
Proof.
  intros Hm Hr Hlen. rewrite parse_filters_spec by done.
  unfold filters_spec.
  replace (Parser.MAX_INPUT_LEN <=? Z.of_nat (length s)) with false
    by (symmetry; apply Z.leb_gt; lia).
  destruct (run_tokens mask_num range_num (tokens s)
              (mkOut (masks o) 0 (ranges o) 0)) as [ret o'] eqn:Hrun.
  exists ret, o'. split; [done|].
  apply run_tokens_stored in Hrun as [Hok Hcnt]; cbn; try lia.
  - split; [done|]. intros Hret. specialize (Hcnt Hret). cbn in Hcnt. lia.
  - split; cbn; intros; lia.
Qed.

Lemma parse_filters_stored_witness :
  exists ret o',
    parse_filters 3 1 (cs "123:7FF,,1FFFFFFF-FFFFFFFF") (cleared_out 3 1)
    = Returns ret o' /\
    stored_filters_ok o' /\
    (ret = PARSE_OK ->
     mask_count o' + range_count o'
     = Z.of_nat (length (tokens (cs "123:7FF,,1FFFFFFF-FFFFFFFF")))).
Proof.
  apply (parse_filters_stored 3 1 (cs "123:7FF,,1FFFFFFF-FFFFFFFF") (cleared_out 3 1)).
  - simpl; lia.
  - simpl; lia.
  - vm_compute; reflexivity.
Defined.

(** ** The inline parser of the send command *)

Lemma asc2nibble_range c : 0 <= Send.asc2nibble c <= 255.
Proof.
  unfold Send.asc2nibble.
  repeat match goal with
  | |- context [if ?b then _ else _] => destruct b eqn:?
  end; split_tests; char_codes; try lia;
  match goal with |- context [?z mod 256] =>
    pose proof (Z.mod_pos_bound z 256); lia end.
Qed.

Lemma data_loop_frame fd_max (n : nat) :
  forall rest buf dlen e rest2 buf' dlen',
    (length rest <= n)%nat -> 0 <= dlen <= fd_max ->
    Send.data_loop rest buf dlen fd_max = (e, rest2, buf', dlen') ->
    dlen <= dlen' <= fd_max /\ length buf' = length buf /\
    (forall i : nat, fd_max <= Z.of_nat i -> buf' !! i = buf !! i).
Proof.
  induction n as [|n IH]; intros rest buf dlen e rest2 buf' dlen' Hlen Hd Hrun.
  - destruct rest; [|simpl in Hlen; lia]. simpl in Hrun.
    injection Hrun as <- <- <- <-. repeat split; (done || lia).
  - destruct rest as [|c0 r1]; cbn [Send.data_loop] in Hrun.
    { injection Hrun as <- <- <- <-. repeat split; (done || lia). }
    simpl in Hlen.
    destruct (dlen <? fd_max) eqn:Hlt; cbn [negb] in Hrun.
    2:{ injection Hrun as <- <- <- <-. repeat split; (done || lia). }
    apply Z.ltb_lt in Hlt.
    destruct (Ascii.eqb c0 "."). { eapply IH; [| |exact Hrun]; lia. }
    destruct r1 as [|c1 r2].
    { injection Hrun as <- <- <- <-. repeat split; (done || lia). }
    simpl in Hlen.
    destruct (15 <? Send.asc2nibble c0).
    { injection Hrun as <- <- <- <-. repeat split; (done || lia). }
    destruct (15 <? Send.asc2nibble c1).
    { injection Hrun as <- <- <- <-. unfold store_byte.
      rewrite length_insert. repeat split; try (done || lia).
      intros i Hi. apply list_lookup_insert_ne. lia. }
    apply IH in Hrun as (Hd' & Hl & Hout); [|lia|lia].
    unfold store_byte in *. rewrite !length_insert in Hl.
    repeat split; try (done || lia).
    intros i Hi. rewrite Hout by lia.
    rewrite !list_lookup_insert_ne by lia. done.
Qed.

(** X13: when the inline [parse_frame] returns true, the buffer keeps
    its extent and no entry at or beyond the frame maximum is changed;
    the payload length is at most 8 for a classic frame and at most the
    build's frame maximum for a flexible-rate one, which only a build with
    flexible-rate support produces; [brs] and [esi] are set on
    flexible-rate frames only.  A remote request has no payload, a
    data-length code 0..8 and an untouched buffer; on a data frame the
    data-length code is the payload length, with or without a [_] suffix
    in the text. *)
Theorem parse_frame_shape (fd : bool) (beyond : nat -> ascii)
    (frame_str : cstring) (f f' : twai_frame_t) :
  Send.parse_frame fd beyond frame_str f = (Send.ReturnTrue, f') ->
  length (buffer f') = length (buffer f) /\
  (forall i : nat, Send.MAX_FRAME_DATA_LEN fd <= Z.of_nat i ->
     buffer f' !! i = buffer f !! i) /\
  0 <= buffer_len f'
    <= (if fdf (header f') then Send.MAX_FRAME_DATA_LEN fd else TWAI_FRAME_MAX_LEN) /\
  (fdf (header f') = true -> fd = true) /\
  (fdf (header f') = false ->
     brs (header f') = false /\ esi (header f') = false) /\
  (if rtr (header f')
   then buffer_len f' = 0 /\ 0 <= dlc (header f') <= TWAI_FRAME_MAX_LEN /\
        buffer f' = buffer f /\ fdf (header f') = false
   else dlc (header f') = buffer_len f').
Proof.
  unfold Send.parse_frame.
  destruct (_ <? Send.TWAI_MIN_FRAME_LEN); [intros H; discriminate H|].
  assert (Hmax : TWAI_FRAME_MAX_LEN <= Send.MAX_FRAME_DATA_LEN fd).
  { unfold Send.MAX_FRAME_DATA_LEN, TWAI_FRAME_MAX_LEN, TWAIFD_FRAME_MAX_LEN.
    destruct fd; lia. }
  destruct (Ascii.eqb (Send.char_at beyond frame_str Send.TWAI_STD_DELIMITER_POS) "#");
    [destruct (Send.parse_id_loop beyond frame_str 3 0 2 0) as [[] v]
    |destruct (Ascii.eqb (Send.char_at beyond frame_str Send.TWAI_EXT_DELIMITER_POS) "#");
     [destruct (Send.parse_id_loop beyond frame_str 8 0 7 0) as [[] v];
      [destruct (TWAI_EXT_ID_MASK <? v)|]|]];
    try (intros H; discriminate H);
    cbn [with_header header set_ide set_id ide id negb andb];
    try (destruct (TWAI_STD_ID_MASK <? v); [intros H; discriminate H|]).
  all: destruct (_ || _);
    [ intros H; injection H as <-;
      match goal with |- context [if ?b then _ else _] => destruct b eqn:Hc end;
      cbn; (repeat split; try done; try lia);
      try (match goal with |- context [Send.asc2nibble ?c] =>
             pose proof (asc2nibble_range c) end; lia);
      try (apply andb_true_iff in Hc as [_ Hc]; apply Z.leb_le in Hc; exact Hc);
      unfold Send.TWAI_RTR_DEFAULT_DLC, TWAI_FRAME_MAX_LEN; lia
    | ].
  all: destruct (Ascii.eqb _ "#");
    [ destruct fd; [|intros H; discriminate H];
      destruct (_ || _); [intros H; discriminate H|];
      destruct (_ <? _); [intros H; discriminate H|]
    | ].
  all: destruct (Send.data_loop _ _ _ _) as [[[e r] b] d] eqn:Hloop;
    eapply data_loop_frame in Hloop as (Hd & Hl & Hout);
    [ | apply Nat.le_refl
      | unfold Send.MAX_FRAME_DATA_LEN, TWAI_FRAME_MAX_LEN, TWAIFD_FRAME_MAX_LEN; lia ];
    (destruct e; [intros H; discriminate H|]);
    (destruct (_ && _ && _); [intros H; discriminate H|]);
    intros H; injection H as <-;
    cbn [with_header header buffer] in Hl, Hout.
  all: repeat match goal with
         | |- context [if ?b then with_header _ _ else _] => destruct b eqn:?
         end;
    cbn; repeat split; try done; try lia.
  all: try (intros i Hi; apply Hout;
            unfold Send.MAX_FRAME_DATA_LEN, TWAI_FRAME_MAX_LEN, TWAIFD_FRAME_MAX_LEN in *;
            lia).
  all: unfold Send.MAX_FRAME_DATA_LEN in Hd; lia.
Qed.

Lemma parse_frame_shape_witness :
  let f' := snd (Send.parse_frame false (fun _ => NUL) (cs "123#1122334455667788_F")
                   (Send.fresh_frame 8)) in
  length (buffer f') = 8%nat /\
  (forall i : nat, Send.MAX_FRAME_DATA_LEN false <= Z.of_nat i ->
     buffer f' !! i = buffer (Send.fresh_frame 8) !! i) /\
  0 <= buffer_len f'
    <= (if fdf (header f') then Send.MAX_FRAME_DATA_LEN false else TWAI_FRAME_MAX_LEN) /\
  (fdf (header f') = true -> false = true) /\
  (fdf (header f') = false ->
     brs (header f') = false /\ esi (header f') = false) /\
  dlc (header f') = buffer_len f'.
Proof.
  apply (parse_frame_shape false (fun _ => NUL) (cs "123#1122334455667788_F")
           (Send.fresh_frame 8)).
  reflexivity.
Defined.

(** *** Reads behind the terminator *)

Lemma char_at_inside b1 b2 s i :
  (i <= length s)%nat -> Send.char_at b1 s i = Send.char_at b2 s i.
Proof.
  intros Hi. unfold Send.char_at. destruct (s !! i) eqn:E; [done|].
  apply lookup_ge_None in E.
  by replace (i =? length s)%nat with true by (symmetry; apply Nat.eqb_eq; lia).
Qed.

Lemma parse_id_loop_inside b1 b2 s n : forall i last idv,
  (i + n <= S (length s))%nat ->
  Send.parse_id_loop b1 s n i last idv = Send.parse_id_loop b2 s n i last idv.
Proof.
  induction n as [|n IH]; intros i last idv Hn; [done|].
  cbn [Send.parse_id_loop]. rewrite (char_at_inside b1 b2 s i) by lia.
  destruct (_ <? _); [done|]. apply IH. lia.
Qed.

(** An identifier loop that reaches the terminator fails there. *)
Lemma parse_id_loop_short b s n : forall i last idv,
  (i <= length s < i + n)%nat ->
  fst (Send.parse_id_loop b s n i last idv) = false.
Proof.
  induction n as [|n IH]; intros i last idv Hn; [lia|].
  cbn [Send.parse_id_loop].
  destruct (decide (i = length s)) as [->|Hne].
  - unfold Send.char_at. rewrite (lookup_ge_None_2 s (length s)) by lia.
    rewrite Nat.eqb_refl. done.
  - destruct (_ <? _); [done|]. apply IH. lia.
Qed.

Lemma parse_frame_inside fd b1 b2 s f :
  (9 <= length s)%nat \/ (5 <= length s)%nat /\ s !! 3%nat = Some "#"%char ->
  Send.parse_frame fd b1 s f = Send.parse_frame fd b2 s f.
Proof.
  intros H. unfold Send.parse_frame.
  unfold Send.TWAI_STD_DELIMITER_POS, Send.TWAI_EXT_DELIMITER_POS.
  destruct (_ <? Send.TWAI_MIN_FRAME_LEN); [done|].
  rewrite (char_at_inside b1 b2 s 3) by lia.
  rewrite (parse_id_loop_inside b1 b2 s 3 0) by lia.
  destruct H as [H9|[H5 H3]].
  - rewrite (char_at_inside b1 b2 s 8) by lia.
    by rewrite (parse_id_loop_inside b1 b2 s 8 0) by lia.
  - replace (Send.char_at b2 s 3) with "#"%char
      by (unfold Send.char_at; by rewrite H3).
    done.
Qed.

Lemma parse_frame_outside fd b s f :
  (5 <= length s <= 8)%nat -> s !! 3%nat <> Some "#"%char ->
  Send.succeeded (fst (Send.parse_frame fd b s f)) = false.
Proof.
  intros Hlen H3. unfold Send.parse_frame.
  unfold Send.TWAI_STD_DELIMITER_POS, Send.TWAI_EXT_DELIMITER_POS.
  replace (Z.of_nat (length s) <? Send.TWAI_MIN_FRAME_LEN) with false
    by (symmetry; apply Z.ltb_ge; unfold Send.TWAI_MIN_FRAME_LEN; lia).
  destruct (Ascii.eqb (Send.char_at b s 3) "#") eqn:E3.
  { exfalso. apply H3. apply Ascii.eqb_eq in E3. unfold Send.char_at in E3.
    destruct (s !! 3%nat) eqn:E; [by rewrite E3|].
    apply lookup_ge_None in E. lia. }
  destruct (Ascii.eqb (Send.char_at b s 8) "#") eqn:E8; [|done].
  assert (length s <> 8%nat).
  { intros H8. unfold Send.char_at in E8.
    rewrite (lookup_ge_None_2 s 8) in E8 by lia. by rewrite H8 in E8. }
  pose proof (parse_id_loop_short b s 8 0 7 0 ltac:(lia)) as Hloop.
  destruct (Send.parse_id_loop b s 8 0 7 0) as [ok v]. cbn in Hloop. by subst ok.
Qed.

(** X14: what lies in memory behind the terminator of the frame
    string, which [parse_frame] reads when it tests [frame_str[8]] on a
    string shorter than 8 characters, never changes the value it returns;
    and whenever it returns true the frame it leaves is the same as
    well. *)
Theorem parse_frame_ignores_beyond (fd : bool) (beyond1 beyond2 : nat -> ascii)
    (frame_str : cstring) (f : twai_frame_t) :
  Send.succeeded (fst (Send.parse_frame fd beyond1 frame_str f))
  = Send.succeeded (fst (Send.parse_frame fd beyond2 frame_str f)) /\
  (Send.succeeded (fst (Send.parse_frame fd beyond1 frame_str f)) = true ->
   Send.parse_frame fd beyond1 frame_str f
   = Send.parse_frame fd beyond2 frame_str f).
Proof.
  destruct (le_lt_dec 9 (length frame_str)) as [H9|H9].
  { rewrite (parse_frame_inside fd beyond1 beyond2) by (by left). done. }
  destruct (le_lt_dec 5 (length frame_str)) as [H5|H5].
  2:{ unfold Send.parse_frame.
      replace (Z.of_nat (length frame_str) <? Send.TWAI_MIN_FRAME_LEN) with true
        by (symmetry; apply Z.ltb_lt; unfold Send.TWAI_MIN_FRAME_LEN; lia).
      done. }
  destruct (frame_str !! 3%nat) as [c|] eqn:E3.
  2:{ apply lookup_ge_None in E3. lia. }
  destruct (Ascii.eqb_spec c "#") as [->|Hc].
  { rewrite (parse_frame_inside fd beyond1 beyond2) by (by right). done. }
  rewrite !parse_frame_outside by (lia || congruence).
  split; [done|]. intros H. discriminate H.
Qed.

(** *** The inline parser on the text of a dump line *)

Lemma asc2nibble_digit d :
  0 <= d < 16 ->
  Send.asc2nibble (digit_char d) = d /\
  Forall (fun c => Ascii.eqb (digit_char d) c = false) (cs "#.Rr_") /\
  digit_char d <> NUL.
Proof.
  intros H. pattern d. apply digit_char_cases; [..|exact H];
    (split; [reflexivity|split; [repeat constructor|discriminate]]).
Qed.

Lemma digit_text (text : cstring) :
  Forall (fun c => exists d, 0 <= d < 16 /\ c = digit_char d) text ->
  exists ds, text = map digit_char ds /\ Forall (fun d => 0 <= d < 16) ds /\
             hex_value text = digits_value ds.
Proof.
  intros Hall.
  assert (exists ds, text = map digit_char ds /\ Forall (fun d => 0 <= d < 16) ds /\
            forall acc,
              fold_left (fun a c => a * 16 + default 0 (digit_value c)) text acc
              = fold_left (fun a d => a * 16 + d) ds acc) as (ds & H1 & H2 & H3).
  { induction text as [|c text IH].
    - by exists [].
    - apply Forall_cons in Hall as [(d & Hd & ->) Hall].
      destruct (IH Hall) as (ds & -> & Hds & Hv).
      exists (d :: ds). split; [done|]. split; [by constructor|].
      intros acc. cbn [fold_left map].
      destruct (digit_char_hex d Hd) as (_ & -> & _). apply Hv. }
  exists ds. split; [done|]. split; [done|]. apply H3.
Qed.

Lemma digits_value_snoc pre d :
  digits_value (pre ++ [d]) = digits_value pre * 16 + d.
Proof. unfold digits_value. by rewrite fold_left_app. Qed.

Lemma digits_value_nonneg ds :
  Forall (fun d => 0 <= d < 16) ds -> 0 <= digits_value ds.
Proof.
  induction ds as [|d ds IH] using rev_ind; [done|].
  intros H. apply Forall_app in H as [Hds Hd]. apply Forall_cons in Hd as [Hd _].
  rewrite digits_value_snoc. specialize (IH Hds). lia.
Qed.

(** The identifier loops on [w] digits: they or the digits together
    into the value of the digits. *)
Lemma parse_id_loop_digits b rest (w : nat) : forall ds pre,
  (w <= 8)%nat -> (length pre + length ds = w)%nat ->
  Forall (fun d => 0 <= d < 16) pre -> Forall (fun d => 0 <= d < 16) ds ->
  Send.parse_id_loop b (map digit_char (pre ++ ds) ++ rest)
    (length ds) (length pre) (Z.of_nat w - 1)
    (digits_value pre * 16 ^ Z.of_nat (length ds))
  = (true, digits_value (pre ++ ds)).
Proof.
  induction ds as [|d ds IH]; intros pre Hw Hlen Hpre Hds.
  - cbn [length Send.parse_id_loop]. rewrite app_nil_r.
    f_equal. change (16 ^ Z.of_nat 0) with 1. lia.
  - apply Forall_cons in Hds as [Hd Hds]. cbn [length] in *.
    cbn [Send.parse_id_loop].
    assert (Hch : Send.char_at b (map digit_char (pre ++ d :: ds) ++ rest)
                    (length pre) = digit_char d).
    { unfold Send.char_at. rewrite map_app, <- app_assoc.
      rewrite lookup_app_r by (rewrite length_map; lia).
      by rewrite length_map, Nat.sub_diag. }
    rewrite Hch. destruct (asc2nibble_digit d Hd) as (-> & _).
    replace (Send.HEX_NIBBLE_MASK <? d) with false
      by (symmetry; apply Z.ltb_ge; unfold Send.HEX_NIBBLE_MASK; lia).
    unfold Send.HEX_NIBBLE_SHIFT.
    replace ((Z.of_nat w - 1 - Z.of_nat (length pre)) * 4)
      with (4 * Z.of_nat (length ds)) by lia.
    pose proof (digits_value_nonneg pre Hpre) as Hv.
    assert (Hp : 0 < 16 ^ Z.of_nat (length ds)) by (apply Z.pow_pos_nonneg; lia).
    assert (Hp8 : 16 ^ Z.of_nat (length ds) <= 16 ^ 7)
      by (apply Z.pow_le_mono_r; lia).
    assert (H16 : 2 ^ (4 * Z.of_nat (length ds)) = 16 ^ Z.of_nat (length ds)).
    { rewrite Z.pow_mul_r by lia. done. }
    rewrite Z.shiftl_mul_pow2 by lia. rewrite H16.
    rewrite Z.mod_small by (change (2 ^ 32) with (16 * 16 ^ 7); nia).
    replace (digits_value pre * 16 ^ Z.of_nat (S (length ds)))
      with (Z.shiftl (digits_value pre * 16) (4 * Z.of_nat (length ds))).
    2:{ rewrite Z.shiftl_mul_pow2 by lia. rewrite H16.
        rewrite Nat2Z.inj_succ, Z.pow_succ_r by lia. lia. }
    replace (d * 16 ^ Z.of_nat (length ds))
      with (Z.shiftl d (4 * Z.of_nat (length ds)))
      by (rewrite Z.shiftl_mul_pow2 by lia; by rewrite H16).
    rewrite <- Z.shiftl_lor. rewrite nibble_lor by lia.
    rewrite Z.shiftl_mul_pow2 by lia. rewrite H16.
    rewrite <- digits_value_snoc.
    replace (S (length pre)) with (length (pre ++ [d]))
      by (rewrite length_app; simpl; lia).
    replace (pre ++ d :: ds) with ((pre ++ [d]) ++ ds) by (by rewrite <- app_assoc).
    apply IH; [done|rewrite length_app; simpl; lia| |done].
    apply Forall_app. split; [done|by constructor].
Qed.

(** The data loop on the text of [bytes]. *)
Lemma data_loop_bytes fd_max bytes : forall buf (dlen : nat),
  byte_list bytes ->
  Z.of_nat (dlen + length bytes) <= fd_max ->
  (dlen + length bytes <= length buf)%nat ->
  Send.data_loop (concat (map (fmt_0X 2) bytes)) buf (Z.of_nat dlen) fd_max
  = (None, [], take dlen buf ++ bytes ++ drop (dlen + length bytes) buf,
     Z.of_nat (dlen + length bytes)).
Proof.
  induction bytes as [|b bs IH]; intros buf dlen Hall Hmax Hbuf.
  - simpl. by rewrite Nat.add_0_r, take_drop.
  - apply Forall_cons in Hall as [Hb Hall]. cbn [length] in Hmax, Hbuf.
    cbn [map concat]. rewrite fmt_byte by done. cbn [app].
    assert (Hhi : 0 <= b / 16 < 16).
    { split; [apply Z.div_pos; lia|apply Z.div_lt_upper_bound; lia]. }
    assert (Hlo : 0 <= b mod 16 < 16) by (apply Z.mod_pos_bound; lia).
    destruct (asc2nibble_digit _ Hhi) as (Hn1 & Hc1 & _).
    destruct (asc2nibble_digit _ Hlo) as (Hn2 & _ & _).
    apply Forall_cons in Hc1 as [_ Hc1]. apply Forall_cons in Hc1 as [Hdot _].
    cbn [Send.data_loop].
    replace (Z.of_nat dlen <? fd_max) with true by (symmetry; apply Z.ltb_lt; lia).
    cbn [negb]. rewrite Hdot, Hn1, Hn2.
    replace (15 <? b / 16) with false by (symmetry; apply Z.ltb_ge; lia).
    replace (15 <? b mod 16) with false by (symmetry; apply Z.ltb_ge; lia).
    unfold store_byte. rewrite Nat2Z.id.
    rewrite Z.shiftl_mul_pow2 by lia. change (2 ^ 4) with 16.
    rewrite (Z.mod_small (b / 16 * 16)) by lia.
    rewrite (nth_lookup_Some _ _ 0 (b / 16 * 16))
      by (apply list_lookup_insert_eq; lia).
    rewrite nibble_lor by lia.
    replace (b / 16 * 16 + b mod 16) with b by (pose proof (Z.div_mod b 16); lia).
    rewrite Z.mod_small by lia. rewrite list_insert_insert_eq.
    replace (Z.of_nat dlen + 1) with (Z.of_nat (S dlen)) by lia.
    rewrite IH; [|done|lia|rewrite length_insert; lia].
    cbn [length]. f_equal; [f_equal|f_equal; lia].
    apply take_insert_snoc. lia.
Qed.

Lemma id_field_digits (item : Dump.rx_queue_item_t) :
  0 <= id (Dump.item_header item)
    <= (if ide (Dump.item_header item) then TWAI_EXT_ID_MASK else TWAI_STD_ID_MASK) ->
  exists ds,
    Dump.id_field item = map digit_char ds /\
    Forall (fun d => 0 <= d < 16) ds /\
    digits_value ds = id (Dump.item_header item) /\
    length ds = (if ide (Dump.item_header item) then 8 else 3)%nat.
Proof.
  intros Hid. unfold Dump.id_field.
  destruct (ide (Dump.item_header item)).
  - destruct (fmt_0X_facts 8 (id (Dump.item_header item))) as (Hl & Hd & Hv);
      [lia|unfold TWAI_EXT_ID_MASK in Hid; change (16 ^ Z.of_nat 8) with 4294967296;
           lia|].
    destruct (digit_text _ Hd) as (ds & Heq & Hds & Hval).
    exists ds. rewrite Heq in *. rewrite length_map in Hl.
    repeat split; try done. congruence.
  - destruct (fmt_0X_facts 3 (id (Dump.item_header item))) as (Hl & Hd & Hv);
      [lia|unfold TWAI_STD_ID_MASK in Hid; change (16 ^ Z.of_nat 3) with 4096;
           lia|].
    destruct (digit_text _ Hd) as (ds & Heq & Hds & Hval).
    exists ds. rewrite Heq in *. rewrite length_map in Hl.
    repeat split; try done. congruence.
Qed.

(** The identifier stage of [parse_frame] on three or eight digits and
    a hash sign. *)
Lemma id_stage_facts b (ds : list Z) body (ext : bool) :
  length ds = (if ext then 8 else 3)%nat ->
  Forall (fun d => 0 <= d < 16) ds ->
  let s := map digit_char ds ++ "#"%char :: body in
  Ascii.eqb (Send.char_at b s 3) "#" = negb ext /\
  (ext = true -> Ascii.eqb (Send.char_at b s 8) "#" = true) /\
  Send.parse_id_loop b s (if ext then 8 else 3) 0 (if ext then 7 else 2) 0
  = (true, digits_value ds) /\
  drop (if ext then 9 else 4) s = body /\
  length s = ((if ext then 9 else 4) + length body)%nat.
Proof.
  intros Hlen Hds. cbn zeta.
  assert (Hloop : Send.parse_id_loop b (map digit_char ([] ++ ds) ++ "#"%char :: body)
                    (length ds) (length (@nil Z)) (Z.of_nat (length ds) - 1)
                    (digits_value [] * 16 ^ Z.of_nat (length ds))
                  = (true, digits_value ([] ++ ds))).
  { apply parse_id_loop_digits; try done. destruct ext; lia. }
  cbn [app length] in Hloop. change (digits_value [] * _) with 0 in Hloop.
  destruct ext; rewrite Hlen in Hloop.
  - destruct ds as [|d0 [|d1 [|d2 [|d3 [|d4 [|d5 [|d6 [|d7 [|]]]]]]]]];
      try discriminate Hlen.
    split; [|split; [|split; [|split]]]; try done.
    cbn. apply Forall_cons in Hds as [_ Hds]. apply Forall_cons in Hds as [_ Hds].
    apply Forall_cons in Hds as [_ Hds]. apply Forall_cons in Hds as [H3 _].
    destruct (asc2nibble_digit d3 H3) as (_ & Hne & _).
    by apply Forall_cons in Hne as [Hne _].
  - destruct ds as [|d0 [|d1 [|d2 [|]]]]; try discriminate Hlen.
    split; [|split; [|split; [|split]]]; done.
Qed.

Lemma parse_frame_digits_rtr fd b (ds : list Z) rest f (ext : bool) :
  length ds = (if ext then 8 else 3)%nat ->
  Forall (fun d => 0 <= d < 16) ds ->
  digits_value ds <= (if ext then TWAI_EXT_ID_MASK else TWAI_STD_ID_MASK) ->
  let r := Send.parse_frame fd b (map digit_char ds ++ "#"%char :: "R"%char :: rest) f in
  fst r = Send.ReturnTrue /\
  id (header (snd r)) = digits_value ds /\
  ide (header (snd r)) = ext /\
  rtr (header (snd r)) = true /\
  buffer_len (snd r) = 0.
Proof.
  intros Hlen Hds Hmax. cbn zeta.
  destruct (id_stage_facts b ds ("R"%char :: rest) ext Hlen Hds)
    as (H3 & H8 & Hloop & Hdrop & Hslen).
  unfold Send.parse_frame. rewrite Hslen.
  unfold Send.TWAI_STD_DELIMITER_POS, Send.TWAI_EXT_DELIMITER_POS,
    Send.TWAI_STD_DATA_START_POS, Send.TWAI_EXT_DATA_START_POS.
  rewrite H3.
  destruct ext.
  - rewrite (H8 eq_refl), Hloop. cbn [negb length]. cbv beta iota zeta.
    replace (Z.of_nat (9 + S (length rest)) <? Send.TWAI_MIN_FRAME_LEN) with false
      by (symmetry; apply Z.ltb_ge; unfold Send.TWAI_MIN_FRAME_LEN; lia).
    replace (TWAI_EXT_ID_MASK <? digits_value ds) with false
      by (symmetry; apply Z.ltb_ge; lia).
    cbv beta iota zeta. rewrite Hdrop.
    cbn [with_header header set_ide set_id ide id negb andb peek hd].
    change (Ascii.eqb "R" "R") with true. cbn [orb].
    by destruct (_ && _).
  - rewrite Hloop. cbn [negb length]. cbv beta iota zeta.
    replace (Z.of_nat (4 + S (length rest)) <? Send.TWAI_MIN_FRAME_LEN) with false
      by (symmetry; apply Z.ltb_ge; unfold Send.TWAI_MIN_FRAME_LEN; lia).
    rewrite Hdrop.
    cbn [with_header header set_ide set_id ide id negb andb peek hd].
    replace (TWAI_STD_ID_MASK <? digits_value ds) with false
      by (symmetry; apply Z.ltb_ge; lia).
    change (Ascii.eqb "R" "R") with true. cbn [orb].
    by destruct (_ && _).
Qed.

Lemma parse_frame_digits_data fd b (ds bytes : list Z) f (ext : bool) :
  length ds = (if ext then 8 else 3)%nat ->
  Forall (fun d => 0 <= d < 16) ds ->
  digits_value ds <= (if ext then TWAI_EXT_ID_MASK else TWAI_STD_ID_MASK) ->
  byte_list bytes -> (length bytes <= 8)%nat ->
  (8 <= length (buffer f))%nat ->
  ext = true \/ (1 <= length bytes)%nat ->
  let r := Send.parse_frame fd b
             (map digit_char ds ++ "#"%char :: concat (map (fmt_0X 2) bytes)) f in
  fst r = Send.ReturnTrue /\
  id (header (snd r)) = digits_value ds /\
  ide (header (snd r)) = ext /\
  rtr (header (snd r)) = false /\
  payload (snd r) = bytes.
Proof.
  intros Hlen Hds Hmax Hbytes Hb8 Hbuf Hne. cbn zeta.
  set (body := concat (map (fmt_0X 2) bytes)).
  destruct (id_stage_facts b ds body ext Hlen Hds)
    as (H3 & H8 & Hloop & Hdrop & Hslen).
  assert (Hpeek : Ascii.eqb (peek body) "R" = false /\
                  Ascii.eqb (peek body) "r" = false /\
                  Ascii.eqb (peek body) "#" = false).
  { destruct bytes as [|b0 bs]; [done|].
    destruct (peek_hex_text (b0 :: bs) [] Hbytes) as (d & Hd & Hp);
      [simpl; lia|].
    rewrite app_nil_r in Hp. fold body in Hp. rewrite Hp.
    destruct (asc2nibble_digit d Hd) as (_ & Hne' & _).
    apply Forall_cons in Hne' as [Hh Hne']. apply Forall_cons in Hne' as [_ Hne'].
    apply Forall_cons in Hne' as [HR Hne']. apply Forall_cons in Hne' as [Hr _].
    done. }
  destruct Hpeek as (HpR & Hpr & Hph).
  assert (Hbl : (2 * length bytes = length body)%nat).
  { subst body. clear -Hbytes. induction bytes as [|x l IH]; [done|].
    apply Forall_cons in Hbytes as [Hx Hl]. cbn [map concat length].
    rewrite length_app, <- (IH Hl), fmt_byte by done. simpl. lia. }
  assert (Hdl : Send.data_loop body (buffer f) 0 TWAI_FRAME_MAX_LEN
                = (None, [], bytes ++ drop (length bytes) (buffer f),
                   Z.of_nat (length bytes))).
  { change 0 with (Z.of_nat 0). subst body.
    rewrite data_loop_bytes; [by rewrite take_0|done|
      unfold TWAI_FRAME_MAX_LEN; simpl; lia|simpl; lia]. }
  unfold Send.parse_frame. rewrite Hslen.
  unfold Send.TWAI_STD_DELIMITER_POS, Send.TWAI_EXT_DELIMITER_POS,
    Send.TWAI_STD_DATA_START_POS, Send.TWAI_EXT_DATA_START_POS.
  rewrite H3.
  destruct ext.
  - rewrite (H8 eq_refl), Hloop. cbn [negb length]. cbv beta iota zeta.
    replace (Z.of_nat (9 + length body) <? Send.TWAI_MIN_FRAME_LEN) with false
      by (symmetry; apply Z.ltb_ge; unfold Send.TWAI_MIN_FRAME_LEN; lia).
    replace (TWAI_EXT_ID_MASK <? digits_value ds) with false
      by (symmetry; apply Z.ltb_ge; lia).
    cbv beta iota zeta. rewrite Hdrop.
    cbn [with_header header set_ide set_id ide id negb andb].
    rewrite HpR, Hpr, Hph. cbn [orb]. cbv beta iota zeta.
    cbn [with_header buffer]. rewrite Hdl.
    cbn [length Nat.eqb negb andb]. cbv beta iota zeta.
    rewrite !andb_false_r. cbn.
    repeat split; try done.
    unfold payload. cbn. by rewrite Nat2Z.id, take_app_length.
  - rewrite Hloop. cbn [negb length]. cbv beta iota zeta.
    replace (Z.of_nat (4 + length body) <? Send.TWAI_MIN_FRAME_LEN) with false
      by (symmetry; apply Z.ltb_ge; unfold Send.TWAI_MIN_FRAME_LEN;
          destruct Hne; [done|lia]).
    rewrite Hdrop.
    cbn [with_header header set_ide set_id ide id negb andb].
    replace (TWAI_STD_ID_MASK <? digits_value ds) with false
      by (symmetry; apply Z.ltb_ge; lia).
    rewrite HpR, Hpr, Hph. cbn [orb]. cbv beta iota zeta.
    cbn [with_header buffer]. rewrite Hdl.
    cbn [length Nat.eqb negb andb]. cbv beta iota zeta.
    rewrite !andb_false_r. cbn.
    repeat split; try done.
    unfold payload. cbn. by rewrite Nat2Z.id, take_app_length.
Qed.

(** X15: the inline [parse_frame] of the send command reads a captured
    frame back from the fields of its dump line, written in send syntax
    ([<id>#<hex bytes>] or [<id>#R<code>]).  For every record whose
    identifier is within the range of its width and whose printed bytes
    (as many as the data-length code says, at most eight) lie in the data
    array, it returns true with the same identifier, identifier width and
    remote flag, and with the printed bytes as payload.  The printed
    bytes are the payload of the record when it keeps the record
    invariants with a data-length code equal to the payload length
    ([short_record]); a record whose code exceeds its payload length
    reads back with as many bytes as the code says.  The one exception is
    a data frame with a standard identifier that prints no byte: its text
    [<id>#] has four characters, below the minimum length of five, and is
    refused as an invalid frame format with the frame untouched. *)
Theorem send_accepts_relayed (fd : bool) (beyond : nat -> ascii)
    (item : Dump.rx_queue_item_t) (f : twai_frame_t) :
  let h := Dump.item_header item in
  let n := Dump.actual_len fd item in
  let printed := if rtr h then [] else take (Z.to_nat n) (Dump.data item) in
  0 <= id h <= (if ide h then TWAI_EXT_ID_MASK else TWAI_STD_ID_MASK) ->
  byte_list (Dump.data item) ->
  (rtr h = false ->
   0 <= n <= TWAI_FRAME_MAX_LEN /\ n <= Z.of_nat (length (Dump.data item))) ->
  (8 <= length (buffer f))%nat ->
  let r := Send.parse_frame fd beyond (relay_text fd item) f in
  (if ide h || rtr h || (0 <? n)
   then fst r = Send.ReturnTrue /\
        id (header (snd r)) = id h /\
        ide (header (snd r)) = ide h /\
        rtr (header (snd r)) = rtr h /\
        payload (snd r) = printed
   else r = (Send.ReturnFalse Send.InvalidFrameFormat, f)) /\
  (short_record item -> printed = item_payload item).
Proof.
  intros h n printed Hid Hbytes Hn Hbuf. subst h n printed. cbn zeta.
  split.
  2:{ intros Hrec. destruct (rtr (Dump.item_header item)) eqn:Er.
      - destruct Hrec as (_ & _ & Hrtr & _). unfold item_payload.
        rewrite (Hrtr Er). by rewrite take_0.
      - unfold item_payload. by rewrite (actual_len_short fd item Hrec Er). }
  destruct (id_field_digits item Hid) as (ds & Hfield & Hds & Hval & Hw).
  unfold relay_text. rewrite Hfield.
  assert (Hbody : relay_body fd item
                  = if rtr (Dump.item_header item)
                    then "R"%char :: fmt_d (dlc (Dump.item_header item))
                    else concat (map (fmt_0X 2)
                                   (take (Z.to_nat (Dump.actual_len fd item))
                                      (Dump.data item)))).
  { unfold relay_body. destruct (rtr (Dump.item_header item)) eqn:Er; [done|].
    destruct (Hn eq_refl) as [Hn1 Hn2].
    rewrite <- (Z2Nat.id (Dump.actual_len fd item)) at 1 by lia.
    rewrite byte_fields_take by lia. reflexivity. }
  rewrite Hbody. change (cs "#" ++ ?x) with ("#"%char :: x).
  assert (Hmax : digits_value ds
                 <= (if ide (Dump.item_header item)
                     then TWAI_EXT_ID_MASK else TWAI_STD_ID_MASK)) by lia.
  destruct (rtr (Dump.item_header item)) eqn:Er.
  - rewrite orb_true_r. cbn [orb].
    destruct (parse_frame_digits_rtr fd beyond ds
                (fmt_d (dlc (Dump.item_header item))) f
                (ide (Dump.item_header item)) Hw Hds Hmax)
      as (H1 & H2 & H3 & H4 & H5).
    repeat split; try done; try congruence.
    unfold payload. rewrite H5. by rewrite take_0.
  - rewrite orb_false_r. destruct (Hn eq_refl) as [Hn1 Hn2].
    set (bytes := take (Z.to_nat (Dump.actual_len fd item)) (Dump.data item)).
    assert (Hplen : length bytes = Z.to_nat (Dump.actual_len fd item)).
    { unfold bytes. rewrite length_take. lia. }
    assert (Hpb : byte_list bytes) by (by apply Forall_take).
    destruct (ide (Dump.item_header item) || (0 <? Dump.actual_len fd item)) eqn:Eok.
    + destruct (parse_frame_digits_data fd beyond ds bytes f
                  (ide (Dump.item_header item)) Hw Hds Hmax Hpb)
        as (H1 & H2 & H3 & H4 & H5).
      * unfold TWAI_FRAME_MAX_LEN in Hn1. lia.
      * done.
      * apply orb_true_iff in Eok as [->|Hpos]; [by left|right].
        apply Z.ltb_lt in Hpos. lia.
      * repeat split; try done; congruence.
    + apply orb_false_iff in Eok as [Ei Hz]. apply Z.ltb_ge in Hz.
      rewrite Ei in Hw.
      destruct bytes as [|? ?]; [|simpl in Hplen; lia].
      cbn [map concat]. unfold Send.parse_frame.
      rewrite length_app, length_map, Hw. done.
Qed.

Lemma send_accepts_relayed_witness :
  let r := Send.parse_frame true (fun _ => NUL) (relay_text true legacy_item)
             (Send.fresh_frame 64) in
  fst r = Send.ReturnTrue /\
  id (header (snd r)) = 0x123 /\
  ide (header (snd r)) = false /\
  rtr (header (snd r)) = false /\
  payload (snd r) = [0xAA; 0xBB; 0xCC; 0; 0; 0; 0; 0].
Proof.
  apply (proj1 (send_accepts_relayed true (fun _ => NUL) legacy_item
                  (Send.fresh_frame 64)
                  ltac:(vm_compute; split; discriminate)
                  ltac:(repeat constructor; lia)
                  ltac:(intros _; vm_compute; repeat split; discriminate)
                  ltac:(simpl; lia))).
Defined.

(** ** The transmit rendezvous *)

Lemma notify_idle n waiter c :
  is_tx_pending (send_ctx c) = false -> Rendezvous.notify n waiter c = c.
Proof.
  intros H. induction n as [|n IH]; [done|].
  cbn [Rendezvous.notify]. unfold Rendezvous.twai_send_tx_done_cb.
  rewrite H. exact IH.
Qed.

Lemma notify_pending n waiter c :
  is_tx_pending (send_ctx c) = true ->
  Rendezvous.notify (S n) waiter c = set_tx_done_sem true (set_tx_pending false c).
Proof.
  intros H. cbn [Rendezvous.notify]. unfold Rendezvous.twai_send_tx_done_cb.
  rewrite H. by apply notify_idle.
Qed.

Lemma notify_initialized n w c :
  is_initialized (Rendezvous.notify n w c) = is_initialized c.
Proof.
  revert c. induction n as [|n IH]; intros c; [done|].
  cbn [Rendezvous.notify]. unfold Rendezvous.twai_send_tx_done_cb.
  destruct (is_tx_pending (send_ctx c)); cbn [snd]; by rewrite IH.
Qed.

Lemma notify_dump_ctx n w c :
  dump_ctx (Rendezvous.notify n w c) = dump_ctx c.
Proof.
  revert c. induction n as [|n IH]; intros c; [done|].
  cbn [Rendezvous.notify]. unfold Rendezvous.twai_send_tx_done_cb.
  destruct (is_tx_pending (send_ctx c)); cbn [snd]; by rewrite IH.
Qed.

(** What a call may change: the two fields of the send context. *)
Lemma send_frame_sync_frame r c :
  is_initialized (snd (Rendezvous.send_frame_sync r c)) = is_initialized c /\
  dump_ctx (snd (Rendezvous.send_frame_sync r c)) = dump_ctx c.
Proof.
  unfold Rendezvous.send_frame_sync.
  destruct (is_initialized c) eqn:Ei; cbn [negb]; [|done].
  repeat match goal with
  | |- context [if ?b then _ else _] => destruct b
  end; cbn; rewrite !notify_initialized, !notify_dump_ctx; done.
Qed.

(** X16: on a controller that is initialised and whose semaphore holds
    no give, [send_frame_sync] returns [ESP_OK] only if the driver
    accepted the frame and a transmit-done notification arrived during
    the driver call or during the wait; and whatever it returns, the
    pending flag is clear afterwards.  After [ESP_OK] the semaphore is
    empty again.  The call changes nothing but the send context. *)
Theorem send_ok_means_notified (r : Rendezvous.run) (c : twai_controller_ctx_t) :
  is_initialized c = true ->
  tx_done_sem (send_ctx c) = false ->
  let res := Rendezvous.send_frame_sync r c in
  is_tx_pending (send_ctx (snd res)) = false /\
  (fst res = ESP_OK ->
     Rendezvous.transmit_ret r = ESP_OK /\
     (1 <= Rendezvous.done_in_transmit r + Rendezvous.done_in_wait r)%nat /\
     tx_done_sem (send_ctx (snd res)) = false) /\
  is_initialized (snd res) = true /\
  dump_ctx (snd res) = dump_ctx c.
Proof.
  intros Hinit Hsem. cbn zeta.
  destruct (send_frame_sync_frame r c) as [Hi Hd]. rewrite Hi, Hd, Hinit.
  split; [|split; [|done]].
  - unfold Rendezvous.send_frame_sync. rewrite Hinit. cbn [negb].
    destruct (negb (is_ok (Rendezvous.transmit_ret r))); [done|].
    destruct (Rendezvous.done_in_transmit r) as [|n].
    + cbn [Rendezvous.notify]. cbn [set_tx_pending send_ctx tx_done_sem].
      rewrite Hsem.
      destruct (Rendezvous.done_in_wait r) as [|m].
      * cbn [Rendezvous.notify set_tx_pending send_ctx tx_done_sem].
        by rewrite Hsem.
      * by rewrite notify_pending.
    + by rewrite notify_pending.
  - unfold Rendezvous.send_frame_sync. rewrite Hinit. cbn [negb].
    destruct (Rendezvous.transmit_ret r) eqn:Et; cbn [is_ok negb];
      try (intros H; discriminate H).
    destruct (Rendezvous.done_in_transmit r) as [|n].
    + cbn [Rendezvous.notify]. cbn [set_tx_pending send_ctx tx_done_sem].
      rewrite Hsem.
      destruct (Rendezvous.done_in_wait r) as [|m].
      * cbn [Rendezvous.notify]. cbn [set_tx_pending send_ctx tx_done_sem].
        rewrite Hsem. intros H; discriminate H.
      * rewrite notify_pending by done. cbn. intros _. repeat split; (done || lia).
    + rewrite notify_pending by done. cbn. intros _. repeat split; (done || lia).
Qed.

Lemma send_ok_means_notified_witness :
  let res := Rendezvous.send_frame_sync Rendezvous.completing
               (controller_at_rest true 3 1) in
  is_tx_pending (send_ctx (snd res)) = false /\
  (fst res = ESP_OK ->
     ESP_OK = ESP_OK /\ (1 <= 0 + 1)%nat /\
     tx_done_sem (send_ctx (snd res)) = false) /\
  is_initialized (snd res) = true /\
  dump_ctx (snd res) = dump_ctx (controller_at_rest true 3 1).
Proof.
  apply (send_ok_means_notified Rendezvous.completing (controller_at_rest true 3 1)).
  - reflexivity.
  - reflexivity.
Defined.

(** X17: a transmit-done notification that arrives after the wait has
    expired but before [send_frame_sync] has cleared the pending flag is
    not lost: the call still returns [ESP_ERR_TIMEOUT], but the give stays
    in the semaphore.  The next call then returns [ESP_OK] without any
    notification of its own, leaves its pending flag set and the
    semaphore empty. *)
Theorem late_notification_stale_give (c : twai_controller_ctx_t) (k : nat) :
  is_initialized c = true ->
  tx_done_sem (send_ctx c) = false ->
  (1 <= k)%nat ->
  let r1 := Rendezvous.send_frame_sync (Rendezvous.mkRun ESP_OK 0 0 k) c in
  let r2 := Rendezvous.send_frame_sync Rendezvous.silent (snd r1) in
  fst r1 = ESP_ERR_TIMEOUT /\
  is_tx_pending (send_ctx (snd r1)) = false /\
  tx_done_sem (send_ctx (snd r1)) = true /\
  fst r2 = ESP_OK /\
  is_tx_pending (send_ctx (snd r2)) = true /\
  tx_done_sem (send_ctx (snd r2)) = false.
Proof.
  intros Hinit Hsem Hk. destruct k as [|k]; [lia|]. cbn zeta.
  assert (H1 : Rendezvous.send_frame_sync (Rendezvous.mkRun ESP_OK 0 0 (S k)) c
               = (ESP_ERR_TIMEOUT, set_tx_done_sem true (set_tx_pending false c))).
  { unfold Rendezvous.send_frame_sync. rewrite Hinit.
    cbn [negb is_ok Rendezvous.transmit_ret Rendezvous.done_in_transmit
         Rendezvous.done_in_wait Rendezvous.done_after_expiry].
    change (Rendezvous.notify 0 true ?x) with x.
    change (Rendezvous.notify 0 false ?x) with x.
    cbn [set_tx_pending send_ctx tx_done_sem]. rewrite Hsem.
    rewrite notify_pending by done. by destruct c as [? [? ?] ?]. }
  rewrite H1. cbn [fst snd].
  unfold Rendezvous.send_frame_sync, Rendezvous.silent.
  cbn. rewrite Hinit. by cbn.
Qed.

Lemma late_notification_stale_give_witness :
  let c := controller_at_rest true 3 1 in
  let r1 := Rendezvous.send_frame_sync (Rendezvous.mkRun ESP_OK 0 0 1) c in
  let r2 := Rendezvous.send_frame_sync Rendezvous.silent (snd r1) in
  fst r1 = ESP_ERR_TIMEOUT /\
  is_tx_pending (send_ctx (snd r1)) = false /\
  tx_done_sem (send_ctx (snd r1)) = true /\
  fst r2 = ESP_OK /\
  is_tx_pending (send_ctx (snd r2)) = true /\
  tx_done_sem (send_ctx (snd r2)) = false.
Proof.
  apply (late_notification_stale_give (controller_at_rest true 3 1) 1).
  - reflexivity.
  - reflexivity.
  - lia.
Defined.

(** X18: [twai_send_handler] returns [ESP_ERR_INVALID_ARG], without a
    call of [send_frame_sync] and with every controller as it was,
    exactly when the controller id is out of range, no frame string is
    given, the frame string has no hash sign or [parse_frame] refuses it.
    In every other case it hands the frame that [parse_frame] built in
    the zeroed buffer to [send_frame_sync] on the addressed controller
    and returns [ESP_OK] if that call returns [ESP_OK] and [ESP_FAIL] for
    every failure of it (not initialised, driver error, time-out).  It
    then returns [ESP_OK] only if the controller is initialised and, when
    its semaphore held no give, a transmit-done notification arrived
    during the call.  The other controllers and the capture state of the
    addressed one are left alone. *)
Theorem twai_send_handler_outcomes (fd : bool) (num : Z) (beyond : nat -> ascii)
    (r : Rendezvous.run) (table : list twai_controller_ctx_t)
    (controller_id : Z) (frame_str : option cstring) :
  Z.of_nat (length table) = num ->
  let res := twai_send_handler fd num beyond r table controller_id frame_str in
  let refused := (ESP_ERR_INVALID_ARG, table, None) in
  let parse str :=
    Send.parse_frame fd beyond str (Send.fresh_frame (TWAI_FRAME_BUFFER_SIZE fd)) in
  (controller_id < 0 \/ num <= controller_id -> res = refused) /\
  (frame_str = None -> res = refused) /\
  (forall str, frame_str = Some str -> ~ In "#"%char str -> res = refused) /\
  (forall str, frame_str = Some str ->
     Send.succeeded (fst (parse str)) = false -> res = refused) /\
  (forall str,
     0 <= controller_id < num -> frame_str = Some str -> In "#"%char str ->
     Send.succeeded (fst (parse str)) = true ->
     exists controller,
       table !! Z.to_nat controller_id = Some controller /\
       let sent := Rendezvous.send_frame_sync r controller in
       res = (if is_ok (fst sent) then ESP_OK else ESP_FAIL,
              <[Z.to_nat controller_id := snd sent]> table,
              Some (snd (parse str))) /\
       dump_ctx (snd sent) = dump_ctx controller /\
       is_initialized (snd sent) = is_initialized controller /\
       (fst (fst res) = ESP_OK ->
          is_initialized controller = true /\
          (tx_done_sem (send_ctx controller) = false ->
           (1 <= Rendezvous.done_in_transmit r + Rendezvous.done_in_wait r)%nat))).
Proof.
  intros Hlen. cbn zeta. unfold twai_send_handler, get_controller_by_id.
  split; [|split; [|split; [|split]]].
  - intros Hid.
    replace ((controller_id <? 0) || (num <=? controller_id)) with true; [done|].
    symmetry. apply orb_true_iff.
    destruct Hid; [left; by apply Z.ltb_lt|right; by apply Z.leb_le].
  - intros ->. destruct (_ || _); [done|]. by destruct (table !! _).
  - intros str -> Hnot. destruct (_ || _); [done|].
    destruct (table !! _); [|done].
    apply strchr_None in Hnot. by rewrite Hnot.
  - intros str -> Hfail. destruct (_ || _); [done|].
    destruct (table !! _); [|done].
    destruct (strchr str "#"); [|done].
    destruct (Send.parse_frame fd beyond str _) as [v frame'].
    cbn [fst] in Hfail. by rewrite Hfail.
  - intros str Hid -> Hin Hok.
    replace ((controller_id <? 0) || (num <=? controller_id)) with false
      by (symmetry; apply orb_false_iff; split;
          [apply Z.ltb_ge|apply Z.leb_gt]; lia).
    destruct (table !! Z.to_nat controller_id) as [controller|] eqn:Hc.
    2:{ apply lookup_ge_None in Hc. lia. }
    exists controller. split; [done|].
    destruct (strchr str "#") as [k|] eqn:Hs.
    2:{ apply strchr_None in Hs. done. }
    destruct (Send.parse_frame fd beyond str _) as [v frame'].
    cbn [fst snd] in *. rewrite Hok. cbn [negb].
    destruct (send_frame_sync_frame r controller) as [Hi Hd].
    assert (Hnotif : fst (Rendezvous.send_frame_sync r controller) = ESP_OK ->
              is_initialized controller = true /\
              (tx_done_sem (send_ctx controller) = false ->
               (1 <= Rendezvous.done_in_transmit r + Rendezvous.done_in_wait r)%nat)).
    { clear. unfold Rendezvous.send_frame_sync.
      destruct (is_initialized controller); cbn [negb]; [|intros H; discriminate H].
      intros Hok. split; [done|]. intros Hsem.
      destruct (Rendezvous.done_in_transmit r) as [|n]; [|lia].
      destruct (Rendezvous.done_in_wait r) as [|m]; [|lia].
      exfalso. revert Hok.
      change (Rendezvous.notify 0 true ?x) with x.
      change (Rendezvous.notify 0 false ?x) with x.
      cbn [set_tx_pending send_ctx tx_done_sem]. rewrite Hsem.
      destruct (negb (is_ok (Rendezvous.transmit_ret r))) eqn:E.
      - cbn [fst]. intros Hr. rewrite Hr in E. discriminate E.
      - intros H. discriminate H. }
    destruct (Rendezvous.send_frame_sync r controller) as [ret controller'].
    cbn [fst snd] in *.
    split; [by destruct ret|]. split; [done|]. split; [done|].
    destruct ret; cbn [is_ok negb fst]; try (intros H; discriminate H).
    intros _. by apply Hnotif.
Qed.

Lemma twai_send_handler_outcomes_witness :
  let table := [controller_at_rest true 3 1; controller_at_rest false 3 1] in
  exists controller,
    table !! 0%nat = Some controller /\
    twai_send_handler false 2 (fun _ => NUL) Rendezvous.completing table 0
      (Some (cs "123#AABB"))
    = (ESP_OK,
       <[0%nat := snd (Rendezvous.send_frame_sync Rendezvous.completing controller)]>
         table,
       Some (mkFrame (mkHeader 0x123 2 false false false false false)
               [0xAA; 0xBB; 0; 0; 0; 0; 0; 0] 2)).
Proof.
  cbn zeta.
  destruct (twai_send_handler_outcomes false 2 (fun _ => NUL) Rendezvous.completing
              [controller_at_rest true 3 1; controller_at_rest false 3 1] 0
              (Some (cs "123#AABB")) eq_refl)
    as (_ & _ & _ & _ & Hsend).
  destruct (Hsend (cs "123#AABB")) as (controller & Hc & Hres & _).
  - lia.
  - reflexivity.
  - vm_compute. tauto.
  - reflexivity.
  - exists controller. split; [exact Hc|].
    injection Hc as <-. exact Hres.
Defined.

(** ** The capture pipeline at work *)

Lemma format_keeps_running fd d item cid max_len :
  is_running (snd (Dump.format_twaidump_frame fd d item cid max_len))
  = is_running d.
Proof.
  unfold Dump.format_twaidump_frame.
  assert (H : is_running (snd (Dump.format_timestamp d (Dump.timestamp_us item)))
              = is_running d).
  { unfold Dump.format_timestamp. by destruct (timestamp_mode d). }
  destruct (Dump.format_timestamp d (Dump.timestamp_us item)) as [ts d'].
  cbn [snd] in H.
  repeat match goal with
  | |- context [let '(_, _) := ?e in _] => destruct e
  end.
  done.
Qed.

Lemma run_app fd size cid ev1 ev2 p :
  Capture.run fd size cid (ev1 ++ ev2) p
  = Capture.run fd size cid ev2 (Capture.run fd size cid ev1 p).
Proof. unfold Capture.run. by rewrite fold_left_app. Qed.

Lemma step_running fd size cid e p :
  is_running (Capture.ctx (Capture.step fd size cid e p))
  = is_running (Capture.ctx p).
Proof.
  destruct e as [[frame|] now|]; cbn [Capture.step].
  - unfold Capture.twai_dump_rx_done_cb.
    destruct (negb _); [done|]. by destruct (_ <? _).
  - unfold Capture.twai_dump_rx_done_cb. by destruct (negb _).
  - destruct (is_running (Capture.ctx p)) eqn:E; [|done].
    unfold Capture.dump_task_pass. destruct (Capture.queue p) as [|item rest]; [done|].
    pose proof (format_keeps_running fd (Capture.ctx p) item cid
                  Dump.DUMP_OUTPUT_LINE_SIZE) as H.
    destruct (Dump.format_twaidump_frame _ _ _ _ _) as [line d']. cbn in *.
    congruence.
Qed.

(** X19: the queue never holds more than its capacity, whatever the
    interrupts and the task do.  When frames arrive in a burst, with no
    pass of the dump task in between, the queue keeps the oldest frames
    in their order of arrival up to its capacity and the callback drops
    the rest without any other effect: nothing is printed and the dump
    context is not changed. *)
Theorem burst_keeps_oldest (fd : bool) (size cid : Z)
    (events : list Capture.event) (p : Capture.pipeline) :
  Z.of_nat (length (Capture.queue p)) <= size ->
  Z.of_nat (length (Capture.queue (Capture.run fd size cid events p))) <= size /\
  (is_running (Capture.ctx p) = true ->
   Forall (fun e => e <> Capture.TaskPass) events ->
   Capture.run fd size cid events p
   = Capture.mkPipeline (Capture.ctx p)
       (take (Z.to_nat size) (Capture.queue p ++ Capture.arrivals events))
       (Capture.console p)).
Proof.
  revert p. induction events as [|e events IH]; intros p Hsize.
  - split; [done|]. intros _ _. cbn [Capture.run fold_left Capture.arrivals].
    rewrite app_nil_r, take_ge by lia. by destruct p.
  - change (Capture.run fd size cid (e :: events) p)
      with (Capture.run fd size cid events (Capture.step fd size cid e p)).
    assert (Hstep : Z.of_nat (length (Capture.queue (Capture.step fd size cid e p)))
                    <= size).
    { destruct e as [[frame|] now|]; cbn [Capture.step].
      - unfold Capture.twai_dump_rx_done_cb.
        destruct (negb _); [done|]. destruct (_ <? _) eqn:E; [|done].
        apply Z.ltb_lt in E. cbn. rewrite length_app. simpl. lia.
      - unfold Capture.twai_dump_rx_done_cb. by destruct (negb _).
      - destruct (is_running (Capture.ctx p)); [|done].
        unfold Capture.dump_task_pass.
        destruct (Capture.queue p) as [|item rest] eqn:Eq; [by rewrite Eq|].
        destruct (Dump.format_twaidump_frame _ _ _ _ _) as [line d']. cbn.
        simpl in Hsize. lia. }
    destruct (IH _ Hstep) as [IH1 IH2]. split; [done|].
    intros Hrun Hall. apply Forall_cons in Hall as [He Hall].
    rewrite IH2; [|by rewrite step_running|done].
    destruct e as [[frame|] now|]; [| |done]; cbn [Capture.step Capture.arrivals].
    + unfold Capture.twai_dump_rx_done_cb. rewrite Hrun. cbn [negb].
      destruct (_ <? _) eqn:E; cbn [snd Capture.ctx Capture.queue Capture.console].
      * by rewrite <- app_assoc.
      * apply Z.ltb_ge in E. f_equal.
        rewrite !take_app_le by lia. done.
    + unfold Capture.twai_dump_rx_done_cb. by rewrite Hrun.
Qed.

Lemma burst_keeps_oldest_witness :
  let p := Capture.mkPipeline
             (set_running true (dump_ctx (controller_at_rest true 3 1))) [] [] in
  let frame i := Capture.mkReceived (mkHeader i 0 false false false false false) [] 0 in
  let events := [Capture.RxDone (Some (frame 1)) 10;
                 Capture.RxDone (Some (frame 2)) 20;
                 Capture.RxDone (Some (frame 3)) 30] in
  Z.of_nat (length (Capture.queue (Capture.run false 2 0 events p))) <= 2 /\
  (is_running (Capture.ctx p) = true ->
   Forall (fun e => e <> Capture.TaskPass) events ->
   Capture.run false 2 0 events p
   = Capture.mkPipeline (Capture.ctx p)
       (take (Z.to_nat 2) (Capture.queue p ++ Capture.arrivals events))
       (Capture.console p)).
Proof.
  apply (burst_keeps_oldest false 2 0).
  simpl. lia.
Defined.

Lemma print_all_app fd cid items1 : forall d items2,
  Capture.print_all fd cid d (items1 ++ items2)
  = let '(l1, d1) := Capture.print_all fd cid d items1 in
    let '(l2, d2) := Capture.print_all fd cid d1 items2 in
    (l1 ++ l2, d2).
Proof.
  induction items1 as [|item items1 IH]; intros d items2.
  - cbn. by destruct (Capture.print_all fd cid d items2).
  - cbn [app Capture.print_all].
    destruct (Dump.format_twaidump_frame _ _ _ _ _) as [line d'].
    rewrite IH.
    destruct (Capture.print_all fd cid d' items1) as [l1 d1].
    by destruct (Capture.print_all fd cid d1 items2) as [l2 d2].
Qed.

(** X20: as long as the queue does not overflow, that is, no receive
    interrupt that brings a frame finds the queue full, the output of a
    capture does not depend on when the dump task runs: after any
    interleaving of receive interrupts and task passes, the lines printed
    so far followed by the lines that printing the queue would add are
    the lines of all frames in their order of arrival, each formatted
    once; the dump context (with the time of the last frame for delta
    timestamps) ends up the same.  In particular, once the queue is
    empty every frame received has been printed, in order.  A run in
    which all frames together fit into the queue never overflows. *)
Theorem capture_output_order (fd : bool) (size cid : Z)
    (events : list Capture.event) (p : Capture.pipeline) :
  is_running (Capture.ctx p) = true ->
  let p' := Capture.run fd size cid events p in
  let all := Capture.print_all fd cid (Capture.ctx p)
               (Capture.queue p ++ Capture.arrivals events) in
  let rest := Capture.print_all fd cid (Capture.ctx p') (Capture.queue p') in
  (Capture.no_overflow fd size cid events p = true ->
   Capture.console p' ++ fst rest = Capture.console p ++ fst all /\
   snd rest = snd all /\
   (Capture.queue p' = [] ->
    Capture.console p' = Capture.console p ++ fst all /\ Capture.ctx p' = snd all)) /\
  (Z.of_nat (length (Capture.queue p) + length (Capture.arrivals events)) <= size ->
   Capture.no_overflow fd size cid events p = true).
Proof.
  intros Hrun. cbn zeta. split.
  2:{ revert p Hrun. induction events as [|e events IH]; intros p Hrun Hroom; [done|].
      cbn [Capture.no_overflow]. apply andb_true_iff.
      destruct e as [[frame|] now|]; cbn [Capture.arrivals length] in Hroom.
      - assert (Hlt : (Z.of_nat (length (Capture.queue p)) <? size) = true)
          by (apply Z.ltb_lt; lia).
        split; [done|]. apply IH.
        + by rewrite step_running.
        + cbn [Capture.step]. unfold Capture.twai_dump_rx_done_cb.
          rewrite Hrun, Hlt. cbn [negb snd Capture.queue].
          rewrite length_app. simpl. lia.
      - split; [done|]. apply IH; [by rewrite step_running|].
        cbn [Capture.step]. unfold Capture.twai_dump_rx_done_cb.
        by rewrite Hrun.
      - split; [done|]. apply IH; [by rewrite step_running|].
        cbn [Capture.step]. rewrite Hrun. unfold Capture.dump_task_pass.
        destruct (Capture.queue p) as [|item q] eqn:Eq; [by rewrite Eq|].
        destruct (Dump.format_twaidump_frame _ _ _ _ _) as [line d'].
        cbn [Capture.queue]. simpl in Hroom. lia. }
  intros Hroom.
  assert (Hmain :
    Capture.console (Capture.run fd size cid events p)
      ++ fst (Capture.print_all fd cid (Capture.ctx (Capture.run fd size cid events p))
                (Capture.queue (Capture.run fd size cid events p)))
    = Capture.console p
      ++ fst (Capture.print_all fd cid (Capture.ctx p)
                (Capture.queue p ++ Capture.arrivals events)) /\
    snd (Capture.print_all fd cid (Capture.ctx (Capture.run fd size cid events p))
           (Capture.queue (Capture.run fd size cid events p)))
    = snd (Capture.print_all fd cid (Capture.ctx p)
             (Capture.queue p ++ Capture.arrivals events))).
  { revert p Hrun Hroom. induction events as [|e events IH]; intros p Hrun Hroom.
    - cbn [Capture.run fold_left Capture.arrivals]. by rewrite app_nil_r.
    - change (Capture.run fd size cid (e :: events) p)
        with (Capture.run fd size cid events (Capture.step fd size cid e p)).
      cbn [Capture.no_overflow] in Hroom.
      apply andb_true_iff in Hroom as [Hhead Hroom].
      destruct e as [[frame|] now|]; cbn [Capture.arrivals length] in *.
      + assert (Hstep : Capture.step fd size cid (Capture.RxDone (Some frame) now) p
                        = Capture.mkPipeline (Capture.ctx p)
                            (Capture.queue p
                               ++ [Dump.mkItem (Capture.rx_header frame)
                                     (Capture.rx_data frame) (Capture.rx_len frame) now])
                            (Capture.console p)).
        { cbn [Capture.step]. unfold Capture.twai_dump_rx_done_cb.
          by rewrite Hrun, Hhead. }
        rewrite Hstep in *.
        destruct (IH (Capture.mkPipeline (Capture.ctx p)
                        (Capture.queue p
                           ++ [Dump.mkItem (Capture.rx_header frame)
                                 (Capture.rx_data frame) (Capture.rx_len frame) now])
                        (Capture.console p))) as [I1 I2]; [done|done|].
        cbn [Capture.ctx Capture.queue Capture.console] in I1, I2.
        rewrite <- app_assoc in I1, I2. done.
      + assert (Hstep : Capture.step fd size cid (Capture.RxDone None now) p = p).
        { cbn [Capture.step]. unfold Capture.twai_dump_rx_done_cb. by rewrite Hrun. }
        rewrite Hstep in *. by apply IH.
      + cbn [Capture.step] in *. rewrite Hrun in *.
        unfold Capture.dump_task_pass in *.
        destruct (Capture.queue p) as [|item q] eqn:Eq.
        * destruct (IH p Hrun Hroom) as [I1 I2].
          rewrite Eq in I1, I2. done.
        * cbn [app Capture.print_all].
          pose proof (format_keeps_running fd (Capture.ctx p) item cid
                        Dump.DUMP_OUTPUT_LINE_SIZE) as Hk.
          destruct (Dump.format_twaidump_frame _ _ _ _ _) as [line d'].
          cbn [snd] in Hk.
          destruct (IH (Capture.mkPipeline d' q (Capture.console p ++ [line])))
            as [I1 I2].
          -- cbn [Capture.ctx]. congruence.
          -- done.
          -- cbn [Capture.ctx Capture.queue Capture.console] in I1, I2.
             rewrite I1, I2.
             destruct (Capture.print_all fd cid d' (q ++ Capture.arrivals events)).
             cbn [fst snd]. by rewrite <- app_assoc. }
  destruct Hmain as [H1 H2]. split; [done|]. split; [done|].
  intros Hq. rewrite Hq in H1, H2. cbn in H1, H2. rewrite app_nil_r in H1. done.
Qed.

Lemma capture_output_order_witness :
  let p := Capture.mkPipeline
             (set_timestamp_mode TIMESTAMP_MODE_DELTA
                (set_running true (dump_ctx (controller_at_rest true 3 1)))) [] [] in
  let frame i := Capture.mkReceived (mkHeader i 1 false false false false false) [i] 1 in
  let events := [Capture.RxDone (Some (frame 1)) 10; Capture.TaskPass;
                 Capture.RxDone (Some (frame 2)) 25; Capture.RxDone None 30;
                 Capture.TaskPass; Capture.RxDone (Some (frame 3)) 40] in
  let p' := Capture.run false 1 0 events p in
  let all := Capture.print_all false 0 (Capture.ctx p)
               (Capture.queue p ++ Capture.arrivals events) in
  let rest := Capture.print_all false 0 (Capture.ctx p') (Capture.queue p') in
  (length (Capture.arrivals events) = 3%nat /\ length (Capture.queue p') = 1%nat) /\
  Capture.console p' ++ fst rest = Capture.console p ++ fst all /\
  snd rest = snd all.
Proof.
  cbn zeta. split; [by vm_compute|].
  match goal with
  | |- context [Capture.run false 1 0 ?events ?p] =>
      destruct (proj1 (capture_output_order false 1 0 events p eq_refl) eq_refl)
        as (Hlines & Hctx & _)
  end.
  split; [exact Hlines|exact Hctx].
Defined.

(** *** Stopping the capture *)

Lemma set_dump_ctx_same c : set_dump_ctx (dump_ctx c) c = c.
Proof. by destruct c. Qed.

(** X21: a capture that has been started on an idle controller is torn
    down completely by [twai_dump <name> --stop] when the dump task gets
    to run its exit code: the command returns [ESP_OK], the running flag
    is cleared, the queue that the start created is deleted, both handles
    are NULL again and the whole table of controllers is as it was before
    the start.  Stopping a controller whose capture is not running
    returns [ESP_OK] and does nothing. *)
Theorem start_stop_roundtrip (num : Z) (table : list twai_controller_ctx_t)
    (controller_id : Z) (c : twai_controller_ctx_t) (q t : handle)
    (rest : cstring) :
  Z.of_nat (length table) = num ->
  0 <= controller_id < num -> controller_id <= 9 ->
  table !! Z.to_nat controller_id = Some c ->
  idle (dump_ctx c) ->
  let started := Dump.twai_dump_start_controller (Some q) (Some t) (dump_ctx c) in
  let table1 :=
    <[Z.to_nat controller_id := set_dump_ctx (snd (fst started)) c]> table in
  let name := cs "twai" ++ fmt_d controller_id ++ rest in
  fst (fst started) = ESP_OK /\
  snd started = [Dump.XQueueCreate; Dump.StoreIsRunning true; Dump.XTaskCreate] /\
  Capture.twai_dump_handler_stop num true table1 name
  = (ESP_OK, table, [Dump.StoreIsRunning false; Dump.VQueueDelete]) /\
  Capture.twai_dump_handler_stop num true table name = (ESP_OK, table, []).
Proof.
  intros Hlen Hid H9 Hc (Hrun & Hq & Ht). cbn zeta.
  unfold Dump.twai_dump_start_controller, Dump.bind, Dump.get, Dump.modify,
    Dump.emit, Dump.ret.
  rewrite Hrun. cbn [fst snd app].
  split; [done|]. split; [done|].
  assert (Hname : parse_controller_string num
                    (cs "twai" ++ fmt_d controller_id ++ rest) = controller_id).
  { unfold parse_controller_string. by rewrite parse_controller_id_name. }
  assert (Hge : negb (0 <=? controller_id) = false).
  { apply negb_false_iff. apply Z.leb_le. lia. }
  assert (Hrange : (controller_id <? 0) || (num <=? controller_id) = false).
  { apply orb_false_iff. split; [apply Z.ltb_ge|apply Z.leb_gt]; lia. }
  split.
  - unfold Capture.twai_dump_handler_stop, Capture.twai_dump_stop_internal.
    rewrite Hname, Hge, Hrange.
    destruct (get_controller_by_id_inside num
                (<[Z.to_nat controller_id :=
                     set_dump_ctx
                       (set_task_handle (Some t)
                          (set_running true (set_rx_queue (Some q) (dump_ctx c)))) c]>
                   table) controller_id) as [-> _];
      [by rewrite length_insert|done|].
    rewrite list_lookup_insert_eq by (apply lookup_lt_Some in Hc; lia).
    unfold Capture.signal_stop_and_wait, Capture.dump_task_exit, Dump.bind,
      Dump.get, Dump.modify, Dump.emit, Dump.ret.
    cbn. rewrite list_insert_insert_eq.
    f_equal. f_equal. apply list_insert_id. rewrite Hc. f_equal.
    destruct c as [i s d]. destruct d. cbn in *. subst. done.
  - unfold Capture.twai_dump_handler_stop, Capture.twai_dump_stop_internal.
    rewrite Hname, Hge, Hrange.
    destruct (get_controller_by_id_inside num table controller_id Hlen Hid)
      as [-> _].
    rewrite Hc.
    unfold Capture.signal_stop_and_wait, Dump.bind, Dump.get, Dump.ret.
    rewrite Hrun. cbn. rewrite set_dump_ctx_same.
    by rewrite list_insert_id.
Qed.

Lemma start_stop_roundtrip_witness :
  let table := [controller_at_rest true 3 1; controller_at_rest false 3 1] in
  let started :=
    Dump.twai_dump_start_controller (Some 5) (Some 7)
      (dump_ctx (controller_at_rest true 3 1)) in
  let table1 :=
    <[Z.to_nat 0 := set_dump_ctx (snd (fst started)) (controller_at_rest true 3 1)]>
      table in
  let name := cs "twai" ++ fmt_d 0 ++ cs "" in
  fst (fst started) = ESP_OK /\
  snd started = [Dump.XQueueCreate; Dump.StoreIsRunning true; Dump.XTaskCreate] /\
  Capture.twai_dump_handler_stop 2 true table1 name
  = (ESP_OK, table, [Dump.StoreIsRunning false; Dump.VQueueDelete]) /\
  Capture.twai_dump_handler_stop 2 true table name = (ESP_OK, table, []).
Proof.
  apply (start_stop_roundtrip 2
           [controller_at_rest true 3 1; controller_at_rest false 3 1] 0
           (controller_at_rest true 3 1) 5 7 (cs "")).
  - reflexivity.
  - lia.
  - lia.
  - reflexivity.
  - repeat split.
Defined.

(** X22: if the dump task does not get to run its exit code while
    [twai_dump_stop_internal] waits, the stop returns [ESP_ERR_TIMEOUT]
    with the running flag cleared and nothing else changed: queue and
    task handle stay in the context.  A second stop of the same
    controller then returns [ESP_OK] at once and changes nothing, whether
    or not the task has exited.  A controller id outside the table gives
    [ESP_ERR_INVALID_ARG]. *)
Theorem stop_timeout_keeps_resources (num : Z)
    (table : list twai_controller_ctx_t) (controller_id : Z)
    (c : twai_controller_ctx_t) (t : handle) :
  Z.of_nat (length table) = num ->
  0 <= controller_id < num ->
  table !! Z.to_nat controller_id = Some c ->
  is_running (dump_ctx c) = true ->
  dump_task_handle (dump_ctx c) = Some t ->
  let stopped :=
    <[Z.to_nat controller_id := set_dump_ctx (set_running false (dump_ctx c)) c]>
      table in
  Capture.twai_dump_stop_internal num false table controller_id
  = (ESP_ERR_TIMEOUT, stopped, [Dump.StoreIsRunning false]) /\
  (forall task_exits,
     Capture.twai_dump_stop_internal num task_exits stopped controller_id
     = (ESP_OK, stopped, [])) /\
  (forall task_exits other,
     other < 0 \/ num <= other ->
     Capture.twai_dump_stop_internal num task_exits table other
     = (ESP_ERR_INVALID_ARG, table, [])).
Proof.
  intros Hlen Hid Hc Hrun Ht. cbn zeta.
  assert (Hrange : (controller_id <? 0) || (num <=? controller_id) = false).
  { apply orb_false_iff. split; [apply Z.ltb_ge|apply Z.leb_gt]; lia. }
  assert (Hlt : (Z.to_nat controller_id < length table)%nat)
    by (by apply lookup_lt_Some in Hc).
  split; [|split].
  - unfold Capture.twai_dump_stop_internal. rewrite Hrange.
    destruct (get_controller_by_id_inside num table controller_id Hlen Hid)
      as [-> _].
    rewrite Hc.
    unfold Capture.signal_stop_and_wait, Dump.bind, Dump.get, Dump.modify,
      Dump.emit, Dump.ret.
    rewrite Hrun. cbn. by rewrite Ht.
  - intros task_exits. unfold Capture.twai_dump_stop_internal. rewrite Hrange.
    destruct (get_controller_by_id_inside num
                (<[Z.to_nat controller_id :=
                     set_dump_ctx (set_running false (dump_ctx c)) c]> table)
                controller_id) as [-> _]; [by rewrite length_insert|done|].
    rewrite list_lookup_insert_eq by done.
    unfold Capture.signal_stop_and_wait, Dump.bind, Dump.get, Dump.ret.
    cbn. rewrite list_insert_insert_eq. done.
  - intros task_exits other Hother. unfold Capture.twai_dump_stop_internal.
    replace ((other <? 0) || (num <=? other)) with true; [done|].
    symmetry. apply orb_true_iff.
    destruct Hother; [left; apply Z.ltb_lt|right; apply Z.leb_le]; lia.
Qed.

Lemma stop_timeout_keeps_resources_witness :
  let c := set_dump_ctx
             (set_task_handle (Some 7)
                (set_running true
                   (set_rx_queue (Some 5) (dump_ctx (controller_at_rest true 3 1)))))
             (controller_at_rest true 3 1) in
  let table := [c; controller_at_rest false 3 1] in
  let stopped :=
    <[Z.to_nat 0 := set_dump_ctx (set_running false (dump_ctx c)) c]> table in
  Capture.twai_dump_stop_internal 2 false table 0
  = (ESP_ERR_TIMEOUT, stopped, [Dump.StoreIsRunning false]) /\
  (forall task_exits,
     Capture.twai_dump_stop_internal 2 task_exits stopped 0
     = (ESP_OK, stopped, [])) /\
  (forall task_exits other,
     other < 0 \/ 2 <= other ->
     Capture.twai_dump_stop_internal 2 task_exits table other
     = (ESP_ERR_INVALID_ARG, table, [])).
Proof.
  apply (stop_timeout_keeps_resources 2 _ 0 _ 7).
  - reflexivity.
  - lia.
  - reflexivity.
  - reflexivity.
  - reflexivity.
Defined.

(** ** The driver calls of a filter configuration *)

Lemma until_failure_app driver a b :
  until_failure driver (a ++ b)
  = match until_failure driver a with
    | (Some e, made) => (Some e, made)
    | (None, made) =>
        let '(e, made') := until_failure driver b in (e, made ++ made')
    end.
Proof.
  induction a as [|call a IH]; cbn [app until_failure].
  - by destruct (until_failure driver b).
  - destruct (negb (is_ok (driver call))); [done|]. rewrite IH.
    destruct (until_failure driver a) as [[e|] made]; [done|].
    by destruct (until_failure driver b).
Qed.

Lemma config_mask_filters_calls driver cfgs (n : nat) : forall i,
  Dump.config_mask_filters driver cfgs n i
  = until_failure driver
      (map (fun j => Dump.TwaiNodeConfigMaskFilter j
                       (nth (Z.to_nat j) cfgs Dump.zero_mask))
         (seqZ i (Z.of_nat n))).
Proof.
  induction n as [|n IH]; intros i; [done|].
  rewrite (seqZ_cons i (Z.of_nat (S n))) by lia.
  replace (Z.pred (Z.of_nat (S n))) with (Z.of_nat n) by lia.
  replace (Z.succ i) with (i + 1) by lia.
  cbn [Dump.config_mask_filters map until_failure].
  destruct (negb (is_ok _)); [done|]. by rewrite IH.
Qed.

Lemma config_range_filters_calls driver cfgs mask_count (n : nat) : forall i,
  Dump.config_range_filters driver cfgs mask_count n i
  = until_failure driver
      (concat (map (fun j =>
                      Dump.TwaiNodeConfigRangeFilter j
                        (nth (Z.to_nat j) cfgs Dump.zero_range)
                      :: (if mask_count =? 0
                          then [Dump.TwaiNodeConfigMaskFilter 0
                                  (mkMask 0xFFFFFFFF 0xFFFFFFFF false)]
                          else []))
                 (seqZ i (Z.of_nat n)))).
Proof.
  induction n as [|n IH]; intros i; [done|].
  rewrite (seqZ_cons i (Z.of_nat (S n))) by lia.
  replace (Z.pred (Z.of_nat (S n))) with (Z.of_nat n) by lia.
  replace (Z.succ i) with (i + 1) by lia.
  cbn [Dump.config_range_filters map concat].
  destruct (mask_count =? 0); cbn [app until_failure];
    destruct (negb (is_ok _)); try done.
  - destruct (negb (is_ok _)); [done|]. rewrite IH.
    by destruct (until_failure driver _).
  - by rewrite IH.
Qed.

Lemma seqZ_to_nat i n : seqZ i n = seqZ i (Z.of_nat (Z.to_nat n)).
Proof. unfold seqZ. by rewrite Nat2Z.id. Qed.

(** The configuration block of the handler makes the calls of
    [filter_calls] in order and stops at the first one that fails. *)
Lemma configure_filters_calls driver d mask_count range_count :
  Dump.configure_filters driver d mask_count range_count
  = if (0 <? mask_count) || (0 <? range_count)
    then until_failure driver (filter_calls d mask_count range_count)
    else (None, []).
Proof.
  unfold Dump.configure_filters, filter_calls.
  destruct ((0 <? mask_count) || (0 <? range_count)); [|done].
  cbn [app until_failure].
  destruct (negb (is_ok (driver Dump.TwaiNodeDisable))); [done|].
  rewrite until_failure_app.
  rewrite config_mask_filters_calls, <- seqZ_to_nat.
  destruct (until_failure driver (map _ (seqZ 0 mask_count))) as [[e|] t1]; [done|].
  rewrite until_failure_app.
  rewrite config_range_filters_calls, <- seqZ_to_nat.
  destruct (until_failure driver (concat _)) as [[e|] t2]; [done|].
  cbn [until_failure].
  destruct (negb (is_ok (driver Dump.TwaiNodeEnable))); done.
Qed.

Lemma until_failure_ok driver calls :
  Forall (fun call => is_ok (driver call) = true) calls ->
  until_failure driver calls = (None, calls).
Proof.
  induction 1 as [|call calls Hok _ IH]; [done|].
  cbn [until_failure]. by rewrite Hok, IH.
Qed.

Lemma until_failure_stops driver calls : forall err made,
  until_failure driver calls = (Some err, made) ->
  exists pre last rest,
    made = pre ++ [last] /\ calls = made ++ rest /\
    driver last = err /\ is_ok err = false /\
    Forall (fun call => is_ok (driver call) = true) pre.
Proof.
  induction calls as [|call calls IH]; intros err made; [done|].
  cbn [until_failure]. destruct (is_ok (driver call)) eqn:Hok; cbn [negb].
  - destruct (until_failure driver calls) as [[e|] m] eqn:Hrest; [|done].
    intros [= <- <-].
    destruct (IH e m eq_refl) as (pre & last & rest & -> & -> & Hl & He & Hpre).
    exists (call :: pre), last, rest. repeat split; try done. by constructor.
  - intros [= <- <-]. exists [], call, calls. repeat split; done.
Qed.

(** X23: when every driver call succeeds, the filter configuration of
    the dump command makes exactly the calls of [filter_calls], in that
    order: disable, the mask filters by slot, the range filters by slot
    (each followed by the call that closes mask filter 0 when no mask
    filter was given), enable.  With no filter at all it makes no call:
    the filters the hardware had before stay in place. *)
Theorem configure_filters_sequence (driver : Dump.driver_call -> esp_err_t)
    (d : twai_dump_ctx_t) (mask_count range_count : Z) :
  Forall (fun call => is_ok (driver call) = true)
    (filter_calls d mask_count range_count) ->
  Dump.configure_filters driver d mask_count range_count
  = (None,
     if (0 <? mask_count) || (0 <? range_count)
     then filter_calls d mask_count range_count else []) /\
  (mask_count <= 0 -> range_count <= 0 ->
   Dump.configure_filters driver d mask_count range_count = (None, [])).
Proof.
  intros Hok. rewrite configure_filters_calls. split.
  - destruct (_ || _); [|done]. by apply until_failure_ok.
  - intros Hm Hr.
    replace (0 <? mask_count) with false by (symmetry; apply Z.ltb_ge; lia).
    by replace (0 <? range_count) with false by (symmetry; apply Z.ltb_ge; lia).
Qed.

Lemma configure_filters_sequence_witness :
  let d := set_filter_configs [] [mkRange 0x10 0x20 false; mkRange 0x30 0x40 false]
             (dump_ctx (controller_at_rest true 0 2)) in
  Dump.configure_filters (fun _ => ESP_OK) d 0 2
  = (None,
     [Dump.TwaiNodeDisable;
      Dump.TwaiNodeConfigRangeFilter 0 (mkRange 0x10 0x20 false);
      Dump.TwaiNodeConfigMaskFilter 0 (mkMask 0xFFFFFFFF 0xFFFFFFFF false);
      Dump.TwaiNodeConfigRangeFilter 1 (mkRange 0x30 0x40 false);
      Dump.TwaiNodeConfigMaskFilter 0 (mkMask 0xFFFFFFFF 0xFFFFFFFF false);
      Dump.TwaiNodeEnable]) /\
  (0 <= 0 -> 2 <= 0 ->
   Dump.configure_filters (fun _ => ESP_OK) d 0 2 = (None, [])).
Proof.
  apply (configure_filters_sequence (fun _ => ESP_OK)
           (set_filter_configs [] [mkRange 0x10 0x20 false; mkRange 0x30 0x40 false]
              (dump_ctx (controller_at_rest true 0 2))) 0 2).
  repeat constructor.
Defined.

Lemma filter_calls_enable_last d mask_count range_count :
  exists body,
    filter_calls d mask_count range_count = body ++ [Dump.TwaiNodeEnable] /\
    ~ In Dump.TwaiNodeEnable body /\
    hd_error body = Some Dump.TwaiNodeDisable.
Proof.
  unfold filter_calls. eexists. split; [by rewrite !app_assoc|].
  split; [|done]. rewrite !in_app_iff. intros [[[H|[]]|H]|H]; [done| |].
  - apply in_map_iff in H as (i & Hi & _). discriminate Hi.
  - apply in_concat in H as (l & Hl & Hin).
    apply in_map_iff in Hl as (i & <- & _).
    destruct Hin as [H|Hin]; [discriminate H|].
    destruct (mask_count =? 0); [|done].
    destruct Hin as [H|[]]. discriminate H.
Qed.

(** X24: when the filter configuration of the dump command fails, it
    has made the calls of [filter_calls] up to the first one the driver
    refused and returns the code of that call.  The node was disabled
    first and it has not been enabled again: no call made before the
    failing one is the enable call. *)
Theorem configure_filters_failure (driver : Dump.driver_call -> esp_err_t)
    (d : twai_dump_ctx_t) (mask_count range_count : Z)
    (err : esp_err_t) (calls : list Dump.driver_call) :
  Dump.configure_filters driver d mask_count range_count = (Some err, calls) ->
  exists pre last rest,
    calls = pre ++ [last] /\
    filter_calls d mask_count range_count = calls ++ rest /\
    driver last = err /\ is_ok err = false /\
    Forall (fun call => is_ok (driver call) = true) pre /\
    ~ In Dump.TwaiNodeEnable pre /\
    hd_error calls = Some Dump.TwaiNodeDisable.
Proof.
  rewrite configure_filters_calls. destruct (_ || _); [|done]. intros Hrun.
  apply until_failure_stops in Hrun
    as (pre & last & rest & -> & Hcalls & Hlast & Herr & Hpre).
  exists pre, last, rest. repeat split; try done.
  - destruct (filter_calls_enable_last d mask_count range_count)
      as (body & Hbody & Hno & _).
    intros Hin. apply Hno. rewrite Hbody in Hcalls.
    assert (Hlen : (length pre < length (body ++ [Dump.TwaiNodeEnable]))%nat).
    { rewrite Hcalls, !length_app. simpl. lia. }
    rewrite length_app in Hlen. simpl in Hlen.
    assert (Hpref : pre = take (length pre) body).
    { apply (f_equal (take (length pre))) in Hcalls.
      rewrite <- !app_assoc in Hcalls.
      rewrite take_app_length in Hcalls.
      rewrite take_app_le in Hcalls by lia. done. }
    rewrite <- (take_drop (length pre) body). apply in_or_app. left.
    by rewrite <- Hpref.
  - destruct (filter_calls_enable_last d mask_count range_count)
      as (body & Hbody & _ & Hhd).
    rewrite Hbody in Hcalls.
    destruct body as [|b0 body]; [done|]. injection Hhd as ->.
    destruct pre as [|p0 pre]; cbn in Hcalls |- *; by injection Hcalls as <- _.
Qed.

Lemma configure_filters_failure_witness :
  let d := set_filter_configs [mkMask 0x123 0x7FF false] []
             (dump_ctx (controller_at_rest true 1 0)) in
  let driver := fun call =>
    match call with
    | Dump.TwaiNodeConfigMaskFilter _ _ => ESP_ERR_INVALID_STATE
    | _ => ESP_OK
    end in
  exists pre last rest,
    [Dump.TwaiNodeDisable; Dump.TwaiNodeConfigMaskFilter 0 (mkMask 0x123 0x7FF false)]
    = pre ++ [last] /\
    filter_calls d 1 0
    = [Dump.TwaiNodeDisable; Dump.TwaiNodeConfigMaskFilter 0 (mkMask 0x123 0x7FF false)]
      ++ rest /\
    driver last = ESP_ERR_INVALID_STATE /\ is_ok ESP_ERR_INVALID_STATE = false /\
    Forall (fun call => is_ok (driver call) = true) pre /\
    ~ In Dump.TwaiNodeEnable pre /\
    hd_error [Dump.TwaiNodeDisable;
              Dump.TwaiNodeConfigMaskFilter 0 (mkMask 0x123 0x7FF false)]
    = Some Dump.TwaiNodeDisable.
Proof.
  apply (configure_filters_failure
           (fun call =>
              match call with
              | Dump.TwaiNodeConfigMaskFilter _ _ => ESP_ERR_INVALID_STATE
              | _ => ESP_OK
              end)
           (set_filter_configs [mkMask 0x123 0x7FF false] []
              (dump_ctx (controller_at_rest true 1 0))) 1 0).
  reflexivity.
Defined.

(** ** The dump line of a frame of any length *)

Lemma fmt_0X_length_le (w : nat) v :
  (w <= 8)%nat -> 0 <= v < 2 ^ 32 -> (length (fmt_0X w v) <= 8)%nat.
Proof.
  intros Hw Hv. unfold fmt_0X, zero_pad.
  pose proof (digits_of_length 16 19 8 v ltac:(lia) ltac:(lia)) as Hd.
  change (16 ^ Z.of_nat 8) with (2 ^ 32) in Hd. specialize (Hd Hv).
  rewrite length_app, length_replicate. lia.
Qed.

(** X25: [format_twaidump_frame] writes the whole line into its
    512-byte buffer for every frame whose identifier is a 32-bit value
    and whose printed length is within the data array of the item, up to
    the 64 bytes of a flexible-rate frame: time stamp, controller name,
    identifier, bracketed length, one field per byte and the newline,
    with nothing cut off.  The line has at most 381 characters. *)
Theorem dump_line_complete (fd : bool) (d : twai_dump_ctx_t)
    (item : Dump.rx_queue_item_t) (controller_id : Z) :
  0 <= id (Dump.item_header item) < 2 ^ 32 ->
  byte_list (Dump.data item) ->
  (rtr (Dump.item_header item) = false ->
   0 <= Dump.actual_len fd item <= TWAIFD_FRAME_MAX_LEN /\
   Dump.actual_len fd item <= Z.of_nat (length (Dump.data item))) ->
  let line :=
    fst (Dump.format_twaidump_frame fd d item controller_id
           Dump.DUMP_OUTPUT_LINE_SIZE) in
  line
  = fst (Dump.format_timestamp d (Dump.timestamp_us item))
    ++ cs "twai" ++ fmt_d controller_id ++ cs "  "
    ++ Dump.id_field item ++ cs "  "
    ++ Dump.length_field fd item
    ++ (if rtr (Dump.item_header item) then [] else data_fields fd item)
    ++ [chr 10] /\
  (length line <= 381)%nat.
Proof.
  intros Hid Hbytes Hal0. cbn zeta.
  unfold Dump.format_twaidump_frame, Dump.DUMP_OUTPUT_LINE_SIZE.
  pose proof (format_timestamp_length d (Dump.timestamp_us item)) as Hts.
  destruct (Dump.format_timestamp d (Dump.timestamp_us item)) as [ts d'].
  cbn [fst] in *.
  assert (H0 : (if (0 <? length ts)%nat then snprintf_at [] 0 512 ts else ([], 0))
               = (ts, Z.of_nat (length ts))).
  { destruct ts; [done|]. cbn [length Nat.ltb Nat.leb].
    rewrite snprintf_at_fits; [done|done|simpl in *; lia]. }
  rewrite H0.
  pose proof (fmt_d_length controller_id) as Hcid.
  rewrite snprintf_at_fits; [|done|rewrite !length_app; simpl; lia].
  assert (Hidl : (length (Dump.id_field item) <= 8)%nat).
  { unfold Dump.id_field. destruct (ide (Dump.item_header item));
      apply fmt_0X_length_le; (done || lia). }
  rewrite snprintf_at_fits; [|done|rewrite !length_app; simpl; lia].
  assert (Hlf : (length (Dump.length_field fd item) <= 24)%nat).
  { unfold Dump.length_field.
    destruct (rtr (Dump.item_header item)); rewrite !length_app; simpl;
      [pose proof (fmt_d_length (dlc (Dump.item_header item)))
      |pose proof (fmt_d_length (Dump.actual_len fd item))]; lia. }
  destruct (rtr (Dump.item_header item)) eqn:Ertr.
  - rewrite snprintf_at_fits; [|done|rewrite !length_app; simpl; lia].
    replace (_ <? 512 - 1) with true
      by (symmetry; apply Z.ltb_lt; rewrite !length_app; simpl; lia).
    rewrite snprintf_at_fits; [|done|rewrite !length_app; simpl; lia].
    cbn [fst]. split; [by rewrite <- !app_assoc|].
    rewrite !length_app. simpl. lia.
  - rewrite snprintf_at_fits; [|done|rewrite !length_app; simpl; lia].
    destruct (Hal0 eq_refl) as [Hal _]. unfold TWAIFD_FRAME_MAX_LEN in Hal.
    pose proof (data_text_length item (Z.to_nat (Dump.actual_len fd item)) Hbytes 0)
      as Hdf.
    rewrite Z2Nat.id in Hdf by lia.
    rewrite bytes_loop_fits; [|done|rewrite !length_app; simpl; lia].
    rewrite Z2Nat.id by lia. fold (data_fields fd item) in Hdf |- *.
    replace (_ <? 512 - 1) with true
      by (symmetry; apply Z.ltb_lt; rewrite !length_app, Hdf; simpl; lia).
    rewrite snprintf_at_fits; [|done|rewrite !length_app, Hdf; simpl; lia].
    cbn [fst]. split; [by rewrite <- !app_assoc|].
    rewrite !length_app, Hdf. simpl. lia.
Qed.

Lemma dump_line_complete_witness :
  let line :=
    fst (Dump.format_twaidump_frame true
           (set_timestamp_mode TIMESTAMP_MODE_ABSOLUTE
              (dump_ctx (controller_at_rest true 3 1)))
           flexible_item 0 Dump.DUMP_OUTPUT_LINE_SIZE) in
  line
  = cs "(0.000000) twai0  123  [12]  01  02  03  04  05  06  07  08  09  0A  0B  0C"
    ++ [chr 10] /\
  (length line <= 381)%nat.
Proof.
  apply (dump_line_complete true
           (set_timestamp_mode TIMESTAMP_MODE_ABSOLUTE
              (dump_ctx (controller_at_rest true 3 1))) flexible_item 0).
  - simpl. lia.
  - unfold flexible_item. cbn [Dump.data].
    apply Forall_app. split.
    + repeat constructor; lia.
    + apply Forall_replicate. lia.
  - intros _. vm_compute. repeat split; discriminate.
Defined.

(** ** Starting and stopping the driver *)

Lemma live_nodes_app calls1 : forall calls2 live,
  Core.live_nodes (calls1 ++ calls2) live
  = Core.live_nodes calls2 (Core.live_nodes calls1 live).
Proof.
  induction calls1 as [|call calls1 IH]; intros calls2 live; [done|].
  destruct call as [cfg ret [h|]|h|h|h|h]; cbn [app Core.live_nodes];
    try apply IH.
  destruct (is_ok ret); apply IH.
Qed.

Lemma on_live_nodes_app calls1 : forall calls2 live,
  Core.on_live_nodes (calls1 ++ calls2) live
  <-> Core.on_live_nodes calls1 live /\
      Core.on_live_nodes calls2 (Core.live_nodes calls1 live).
Proof.
  induction calls1 as [|call calls1 IH]; intros calls2 live.
  - cbn. tauto.
  - cbn [app Core.on_live_nodes]. rewrite IH.
    change (Core.live_nodes (call :: calls1) live)
      with (Core.live_nodes ([call] ++ calls1) live).
    rewrite live_nodes_app. tauto.
Qed.

(** [twai_start] on a stopped context with no node. *)
Lemma twai_start_consistent fd gpio_nc a ctx :
  Core.is_initialized ctx = false ->
  Core.driver_handle ctx = None ->
  Core.well_behaved a ->
  let r := Core.twai_start fd gpio_nc a ctx in
  Core.consistent (Core.mkControl (snd (fst r)) (fst (fst r)))
    (Core.live_nodes (snd r) []) /\
  Core.on_live_nodes (snd r) [] /\
  Core.default_config (snd (fst r)) = Core.default_config ctx.
Proof.
  intros Hinit Hh Hwb. cbn zeta. unfold Core.twai_start. rewrite Hinit.
  destruct (_ || _).
  { unfold Core.consistent. cbn. by rewrite Hinit. }
  unfold Core.well_behaved in Hwb.
  destruct (is_ok (Core.new_node_ret a)) eqn:Hnew; cbn [negb].
  2:{ unfold Core.consistent. cbn. rewrite Hinit, Hwb. by cbn. }
  destruct Hwb as [x Hx]. rewrite Hx.
  unfold Core.cleanup_node.
  cbn [Core.set_driver_handle Core.set_driver_config Core.driver_handle].
  destruct (is_ok (Core.register_ret a)); cbn [negb].
  2:{ unfold Core.consistent. cbn. rewrite Hinit, Hnew. cbn.
      rewrite Z.eqb_refl. cbn.
      repeat split; eauto; try (exists x; split; [done|by left]). }
  destruct (is_ok (Core.enable_ret a)); cbn [negb].
  2:{ unfold Core.consistent. cbn. rewrite Hinit, Hnew. cbn.
      rewrite Z.eqb_refl. cbn.
      repeat split; eauto; try (exists x; split; [done|by left]). }
  unfold Core.consistent. cbn. rewrite Hnew.
  repeat split; eauto; try (exists x; split; [done|by left]).
Qed.

Lemma twai_stop_consistent ctx nh live :
  Core.is_initialized ctx = true ->
  Core.consistent (Core.mkControl ctx nh) live ->
  let r := Core.twai_stop ctx in
  fst (fst r) = ESP_OK /\
  Core.is_initialized (snd (fst r)) = false /\
  Core.driver_handle (snd (fst r)) = None /\
  Core.live_nodes (snd r) live = [] /\
  Core.on_live_nodes (snd r) live /\
  Core.default_config (snd (fst r)) = Core.default_config ctx /\
  Core.driver_config (snd (fst r)) = Core.driver_config ctx.
Proof.
  intros Hinit Hc. cbn zeta. unfold Core.consistent in Hc. cbn in Hc.
  rewrite Hinit in Hc. destruct Hc as (h & Hh & _ & ->).
  unfold Core.twai_stop. rewrite Hinit, Hh. cbn.
  rewrite Z.eqb_refl. cbn. repeat split; auto.
Qed.

Lemma execute_consistent fd gpio_nc cmd c live :
  Core.consistent c live ->
  match Core.answers_of cmd with
  | Some a => Core.well_behaved a
  | None => True
  end ->
  let r := Core.execute fd gpio_nc cmd c in
  Core.consistent (snd (fst r)) (Core.live_nodes (snd r) live) /\
  Core.on_live_nodes (snd r) live.
Proof.
  intros Hc Hwb. cbn zeta. destruct cmd as [a args| |a]; cbn [Core.execute Core.answers_of] in *.
  - unfold Core.twai_init_handler.
    destruct (Core.is_initialized (Core.core_ctx c)) eqn:Hinit; [done|].
    unfold Core.consistent in Hc. rewrite Hinit in Hc. destruct Hc as [Hh ->].
    match goal with |- context [Core.twai_start fd gpio_nc a ?ctx] =>
      pose proof (twai_start_consistent fd gpio_nc a ctx Hinit Hh Hwb) as Hs;
      destruct (Core.twai_start fd gpio_nc a ctx) as [[h ctx'] t]
    end.
    cbn [fst snd] in Hs. destruct Hs as (H1 & H2 & _). by destruct h.
  - unfold Core.twai_deinit_handler.
    destruct (Core.is_initialized (Core.core_ctx c)) eqn:Hinit; cbn [negb]; [|done].
    destruct c as [ctx nh]. cbn [Core.core_ctx Core.node_handle] in *.
    pose proof (twai_stop_consistent ctx nh live Hinit Hc) as Hs.
    destruct (Core.twai_stop ctx) as [[ret ctx'] t]. cbn [fst snd] in Hs.
    destruct Hs as (-> & Hi & Hh & Hl & Ho & _). cbn [is_ok negb fst snd].
    split; [|done]. unfold Core.consistent. cbn. by rewrite Hi, Hl.
  - unfold Core.twai_reset_handler.
    destruct (Core.is_initialized (Core.core_ctx c)) eqn:Hinit.
    + destruct c as [ctx nh]. cbn [Core.core_ctx Core.node_handle] in *.
      pose proof (twai_stop_consistent ctx nh live Hinit Hc) as Hs.
      destruct (Core.twai_stop ctx) as [[ret ctx'] t]. cbn [fst snd] in Hs.
      destruct Hs as (-> & Hi & Hh & Hl & Ho & _). cbn [is_ok negb fst snd].
      cbn [Core.core_ctx].
      match goal with |- context [Core.twai_start fd gpio_nc a ?ctx] =>
        pose proof (twai_start_consistent fd gpio_nc a ctx Hi Hh Hwb) as Hs;
        destruct (Core.twai_start fd gpio_nc a ctx) as [[h ctx2] t2]
      end.
      cbn [fst snd] in Hs. destruct Hs as (H1 & H2 & _).
      destruct h; cbn [fst snd]; rewrite live_nodes_app, on_live_nodes_app, Hl;
        done.
    + cbn [fst snd Core.live_nodes Core.on_live_nodes]. split; [|done].
      unfold Core.consistent in *. cbn. rewrite Hinit in *. done.
Qed.

(** X26: in any session of [twai_init], [twai_deinit] and [twai_reset]
    commands on a controller, with a driver that leaves a handle exactly
    when it reports a node as created, the core keeps the controller
    consistent: [is_initialized] is set exactly when a node exists, that
    node is the only one alive and both handles name it; when the flag is
    clear the driver handle is NULL and no node is alive, so every node
    created is deleted again before the next one is made.  Every call
    that registers callbacks, enables, disables or deletes names a node
    that is alive at that moment. *)
Theorem core_session_consistent (fd : bool) (gpio_nc : Z)
    (cmds : list Core.command) (c : Core.controller_t) (live : list handle) :
  Core.consistent c live ->
  Forall (fun cmd => match Core.answers_of cmd with
                     | Some a => Core.well_behaved a
                     | None => True
                     end) cmds ->
  let r := Core.session fd gpio_nc cmds c in
  Core.consistent (fst r) (Core.live_nodes (snd r) live) /\
  Core.on_live_nodes (snd r) live.
Proof.
  intros Hc Hall. cbn zeta. revert c live Hc.
  induction Hall as [|cmd cmds Hwb _ IH]; intros c live Hc; [done|].
  cbn [Core.session].
  pose proof (execute_consistent fd gpio_nc cmd c live Hc Hwb) as Hstep.
  destruct (Core.execute fd gpio_nc cmd c) as [[ret c1] t1].
  cbn [fst snd] in Hstep. destruct Hstep as [Hc1 Ho1].
  specialize (IH c1 _ Hc1).
  destruct (Core.session fd gpio_nc cmds c1) as [c2 t2]. cbn [fst snd] in *.
  rewrite live_nodes_app, on_live_nodes_app. tauto.
Qed.

Lemma core_session_consistent_witness :
  let cmds := [Core.TwaiInit (obliging 11) (Core.mkInitArgs (Some 250000) None None None);
               Core.TwaiReset (refusing_enable 12);
               Core.TwaiInit (obliging 13) (Core.mkInitArgs None (Some (cs "TRUE")) None None);
               Core.TwaiDeinit] in
  let r := Core.session false (-1) cmds registered_controller in
  Core.consistent (fst r) (Core.live_nodes (snd r) []) /\
  Core.on_live_nodes (snd r) [].
Proof.
  apply (core_session_consistent false (-1)).
  - split; reflexivity.
  - repeat constructor; unfold Core.well_behaved; cbn; eauto.
Defined.

Lemma twai_start_refused fd gpio_nc a ctx x :
  Core.is_initialized ctx = false ->
  Core.io_tx (Core.driver_config ctx) <> gpio_nc ->
  Core.io_rx (Core.driver_config ctx) <> gpio_nc ->
  is_ok (Core.new_node_ret a) = true ->
  Core.new_node_handle a = Some x ->
  is_ok (Core.register_ret a) = false \/ is_ok (Core.enable_ret a) = false ->
  let r := Core.twai_start fd gpio_nc a ctx in
  fst (fst r) = Some x /\
  Core.is_initialized (snd (fst r)) = false /\
  Core.driver_handle (snd (fst r)) = None /\
  last (snd r) = Some (Core.TwaiNodeDelete x).
Proof.
  intros Hinit Htx Hrx Hnew Hx Hfail. cbn zeta.
  unfold Core.twai_start. rewrite Hinit.
  replace (Core.io_tx (Core.driver_config ctx) =? gpio_nc) with false
    by (symmetry; by apply Z.eqb_neq).
  replace (Core.io_rx (Core.driver_config ctx) =? gpio_nc) with false
    by (symmetry; by apply Z.eqb_neq).
  cbn [orb]. rewrite Hnew, Hx. cbn [negb]. unfold Core.cleanup_node.
  cbn [Core.set_driver_handle Core.driver_handle].
  destruct Hfail as [Hf|Hf].
  - rewrite Hf. by cbn.
  - destruct (is_ok (Core.register_ret a)); cbn [negb]; [rewrite Hf|]; by cbn.
Qed.

(** X27: when the driver creates the node but then refuses to register
    the callbacks or to enable it, [twai_start] deletes the node and
    clears the driver handle, yet returns the handle of the deleted node;
    [twai_init_handler] therefore returns [ESP_OK] and stores that handle
    as the node handle of the controller, while [is_initialized] stays
    clear. *)
Theorem init_ok_without_node (fd : bool) (gpio_nc : Z) (a : Core.answers)
    (args : Core.init_args) (c : Core.controller_t) (x : handle) :
  Core.is_initialized (Core.core_ctx c) = false ->
  Core.io_tx (Core.driver_config (Core.core_ctx c)) <> gpio_nc ->
  Core.io_rx (Core.driver_config (Core.core_ctx c)) <> gpio_nc ->
  is_ok (Core.new_node_ret a) = true ->
  Core.new_node_handle a = Some x ->
  is_ok (Core.register_ret a) = false \/ is_ok (Core.enable_ret a) = false ->
  let r := Core.twai_init_handler fd gpio_nc a args c in
  fst (fst r) = ESP_OK /\
  Core.node_handle (snd (fst r)) = Some x /\
  Core.is_initialized (Core.core_ctx (snd (fst r))) = false /\
  Core.driver_handle (Core.core_ctx (snd (fst r))) = None /\
  last (snd r) = Some (Core.TwaiNodeDelete x).
Proof.
  intros Hinit Htx Hrx Hnew Hx Hfail. cbn zeta.
  unfold Core.twai_init_handler. rewrite Hinit.
  match goal with |- context [Core.twai_start fd gpio_nc a ?ctx] =>
    pose proof (twai_start_refused fd gpio_nc a ctx x) as Hs
  end.
  cbn zeta in Hs.
  destruct Hs as (H1 & H2 & H3 & H4); try done.
  - destruct (Core.arg_rate args), (Core.arg_loopback args),
      (Core.arg_listen args), (Core.arg_fd_rate args), fd; exact Htx.
  - destruct (Core.arg_rate args), (Core.arg_loopback args),
      (Core.arg_listen args), (Core.arg_fd_rate args), fd; exact Hrx.
  - destruct (Core.twai_start _ _ _ _) as [[h ctx'] t]. cbn [fst snd] in *.
    subst h. done.
Qed.

Lemma init_ok_without_node_witness :
  let r := Core.twai_init_handler false (-1) (refusing_enable 12)
             (Core.mkInitArgs None None None None) registered_controller in
  fst (fst r) = ESP_OK /\
  Core.node_handle (snd (fst r)) = Some 12 /\
  Core.is_initialized (Core.core_ctx (snd (fst r))) = false /\
  Core.driver_handle (Core.core_ctx (snd (fst r))) = None /\
  last (snd r) = Some (Core.TwaiNodeDelete 12).
Proof.
  apply (init_ok_without_node false (-1) (refusing_enable 12)
           (Core.mkInitArgs None None None None) registered_controller 12).
  - reflexivity.
  - discriminate.
  - discriminate.
  - reflexivity.
  - reflexivity.
  - right. reflexivity.
Defined.

(** ** The data-length suffix of a classic frame *)

(** X28: in the body of a classic data frame, the digit of a suffix
    [_<digit>] behind one to eight complete bytes is never taken over as
    the data-length code: for a digit above 8 the data-length code becomes 8, whatever the
    number of bytes, and for a digit up to 8 the suffix is ignored and
    the code is the number of bytes.  The payload is the bytes in either
    case. *)
Theorem classic_dlc_suffix (bytes : list Z) (k : Z) (rest : cstring)
    (f : twai_frame_t) :
  byte_list bytes ->
  (1 <= length bytes <= 8)%nat ->
  (length bytes <= length (buffer f))%nat ->
  0 <= k < 16 ->
  let r := parse_classic_frame
             (concat (map (fmt_0X 2) bytes) ++ "_"%char :: digit_char k :: rest) f in
  fst r = PARSE_OK /\
  payload (snd r) = bytes /\
  buffer_len (snd r) = Z.of_nat (length bytes) /\
  dlc (header (snd r)) = (if 8 <? k then 8 else Z.of_nat (length bytes)).
Proof.
  intros Hall Hlen Hbuf Hk. cbn zeta.
  assert (Hrun :
    parse_classic_frame
      (concat (map (fmt_0X 2) bytes) ++ "_"%char :: digit_char k :: rest) f
    = (PARSE_OK,
       with_buffer_len (Z.of_nat (length bytes))
         (with_header
            (set_dlc (if 8 <? k then 8 else Z.of_nat (length bytes)))
            (with_buffer (bytes ++ drop (length bytes) (buffer f)) f)))).
  { unfold parse_classic_frame.
    destruct (peek_hex_text bytes ("_"%char :: digit_char k :: rest) Hall)
      as (d & Hd & ->); [lia|].
    destruct (digit_char_hex d Hd) as (_ & _ & _ & _ & Hne).
    apply Forall_cons in Hne as [_ Hne].
    apply Forall_cons in Hne as [HneR Hne].
    apply Forall_cons in Hne as [Hner _].
    rewrite HneR, Hner. cbn [orb].
    unfold parse_payload, TWAI_MAX_DATA_LEN. cbn [Z.leb Z.compare].
    change 0 with (Z.of_nat 0).
    rewrite parse_payload_loop_prefix by (done || simpl; lia).
    rewrite take_0. cbn [app Nat.add]. change (Z.of_nat 0) with 0.
    assert (Hstop : parse_payload_loop ("_"%char :: digit_char k :: rest)
              (bytes ++ drop (length bytes) (buffer f))
              (Z.of_nat (length bytes)) 8
            = (Z.of_nat (length bytes), bytes ++ drop (length bytes) (buffer f))).
    { cbn [parse_payload_loop]. destruct (_ <? 8); cbn [negb]; [|done].
      change (Ascii.eqb "_" ".") with false. change (isxdigit "_") with false.
      cbn [negb].
      by replace (Z.of_nat (length bytes) =? 0) with false
        by (symmetry; apply Z.eqb_neq; lia). }
    rewrite Hstop.
    replace (Z.of_nat (length bytes) <? 0) with false
      by (symmetry; apply Z.ltb_ge; lia).
    rewrite skip_pairs_prefix by (done || simpl; lia).
    cbn [skip_pairs]. rewrite Z.add_0_l, Z.ltb_irrefl. cbn [negb peek hd tail].
    change (Ascii.eqb "_" "_") with true. cbv iota.
    destruct (digit_char_hex k Hk) as (-> & _).
    rewrite Z.mod_small by lia.
    by destruct (8 <? k). }
  rewrite Hrun. cbn [fst snd]. repeat split.
  unfold payload. cbn. by rewrite Nat2Z.id, take_app_length.
Qed.

Lemma classic_dlc_suffix_witness :
  let r := parse_classic_frame (cs "AABBCC" ++ cs "_F") (Send.fresh_frame 8) in
  fst r = PARSE_OK /\
  payload (snd r) = [0xAA; 0xBB; 0xCC] /\
  buffer_len (snd r) = 3 /\
  dlc (header (snd r)) = 8.
Proof.
  apply (classic_dlc_suffix [0xAA; 0xBB; 0xCC] 15 [] (Send.fresh_frame 8)).
  - repeat constructor; lia.
  - simpl; lia.
  - simpl; lia.
  - lia.
Defined.

(** ** The default configuration *)

Lemma twai_start_defaults fd gpio_nc a ctx :
  let r := Core.twai_start fd gpio_nc a ctx in
  Core.default_config (snd (fst r)) = Core.default_config ctx /\
  (Core.driver_config (snd (fst r)) = Core.driver_config ctx \/
   fd = true /\
   0 < Core.data_bitrate (Core.driver_config ctx)
     < Core.bitrate (Core.driver_config ctx) /\
   Core.driver_config (snd (fst r))
   = Core.set_data_bitrate 0 (Core.driver_config ctx)).
Proof.
  cbn zeta. unfold Core.twai_start, Core.cleanup_node.
  destruct (Core.is_initialized ctx); [by split; [|left]|].
  destruct (_ || _); [by split; [|left]|].
  destruct (fd && (0 <? Core.data_bitrate (Core.driver_config ctx))
            && (Core.data_bitrate (Core.driver_config ctx)
                <? Core.bitrate (Core.driver_config ctx))) eqn:E.
  - apply andb_true_iff in E as [E E3]. apply andb_true_iff in E as [E1 E2].
    apply Z.ltb_lt in E2, E3. subst fd.
    repeat match goal with
    | |- context [if ?b then _ else _] => destruct b
    | |- context [match ?o with Some _ => _ | None => _ end] => destruct o
    end; cbn; (split; [done|right; repeat split; (done || lia)]).
  - repeat match goal with
    | |- context [if ?b then _ else _] => destruct b
    | |- context [match ?o with Some _ => _ | None => _ end] => destruct o
    end; cbn; (split; [done|by left]).
Qed.

Lemma twai_stop_defaults ctx :
  let r := Core.twai_stop ctx in
  fst (fst r) = ESP_OK /\
  Core.default_config (snd (fst r)) = Core.default_config ctx /\
  Core.driver_config (snd (fst r)) = Core.driver_config ctx.
Proof.
  cbn zeta. unfold Core.twai_stop.
  destruct (negb _); [done|]. by destruct (Core.driver_handle ctx).
Qed.

Lemma execute_defaults fd gpio_nc cmd c :
  Core.default_config (Core.core_ctx (snd (fst (Core.execute fd gpio_nc cmd c))))
  = Core.default_config (Core.core_ctx c).
Proof.
  destruct cmd as [a args| |a]; cbn [Core.execute].
  - unfold Core.twai_init_handler.
    destruct (Core.is_initialized (Core.core_ctx c)); [done|].
    match goal with |- context [Core.twai_start fd gpio_nc a ?ctx] =>
      pose proof (twai_start_defaults fd gpio_nc a ctx) as [Hs _];
      destruct (Core.twai_start fd gpio_nc a ctx) as [[h ctx'] t]
    end.
    cbn [fst snd] in Hs. by destruct h.
  - unfold Core.twai_deinit_handler. destruct (negb _); [done|].
    pose proof (twai_stop_defaults (Core.core_ctx c)) as (Hr & Hs & _).
    destruct (Core.twai_stop (Core.core_ctx c)) as [[ret ctx'] t].
    cbn [fst snd] in *. subst ret. done.
  - unfold Core.twai_reset_handler.
    destruct (Core.is_initialized (Core.core_ctx c)); [|done].
    pose proof (twai_stop_defaults (Core.core_ctx c)) as (Hr & Hs & _).
    destruct (Core.twai_stop (Core.core_ctx c)) as [[ret ctx'] t].
    cbn [fst snd] in *. subst ret. cbn [is_ok negb Core.core_ctx].
    match goal with |- context [Core.twai_start fd gpio_nc a ?ctx] =>
      pose proof (twai_start_defaults fd gpio_nc a ctx) as [Hs2 _];
      destruct (Core.twai_start fd gpio_nc a ctx) as [[h ctx2] t2]
    end.
    cbn [fst snd Core.set_driver_config Core.default_config] in Hs2.
    destruct h; cbn [fst snd Core.core_ctx]; congruence.
Qed.

(** X29: no sequence of [twai_init], [twai_deinit] and [twai_reset]
    commands changes the default configuration of a controller, and
    [twai_reset] brings the driver configuration back to it whatever the
    options of earlier [twai_init] commands were.  The one deviation is
    made by [twai_start] in a build with flexible-rate support: on a
    restart it sets a default data bit rate that is positive but below
    the arbitration bit rate to 0. *)
Theorem reset_restores_defaults (fd : bool) (gpio_nc : Z)
    (cmds : list Core.command) (a : Core.answers) (c : Core.controller_t) :
  let before := fst (Core.session fd gpio_nc cmds c) in
  let after := snd (fst (Core.twai_reset_handler fd gpio_nc a before)) in
  let dflt := Core.default_config (Core.core_ctx c) in
  Core.default_config (Core.core_ctx before) = dflt /\
  Core.default_config (Core.core_ctx after) = dflt /\
  (Core.driver_config (Core.core_ctx after) = dflt \/
   fd = true /\ 0 < Core.data_bitrate dflt < Core.bitrate dflt /\
   Core.driver_config (Core.core_ctx after) = Core.set_data_bitrate 0 dflt).
Proof.
  cbn zeta.
  assert (Hsess : forall cmds c,
            Core.default_config (Core.core_ctx (fst (Core.session fd gpio_nc cmds c)))
            = Core.default_config (Core.core_ctx c)).
  { clear. induction cmds as [|cmd cmds IH]; intros c; [done|].
    cbn [Core.session].
    pose proof (execute_defaults fd gpio_nc cmd c) as Hstep.
    destruct (Core.execute fd gpio_nc cmd c) as [[ret c1] t1].
    specialize (IH c1).
    destruct (Core.session fd gpio_nc cmds c1) as [c2 t2].
    cbn [fst snd] in *. congruence. }
  split; [apply Hsess|].
  pose proof (execute_defaults fd gpio_nc (Core.TwaiReset a)
                (fst (Core.session fd gpio_nc cmds c))) as Hd.
  cbn [Core.execute] in Hd. rewrite Hsess in Hd. split; [exact Hd|].
  rewrite <- (Hsess cmds c).
  generalize (fst (Core.session fd gpio_nc cmds c)). clear. intros c.
  unfold Core.twai_reset_handler.
  destruct (Core.is_initialized (Core.core_ctx c)); [|by left].
  pose proof (twai_stop_defaults (Core.core_ctx c)) as (Hr & Hs & _).
  destruct (Core.twai_stop (Core.core_ctx c)) as [[ret ctx'] t].
  cbn [fst snd] in *. subst ret. cbn [is_ok negb Core.core_ctx].
  match goal with |- context [Core.twai_start fd gpio_nc a ?ctx] =>
    pose proof (twai_start_defaults fd gpio_nc a ctx) as [_ Hs2];
    destruct (Core.twai_start fd gpio_nc a ctx) as [[h ctx2] t2]
  end.
  cbn [fst snd Core.set_driver_config Core.driver_config] in Hs2.
  rewrite Hs in Hs2. by destruct h.
Qed.
(** ** Identifier range checking *)

(** The hex digits, in either case, as the three readers see them. *)
Lemma xdigit_facts c :
  isxdigit c = true ->
  0 <= Send.asc2nibble c < 16 /\
  digit_value c = Some (Send.asc2nibble c) /\
  isspace c = false /\
  Forall (fun x => Ascii.eqb c x = false) (cs "#-+xX").
Proof.
  destruct c as [[] [] [] [] [] [] [] []]; intros H; vm_compute in H;
    try discriminate H;
    (split; [vm_compute; split; [discriminate|reflexivity]|
     split; [reflexivity|split; [reflexivity|repeat constructor]]]).
Qed.

Lemma digit_value_other c : isxdigit c = false -> digit_value c = None.
Proof.
  destruct c as [[] [] [] [] [] [] [] []]; intros H; vm_compute in H;
    try discriminate H; reflexivity.
Qed.

Lemma hex_value_nibbles (text : cstring) :
  Forall (fun c => isxdigit c = true) text ->
  hex_value text = digits_value (map Send.asc2nibble text).
Proof.
  intros Hall. unfold hex_value, radix_value, digits_value.
  assert (forall acc,
            fold_left (fun a c => a * 16 + default 0 (digit_value c)) text acc
            = fold_left (fun a d => a * 16 + d) (map Send.asc2nibble text) acc)
    as Hgen; [|apply Hgen].
  induction text as [|c text IH]; intros acc; [done|].
  apply Forall_cons in Hall as [Hc Hall].
  destruct (xdigit_facts c Hc) as (_ & Hv & _).
  cbn [fold_left map]. rewrite Hv.
  change (default 0 (Some (Send.asc2nibble c))) with (Send.asc2nibble c).
  by apply IH.
Qed.

Lemma strtoul_digits_xdigits text : forall acc n rest,
  Forall (fun c => isxdigit c = true) text ->
  0 <= acc ->
  fold_left (fun a c => a * 16 + default 0 (digit_value c)) text acc <= ULONG_MAX ->
  digit_value (peek rest) = None ->
  strtoul_digits (text ++ rest) acc false n
  = (fold_left (fun a c => a * 16 + default 0 (digit_value c)) text acc,
     false, (n + length text)%nat).
Proof.
  induction text as [|c text IH]; intros acc n rest Hall Hacc Hmax Hrest.
  - cbn [app fold_left length]. rewrite Nat.add_0_r.
    destruct rest as [|r rest]; [done|]. simpl in Hrest. simpl. by rewrite Hrest.
  - apply Forall_cons in Hall as [Hc Hall].
    destruct (xdigit_facts c Hc) as (Hd & Hdv & _).
    cbn [app strtoul_digits fold_left length] in *. rewrite Hdv in *.
    change (default 0 (Some (Send.asc2nibble c))) with (Send.asc2nibble c) in *.
    cbn [orb].
    pose proof (hex_fold_ge text (acc * 16 + Send.asc2nibble c) ltac:(lia)) as Hge.
    replace (ULONG_MAX <? acc * 16 + Send.asc2nibble c) with false
      by (symmetry; apply Z.ltb_ge; lia).
    rewrite IH by (done || lia). f_equal. lia.
Qed.

(** [strtoul] on two to eight hex digits that end the run of digits:
    it reads their value and stops behind them. *)
Lemma strtoul16_xdigits text rest :
  (2 <= length text <= 8)%nat ->
  Forall (fun c => isxdigit c = true) text ->
  isxdigit (peek rest) = false ->
  strtoul16 (text ++ rest) = (hex_value text, length text).
Proof.
  intros Hlen Hall Hrest. apply digit_value_other in Hrest.
  assert (Hmax : hex_value text <= ULONG_MAX).
  { pose proof (hex_value_bound text) as Hb.
    assert (16 ^ Z.of_nat (length text) <= 16 ^ 8)
      by (apply Z.pow_le_mono_r; lia).
    unfold ULONG_MAX. change (2 ^ 32) with (16 ^ 8). lia. }
  destruct text as [|c0 [|c1 text']]; [simpl in Hlen; lia..|].
  pose proof Hall as Hall'.
  apply Forall_cons in Hall' as [Hc0 Hall'].
  apply Forall_cons in Hall' as [Hc1 _].
  destruct (xdigit_facts c0 Hc0) as (_ & _ & Hsp & Hn0).
  destruct (xdigit_facts c1 Hc1) as (_ & _ & _ & Hn1).
  apply Forall_cons in Hn0 as [_ Hn0].
  apply Forall_cons in Hn0 as [Hminus Hn0]. apply Forall_cons in Hn0 as [Hplus _].
  do 3 apply Forall_cons in Hn1 as [_ Hn1].
  apply Forall_cons in Hn1 as [Hx Hn1]. apply Forall_cons in Hn1 as [HX _].
  unfold strtoul16. cbn [app skip_space]. rewrite Hsp, Hminus, Hplus.
  assert (Hpre :
    (match c0 :: c1 :: text' ++ rest with
     | z :: x :: h :: t =>
         if Ascii.eqb z "0" && (Ascii.eqb x "x" || Ascii.eqb x "X") && isxdigit h
         then (h :: t, 2%nat)
         else (c0 :: c1 :: text' ++ rest, 0%nat)
     | _ => (c0 :: c1 :: text' ++ rest, 0%nat)
     end) = (c0 :: c1 :: text' ++ rest, 0%nat)).
  { destruct (text' ++ rest); [done|]. rewrite Hx, HX.
    by rewrite andb_false_r. }
  rewrite Hpre.
  change (c0 :: c1 :: text' ++ rest) with ((c0 :: c1 :: text') ++ rest).
  rewrite strtoul_digits_xdigits; [|done|lia|done|done].
  cbn [length Nat.add Nat.eqb]. reflexivity.
Qed.

(** [parse_twai_id] on three or eight hex digits that end the run of
    digits: the value decides, against the limit of the width. *)
Lemma parse_twai_id_digits (digits rest : cstring) (ext : bool) f :
  length digits = (if ext then 8 else 3)%nat ->
  Forall (fun c => isxdigit c = true) digits ->
  isxdigit (peek rest) = false ->
  parse_twai_id (digits ++ rest) (Z.of_nat (length digits)) f
  = if (if ext then TWAI_EXT_ID_MASK else TWAI_STD_ID_MASK) <? hex_value digits
    then (PARSE_OUT_OF_RANGE, f)
    else (PARSE_OK,
          with_header (fun h => set_ide ext (set_id (hex_value digits) h)) f).
Proof.
  intros Hlen Hall Hrest. unfold parse_twai_id, parse_hex_id.
  rewrite strtoul16_xdigits by (done || destruct ext; lia).
  pose proof (hex_value_bound digits) as Hb.
  rewrite Hlen. rewrite Hlen in Hb. rewrite Z.eqb_refl. cbn [negb].
  destruct ext.
  - change (Z.of_nat 8 =? 0) with false.
    change (TWAI_EXT_ID_CHAR_LEN <? Z.of_nat 8) with false.
    change (TWAI_STD_ID_CHAR_LEN <? Z.of_nat 8) with true.
    cbn [orb andb negb].
    destruct (TWAI_EXT_ID_MASK <? hex_value digits) eqn:E; [done|].
    apply Z.ltb_ge in E. unfold TWAI_EXT_ID_MASK in E.
    rewrite Z.mod_small by lia. reflexivity.
  - change (Z.of_nat 3 =? 0) with false.
    change (TWAI_EXT_ID_CHAR_LEN <? Z.of_nat 3) with false.
    change (TWAI_STD_ID_CHAR_LEN <? Z.of_nat 3) with false.
    cbn [orb andb negb].
    destruct (TWAI_STD_ID_MASK <? hex_value digits) eqn:E; [done|].
    apply Z.ltb_ge in E. unfold TWAI_STD_ID_MASK in E.
    rewrite Z.mod_small by lia. reflexivity.
Qed.

(** The identifier loop looks at the nibbles only. *)
Lemma parse_id_loop_agree b s s' : forall n i last idv,
  (forall j, (i <= j < i + n)%nat ->
     Send.asc2nibble (Send.char_at b s j) = Send.asc2nibble (Send.char_at b s' j)) ->
  Send.parse_id_loop b s n i last idv = Send.parse_id_loop b s' n i last idv.
Proof.
  induction n as [|n IH]; intros i last idv Hsame; [done|].
  cbn [Send.parse_id_loop]. rewrite (Hsame i) by lia.
  destruct (_ <? _); [done|]. apply IH. intros j Hj. apply Hsame. lia.
Qed.

(** The identifier stage of the inline [parse_frame] on three or eight
    hex digits, in either case, before the hash sign. *)
Lemma id_stage_xdigits b (digits body : cstring) (ext : bool) :
  length digits = (if ext then 8 else 3)%nat ->
  Forall (fun c => isxdigit c = true) digits ->
  let s := digits ++ "#"%char :: body in
  Ascii.eqb (Send.char_at b s 3) "#" = negb ext /\
  (ext = true -> Ascii.eqb (Send.char_at b s 8) "#" = true) /\
  Send.parse_id_loop b s (if ext then 8 else 3) 0 (if ext then 7 else 2) 0
  = (true, hex_value digits) /\
  length s = ((if ext then 9 else 4) + length body)%nat.
Proof.
  intros Hlen Hall. cbn zeta.
  set (ds := map Send.asc2nibble digits).
  assert (Hds : Forall (fun d => 0 <= d < 16) ds).
  { unfold ds. apply Forall_map. eapply Forall_impl; [exact Hall|].
    intros c Hc. by destruct (xdigit_facts c Hc) as (H & _). }
  assert (Hdl : length ds = (if ext then 8 else 3)%nat)
    by (unfold ds; by rewrite length_map).
  destruct (id_stage_facts b ds body ext Hdl Hds) as (_ & _ & Hloop & _).
  split; [|split; [|split]].
  - unfold Send.char_at. destruct ext; cbn [negb].
    + destruct (digits !! 3%nat) as [c|] eqn:Hc.
      2:{ apply lookup_ge_None in Hc. lia. }
      rewrite lookup_app_l by lia. rewrite Hc.
      pose proof (proj1 (Forall_lookup _ _) Hall 3%nat c Hc) as Hx. cbn beta in Hx.
      destruct (xdigit_facts c Hx) as (_ & _ & _ & Hne).
      by apply Forall_cons in Hne as [Hne _].
    + rewrite lookup_app_r by lia. by rewrite Hlen.
  - intros ->. unfold Send.char_at.
    rewrite lookup_app_r by lia. by rewrite Hlen.
  - rewrite (hex_value_nibbles digits Hall). fold ds. rewrite <- Hloop.
    apply parse_id_loop_agree. intros j Hj.
    assert (Hjl : (j < length digits)%nat) by (destruct ext; lia).
    destruct (digits !! j) as [c|] eqn:Hc.
    2:{ apply lookup_ge_None in Hc. lia. }
    unfold Send.char_at.
    rewrite !lookup_app_l by (rewrite ?length_map; unfold ds; rewrite ?length_map; lia).
    rewrite Hc. unfold ds. rewrite !list_lookup_fmap, Hc. cbn [fmap option_fmap option_map].
    pose proof (proj1 (Forall_lookup _ _) Hall j c Hc) as Hx. cbn beta in Hx.
    destruct (xdigit_facts c Hx) as (Hr & _).
    by destruct (asc2nibble_digit _ Hr) as (-> & _).
  - rewrite length_app. cbn [length]. destruct ext; lia.
Qed.

(** The inline [parse_frame] behind its identifier stage: every return
    of true leaves the identifier and the width of that stage. *)
Lemma parse_frame_id_text fd b (digits body : cstring) (ext : bool) f :
  length digits = (if ext then 8 else 3)%nat ->
  Forall (fun c => isxdigit c = true) digits ->
  let r := Send.parse_frame fd b (digits ++ "#"%char :: body) f in
  let limit := if ext then TWAI_EXT_ID_MASK else TWAI_STD_ID_MASK in
  (limit < hex_value digits ->
   Send.TWAI_MIN_FRAME_LEN <= Z.of_nat (length (digits ++ "#"%char :: body)) ->
   fst r = Send.ReturnFalse
             (if ext then Send.ExtendedIdOutOfRange else Send.StandardIdOutOfRange)) /\
  (fst r = Send.ReturnTrue ->
   id (header (snd r)) = hex_value digits /\ ide (header (snd r)) = ext /\
   hex_value digits <= limit).
Proof.
  intros Hlen Hall. cbn zeta.
  destruct (id_stage_xdigits b digits body ext Hlen Hall) as (H3 & H8 & Hloop & Hl).
  unfold Send.parse_frame.
  unfold Send.TWAI_STD_DELIMITER_POS, Send.TWAI_EXT_DELIMITER_POS.
  rewrite H3, Hl.
  destruct (_ <? Send.TWAI_MIN_FRAME_LEN) eqn:Emin.
  { split; [|intros H; cbv beta iota zeta delta [fst] in H; discriminate H].
    intros _ Hmin. apply Z.ltb_lt in Emin. lia. }
  assert (Hfin : forall v (g : twai_frame_t),
            ide (header g) = ext /\ id (header g) = hex_value digits ->
            hex_value digits <= (if ext then TWAI_EXT_ID_MASK else TWAI_STD_ID_MASK) ->
            fst (v, g) = Send.ReturnTrue ->
            id (header (snd (v, g))) = hex_value digits /\
            ide (header (snd (v, g))) = ext /\
            hex_value digits <= (if ext then TWAI_EXT_ID_MASK else TWAI_STD_ID_MASK)).
  { intros v g [Hi Hv] Hle _. cbn [snd]. done. }
  destruct ext; cbn [negb].
  - rewrite (H8 eq_refl), Hloop. clear H3 H8 Hloop Emin Hl.
    destruct (TWAI_EXT_ID_MASK <? hex_value digits) eqn:Er.
    { split; [done|intros H; cbv beta iota zeta delta [fst] in H; discriminate H]. }
    apply Z.ltb_ge in Er. split; [intros; lia|].
    cbn [with_header header set_ide set_id ide id negb andb].
    destruct (_ || _).
    { apply Hfin; [|done]. destruct (_ && _); by cbn. }
    destruct (Ascii.eqb _ "#").
    + destruct fd; [|intros H; cbv beta iota zeta delta [fst] in H; discriminate H].
      destruct (_ || _); [intros H; cbv beta iota zeta delta [fst] in H; discriminate H|].
      destruct (_ <? _); [intros H; cbv beta iota zeta delta [fst] in H; discriminate H|].
      destruct (Send.data_loop _ _ _ _) as [[[e r] bf] d].
      destruct e; [intros H; cbv beta iota zeta delta [fst] in H; discriminate H|].
      destruct (_ && _ && _); [intros H; cbv beta iota zeta delta [fst] in H; discriminate H|].
      apply Hfin; [|done].
      repeat match goal with |- context [if ?c then _ else _] => destruct c end; by cbn.
    + destruct (Send.data_loop _ _ _ _) as [[[e r] bf] d].
      destruct e; [intros H; cbv beta iota zeta delta [fst] in H; discriminate H|].
      destruct (_ && _ && _); [intros H; cbv beta iota zeta delta [fst] in H; discriminate H|].
      apply Hfin; [|done].
      repeat match goal with |- context [if ?c then _ else _] => destruct c end; by cbn.
  - rewrite Hloop. clear H3 H8 Hloop Emin Hl.
    cbn [with_header header set_ide set_id ide id negb andb].
    destruct (TWAI_STD_ID_MASK <? hex_value digits) eqn:Er.
    { split; [done|intros H; cbv beta iota zeta delta [fst] in H; discriminate H]. }
    apply Z.ltb_ge in Er. split; [intros; lia|].
    destruct (_ || _).
    { apply Hfin; [|done]. destruct (_ && _); by cbn. }
    destruct (Ascii.eqb _ "#").
    + destruct fd; [|intros H; cbv beta iota zeta delta [fst] in H; discriminate H].
      destruct (_ || _); [intros H; cbv beta iota zeta delta [fst] in H; discriminate H|].
      destruct (_ <? _); [intros H; cbv beta iota zeta delta [fst] in H; discriminate H|].
      destruct (Send.data_loop _ _ _ _) as [[[e r] bf] d].
      destruct e; [intros H; cbv beta iota zeta delta [fst] in H; discriminate H|].
      destruct (_ && _ && _); [intros H; cbv beta iota zeta delta [fst] in H; discriminate H|].
      apply Hfin; [|done].
      repeat match goal with |- context [if ?c then _ else _] => destruct c end; by cbn.
    + destruct (Send.data_loop _ _ _ _) as [[[e r] bf] d].
      destruct e; [intros H; cbv beta iota zeta delta [fst] in H; discriminate H|].
      destruct (_ && _ && _); [intros H; cbv beta iota zeta delta [fst] in H; discriminate H|].
      apply Hfin; [|done].
      repeat match goal with |- context [if ?c then _ else _] => destruct c end; by cbn.
Qed.

(** C4: identifier range checking.  An identifier field of three hex
    digits (in either case) whose value exceeds 0x7FF is refused as out
    of range, and one up to 0x7FF is accepted as the standard identifier
    of that value.  The dedicated parser [parse_twai_id] does so
    whenever the digits are followed by the hash sign, by any other
    character that is not a hex digit or by the end of the text: it
    returns [PARSE_OUT_OF_RANGE] and leaves the frame untouched.  The
    inline [parse_frame] does so ("Standard ID out of range") on every
    frame string that has the minimum length of five characters, below
    which it returns false before it looks at the identifier.  The same
    holds for eight digits against 0x1FFFFFFF, as an extended
    identifier.  The examples ["800"], ["7FF"], ["1FFFFFFF"] and
    ["20000000"] are instances.  Whenever either decoder succeeds, on
    any input, the identifier is at most 0x7FF if the frame is not
    extended and at most 0x1FFFFFFF if it is; on an identifier field of
    three or eight hex digits the identifier stored is the value of the
    digits. *)
Theorem identifier_range_checking :
  (forall f, fst (parse_twai_id (cs "800#00") 3 f) = PARSE_OUT_OF_RANGE) /\
  (forall f,
     parse_twai_id (cs "7FF#00") 3 f
     = (PARSE_OK, with_header (fun h => set_ide false (set_id 0x7FF h)) f)) /\
  (forall f, fst (parse_twai_id (cs "1FFFFFFF#00") 8 f) = PARSE_OK) /\
  (forall f, fst (parse_twai_id (cs "20000000#00") 8 f) = PARSE_OUT_OF_RANGE) /\
  (forall fd beyond f,
     fst (Send.parse_frame fd beyond (cs "800#00") f)
     = Send.ReturnFalse Send.StandardIdOutOfRange) /\
  (forall fd beyond,
     let r := Send.parse_frame fd beyond (cs "7FF#00") (Send.fresh_frame 8) in
     fst r = Send.ReturnTrue /\ id (header (snd r)) = 0x7FF
     /\ ide (header (snd r)) = false) /\
  (forall str len f f',
     parse_twai_id str len f = (PARSE_OK, f') ->
     (ide (header f') = false -> id (header f') <= 0x7FF) /\
     (ide (header f') = true -> id (header f') <= 0x1FFFFFFF)) /\
  (forall fd beyond frame_str f f',
     Send.parse_frame fd beyond frame_str f = (Send.ReturnTrue, f') ->
     (ide (header f') = false -> id (header f') <= 0x7FF) /\
     (ide (header f') = true -> id (header f') <= 0x1FFFFFFF)) /\
  (forall (digits rest : cstring) (ext : bool) f,
     length digits = (if ext then 8 else 3)%nat ->
     Forall (fun c => isxdigit c = true) digits ->
     isxdigit (peek rest) = false ->
     parse_twai_id (digits ++ rest) (Z.of_nat (length digits)) f
     = if (if ext then 0x1FFFFFFF else 0x7FF) <? hex_value digits
       then (PARSE_OUT_OF_RANGE, f)
       else (PARSE_OK,
             with_header (fun h => set_ide ext (set_id (hex_value digits) h)) f)) /\
  (forall fd beyond (digits body : cstring) (ext : bool) f,
     length digits = (if ext then 8 else 3)%nat ->
     Forall (fun c => isxdigit c = true) digits ->
     Send.TWAI_MIN_FRAME_LEN <= Z.of_nat (length (digits ++ "#"%char :: body)) ->
     (if ext then 0x1FFFFFFF else 0x7FF) < hex_value digits ->
     fst (Send.parse_frame fd beyond (digits ++ "#"%char :: body) f)
     = Send.ReturnFalse
         (if ext then Send.ExtendedIdOutOfRange else Send.StandardIdOutOfRange)) /\
  (forall fd beyond (digits body : cstring) (ext : bool) f,
     length digits = (if ext then 8 else 3)%nat ->
     Forall (fun c => isxdigit c = true) digits ->
     let r := Send.parse_frame fd beyond (digits ++ "#"%char :: body) f in
     fst r = Send.ReturnTrue ->
     id (header (snd r)) = hex_value digits /\ ide (header (snd r)) = ext /\
     hex_value digits <= (if ext then 0x1FFFFFFF else 0x7FF)).
Proof.
  split; [intros; reflexivity|]. split; [intros; reflexivity|].
  split; [intros; reflexivity|]. split; [intros; reflexivity|].
  split; [intros [] beyond f; reflexivity|].
  split; [intros [] beyond; by vm_compute|].
  split; [|split; [|split; [|split]]].
  - intros str len f f' H. destruct (parse_twai_id_bound str len f f' H) as (_ & Hs & He).
    by split.
  - intros fd beyond frame_str f f' H. exact (parse_frame_bound _ _ _ _ _ H).
  - intros digits rest ext f Hlen Hall Hrest.
    exact (parse_twai_id_digits digits rest ext f Hlen Hall Hrest).
  - intros fd beyond digits body ext f Hlen Hall Hbody Hover.
    destruct (parse_frame_id_text fd beyond digits body ext f Hlen Hall) as [Hrange _].
    by apply Hrange.
  - intros fd beyond digits body ext f Hlen Hall r Hok.
    destruct (parse_frame_id_text fd beyond digits body ext f Hlen Hall) as [_ Hid].
    by apply Hid.
Qed.

Lemma identifier_range_checking_witness :
  parse_twai_id (cs "8a1#00") 3 (Send.fresh_frame 8)
  = (PARSE_OUT_OF_RANGE, Send.fresh_frame 8) /\
  parse_twai_id (cs "1fFFffFF#00") 8 (Send.fresh_frame 8)
  = (PARSE_OK,
     with_header (fun h => set_ide true (set_id 0x1FFFFFFF h)) (Send.fresh_frame 8)) /\
  fst (Send.parse_frame true (fun _ => NUL) (cs "8a1#00") (Send.fresh_frame 8))
  = Send.ReturnFalse Send.StandardIdOutOfRange /\
  id (header (snd (Send.parse_frame true (fun _ => NUL) (cs "7fF#00")
                     (Send.fresh_frame 8)))) = 0x7FF.
Proof.
  destruct identifier_range_checking
    as (_ & _ & _ & _ & _ & _ & _ & _ & Hdedicated & Hrange & Hvalue).
  split; [|split; [|split]].
  - apply (Hdedicated (cs "8a1") (cs "#00") false (Send.fresh_frame 8)).
    + reflexivity.
    + repeat constructor.
    + reflexivity.
  - apply (Hdedicated (cs "1fFFffFF") (cs "#00") true (Send.fresh_frame 8)).
    + reflexivity.
    + repeat constructor.
    + reflexivity.
  - apply (Hrange true (fun _ => NUL) (cs "8a1") (cs "00") false (Send.fresh_frame 8)).
    + reflexivity.
    + repeat constructor.
    + by vm_compute.
    + reflexivity.
  - apply (Hvalue true (fun _ => NUL) (cs "7fF") (cs "00") false (Send.fresh_frame 8)).
    + reflexivity.
    + repeat constructor.
    + reflexivity.
Defined.
